(** * Minesweeper engine (src/src/App.jsx): shallow embedding and verification

    The engine part of [App.jsx] is embedded as follows.

    - JS numbers that are grid coordinates, counters and sizes are [Z].
    - A cell object [{isMine, isRevealed, isFlagged, count}] is the record
      [Cell]; a board is an array of arrays of cells.
    - Code that dereferences [undefined] raises a [TypeError]; such code is
      written in the [outcome] monad.  [OutOfFuel] marks the two places
      where the embedding bounds a [while] loop: the supply of
      [Math.random] draws handed to [plantMines], and the iteration bound
      of [floodReveal] (which is shown never to be reached).
    - [plantMines] and [floodReveal] mutate the board they are given.  They
      are written once, over the interface [BoardOps] (read a cell, assign
      to a field of a cell), and used at two representations: boards as
      values (for the functional properties of the engine), and, in module
      [Heap], boards of references into a store of cell objects (for the
      aliasing discipline of the handlers).  The heap handlers are shown to
      refine the value handlers.
    - One user event is one call of [handleReveal] or [handleFlag] on the
      committed state: the [setX] calls made inside the [setBoard] updater
      and the board it returns form the next state.
    - Of the presentation, the text and the colour of a [Cell] button and
      the text of a [Counter] are embedded, over strings of characters;
      the numeral [String(n)] of an integer is [pretty n]. *)

From Stdlib Require Import ZArith Lia.
From stdpp Require Import base tactics option numbers list strings pretty.

Local Open Scope Z_scope.

(** ** Outcomes of code that may throw *)

Inductive outcome (A : Type) : Type :=
  | Ok (a : A)
  | TypeError
  | OutOfFuel.
Arguments Ok {A} a.
Arguments TypeError {A}.
Arguments OutOfFuel {A}.

#[global] Instance outcome_ret : MRet outcome := λ A a, Ok a.
#[global] Instance outcome_bind : MBind outcome := λ A B f m,
  match m with
  | Ok a => f a
  | TypeError => TypeError
  | OutOfFuel => OutOfFuel
  end.

(** [for (const x of l) { s = f(s, x) }] where the body may throw. *)
Fixpoint foldlM {S A : Type} (f : S → A → outcome S) (s : S) (l : list A)
  : outcome S :=
  match l with
  | [] => Ok s
  | x :: l' => s' ← f s x; foldlM f s' l'
  end.

(** ** Cells *)

Record Cell : Type := mkCell {
  isMine : bool;
  isRevealed : bool;
  isFlagged : bool;
  count : Z;
}.

#[global] Instance Cell_eq_dec : EqDecision Cell.
Proof. solve_decision. Defined.

Definition setMine (v : bool) (cl : Cell) : Cell :=
  mkCell v (isRevealed cl) (isFlagged cl) (count cl).
Definition setRevealed (v : bool) (cl : Cell) : Cell :=
  mkCell (isMine cl) v (isFlagged cl) (count cl).
Definition setFlagged (v : bool) (cl : Cell) : Cell :=
  mkCell (isMine cl) (isRevealed cl) v (count cl).
Definition setCount (v : Z) (cl : Cell) : Cell :=
  mkCell (isMine cl) (isRevealed cl) (isFlagged cl) v.

(** The object literal of [makeEmptyBoard]. *)
Definition emptyCell : Cell := mkCell false false false 0.

(** Property access on a value that may be [undefined]. *)
Definition deref {A : Type} (o : option A) : outcome A :=
  match o with
  | Some a => Ok a
  | None => TypeError
  end.

(** ** Config *)

Inductive Difficulty : Type := Beginner | Intermediate | Expert.

#[global] Instance Difficulty_eq_dec : EqDecision Difficulty.
Proof. solve_decision. Defined.

Record Config : Type := mkConfig { cfgRows : Z; cfgCols : Z; cfgMines : Z }.

#[global] Instance Config_eq_dec : EqDecision Config.
Proof. solve_decision. Defined.

Definition DIFFICULTIES (d : Difficulty) : Config :=
  match d with
  | Beginner => mkConfig 9 9 10
  | Intermediate => mkConfig 16 16 40
  | Expert => mkConfig 16 30 99
  end.

(** ** Helpers *)

Definition inBounds (r c rows cols : Z) : bool :=
  (0 <=? r) && (r <? rows) && (0 <=? c) && (c <? cols).

Definition neighbors (r c : Z) : list (Z * Z) :=
  [ (r-1,c-1); (r-1,c); (r-1,c+1);
    (r,  c-1);          (r,  c+1);
    (r+1,c-1); (r+1,c); (r+1,c+1) ].

(** A JS [Set] of the string keys [`${r},${c}`].  On integers the key is
    injective in [(r,c)], so a key is the pair itself; a set is the list of
    its elements in insertion order. *)
Abbreviation KeySet := (list (Z * Z)).

Definition has (k : Z * Z) (s : KeySet) : bool := bool_decide (k ∈ s).
Definition add (k : Z * Z) (s : KeySet) : KeySet :=
  if has k s then s else s ++ [k].

(** ** Boards as values *)

Abbreviation Board := (list (list Cell)).

Definition makeEmptyBoard (rows cols : Z) : Board :=
  replicate (Z.to_nat rows) (replicate (Z.to_nat cols) emptyCell).

(** [a[i]] on a JS array at an integer index: [undefined] out of range. *)
Definition index {A : Type} (l : list A) (i : Z) : option A :=
  if decide (i < 0) then None else l !! Z.to_nat i.

(** [board.map(row => row.map(cell => ({ ...cell })))] *)
Definition cloneBoard (board : Board) : Board :=
  fmap (λ row : list Cell, fmap (λ cell,
    mkCell (isMine cell) (isRevealed cell) (isFlagged cell) (count cell)) row)
    board.

(** ** The board interface used by the mutating algorithms *)

Class BoardOps (B : Type) : Type := {
  (** [board[r][c]]: throws when [board[r]] is undefined, else the cell
      object or [undefined]. *)
  readCell : B → Z → Z → outcome (option Cell);
  (** [board[r][c].field = v]: throws when the cell is undefined. *)
  writeCell : B → Z → Z → (Cell → Cell) → outcome B;
  (** [board.length] *)
  boardLength : B → Z;
  (** [board[0].length] *)
  firstRowLength : B → outcome Z;
}.

Definition Board_readCell (board : Board) (r c : Z) : outcome (option Cell) :=
  row ← deref (index board r); Ok (index row c).

Definition Board_writeCell (board : Board) (r c : Z) (f : Cell → Cell)
  : outcome Board :=
  row ← deref (index board r);
  cell ← deref (index row c);
  Ok (<[Z.to_nat r := <[Z.to_nat c := f cell]> row]> board).

#[global] Instance Board_ops : BoardOps Board := {
  readCell := Board_readCell;
  writeCell := Board_writeCell;
  boardLength board := Z.of_nat (length board);
  firstRowLength board := row ← deref (index board 0); Ok (Z.of_nat (length row));
}.

(** ** The mutating algorithms, over any board representation *)

Section Algorithms.
Context {B : Type} `{!BoardOps B}.

(** [board[r][c]] followed by a property access. *)
Definition cellAt (board : B) (r c : Z) : outcome Cell :=
  o ← readCell board r c; deref o.

(** The forbidden set built at the start of [plantMines]. *)
Definition forbiddenSet (rows cols safeR safeC : Z) : KeySet :=
  foldl (λ forbidden '(nr, nc),
           if inBounds nr nc rows cols then add (nr, nc) forbidden
           else forbidden)
        [(safeR, safeC)] (neighbors safeR safeC).

(** The [while (planted < mines)] loop.  [rnd] is the sequence of pairs
    [(Math.floor(Math.random() * rows), Math.floor(Math.random() * cols))]
    drawn by successive iterations. *)
Fixpoint plantLoop (rnd : list (Z * Z)) (forbidden : KeySet)
    (mines planted : Z) (board : B) : outcome B :=
  if decide (planted < mines) then
    match rnd with
    | [] => OutOfFuel
    | (r, c) :: rnd' =>
        if has (r, c) forbidden then
          plantLoop rnd' forbidden mines planted board
        else
          cell ← cellAt board r c;
          if isMine cell then plantLoop rnd' forbidden mines planted board
          else
            board' ← writeCell board r c (setMine true);
            plantLoop rnd' forbidden mines (planted + 1) board'
    end
  else Ok board.

(** The inner [for (const [nr, nc] of neighbors(r, c))] of the counts
    pass. *)
Definition countNeighborMines (rows cols : Z) (board : B) (r c : Z)
  : outcome Z :=
  foldlM (λ cnt '(nr, nc),
            if inBounds nr nc rows cols then
              cell ← cellAt board nr nc;
              Ok (if isMine cell then cnt + 1 else cnt)
            else Ok cnt)
         0 (neighbors r c).

(** Body of the two nested [for] loops of the counts pass. *)
Definition countStep (rows cols : Z) (r : Z) (board : B) (c : Z)
  : outcome B :=
  cell ← cellAt board r c;
  if isMine cell then Ok board
  else
    cnt ← countNeighborMines rows cols board r c;
    writeCell board r c (setCount cnt).

Definition countPass (rows cols : Z) (board : B) : outcome B :=
  foldlM (λ board r, foldlM (countStep rows cols r) board (seqZ 0 cols))
         board (seqZ 0 rows).

Definition plantMines (rnd : list (Z * Z)) (board : B)
    (rows cols mines safeR safeC : Z) : outcome B :=
  board' ← plantLoop rnd (forbiddenSet rows cols safeR safeC) mines 0 board;
  countPass rows cols board'.

(** One iteration of [for (const [nr, nc] of neighbors(r, c))] in
    [floodReveal]; the loop state is the queue, the seen set and the
    board. *)
Definition floodVisit (rows cols : Z) (st : list (Z * Z) * KeySet * B)
    (n : Z * Z) : outcome (list (Z * Z) * KeySet * B) :=
  let '(q, seen, board) := st in
  let '(nr, nc) := n in
  if negb (inBounds nr nc rows cols) then Ok st
  else
    o ← readCell board nr nc;
    if has (nr, nc) seen then Ok st
    else
      cell ← deref o;
      if isRevealed cell then Ok st
      else if isFlagged cell then Ok st
      else if isMine cell then Ok st
      else
        let seen' := add (nr, nc) seen in
        let q' := if decide (count cell = 0) then q ++ [(nr, nc)] else q in
        board' ← writeCell board nr nc (setRevealed true);
        Ok (q', seen', board').

(** The [while (q.length)] loop, bounded by [fuel] iterations. *)
Fixpoint floodLoop (fuel : nat) (rows cols : Z) (q : list (Z * Z))
    (seen : KeySet) (board : B) : outcome B :=
  match q with
  | [] => Ok board
  | (r, c) :: q' =>
      match fuel with
      | O => OutOfFuel
      | S fuel' =>
          board1 ← writeCell board r c (setRevealed true);
          cell ← cellAt board1 r c;
          if decide (count cell = 0) then
            st ← foldlM (floodVisit rows cols) (q', seen, board1)
                        (neighbors r c);
            let '(q2, seen2, board2) := st in
            floodLoop fuel' rows cols q2 seen2 board2
          else floodLoop fuel' rows cols q' seen board1
      end
  end.

Definition floodReveal (board : B) (startR startC : Z) : outcome B :=
  let rows := boardLength board in
  cols ← firstRowLength board;
  floodLoop (S (Z.to_nat (rows * cols))) rows cols
            [(startR, startC)] [(startR, startC)] board.
End Algorithms.

(** ** The game session (the state held by [App]) *)

Inductive Status : Type := ready | playing | won | lost.

#[global] Instance Status_eq_dec : EqDecision Status.
Proof. solve_decision. Defined.

Record Session : Type := mkSession {
  difficulty : Difficulty;
  board : Board;
  minesPlanted : bool;
  status : Status;
  revealedCount : Z;
  seconds : Z;
}.

Definition rowsOf (s : Session) : Z := cfgRows (DIFFICULTIES (difficulty s)).
Definition colsOf (s : Session) : Z := cfgCols (DIFFICULTIES (difficulty s)).
Definition minesOf (s : Session) : Z := cfgMines (DIFFICULTIES (difficulty s)).

(** [board.flat().filter(c => c.isFlagged).length] *)
Definition countFlagged (board : Board) : Z :=
  Z.of_nat (length (filter (λ c : Cell, isFlagged c) (mjoin board))).

(** [next.flat().filter(cel => cel.isRevealed && !cel.isMine).length] *)
Definition countRevealedSafe (board : Board) : Z :=
  Z.of_nat (length (filter (λ cel : Cell, isRevealed cel && negb (isMine cel))
                           (mjoin board))).

Definition flagsLeft (s : Session) : Z :=
  Z.max 0 (minesOf s - countFlagged (board s)).

Definition totalSafe (s : Session) : Z := rowsOf s * colsOf s - minesOf s.

Definition coveredLeft (s : Session) : Z :=
  rowsOf s * colsOf s - revealedCount s.

Definition freshSession (d : Difficulty) : Session :=
  mkSession d (makeEmptyBoard (cfgRows (DIFFICULTIES d)) (cfgCols (DIFFICULTIES d)))
            false ready 0 0.

(** The [reset] button. *)
Definition reset (s : Session) : Session := freshSession (difficulty s).

(** Selecting a difficulty; the resetting effect runs when
    [rows, cols, mines] change. *)
Definition setDifficulty (d : Difficulty) (s : Session) : Session :=
  if decide (DIFFICULTIES d = DIFFICULTIES (difficulty s))
  then mkSession d (board s) (minesPlanted s) (status s) (revealedCount s)
                 (seconds s)
  else freshSession d.

(** One firing of the timer interval. *)
Definition tick (s : Session) : Session :=
  mkSession (difficulty s) (board s) (minesPlanted s) (status s)
            (revealedCount s) (Z.min 999 (seconds s + 1)).

Definition terminal (st : Status) : bool :=
  match st with
  | lost | won => true
  | _ => false
  end.

(** [row.map(cel => (cel.isMine ? { ...cel, isRevealed: true } : cel))] over
    all rows. *)
Definition revealAllMines (board : Board) : Board :=
  fmap (λ row : list Cell, fmap (λ cel, if isMine cel then setRevealed true cel else cel) row)
       board.

(** [row.map(cel => (cel.isMine ? { ...cel, isFlagged: true } : cel))] over
    all rows. *)
Definition flagAllMines (board : Board) : Board :=
  fmap (λ row : list Cell, fmap (λ cel, if isMine cel then setFlagged true cel else cel) row)
       board.

(** [handleReveal(r, c)]; [rnd] are the random draws available to
    [plantMines] should this be the first click. *)
Definition handleReveal (rnd : list (Z * Z)) (s : Session) (r c : Z)
  : outcome Session :=
  let prev := board s in
  if terminal (status s) then Ok s
  else
    let next := cloneBoard prev in
    st ← (if negb (minesPlanted s) then
            next' ← plantMines rnd next (rowsOf s) (colsOf s) (minesOf s) r c;
            Ok (next', true, playing, 0)
          else Ok (next, minesPlanted s, status s, seconds s));
    let '(next, planted1, status1, seconds1) := st in
    cell ← cellAt next r c;
    if isRevealed cell || isFlagged cell then
      Ok (mkSession (difficulty s) prev planted1 status1 (revealedCount s)
                    seconds1)
    else if isMine cell then
      Ok (mkSession (difficulty s) (revealAllMines next) planted1 lost
                    (revealedCount s) seconds1)
    else
      next ← (if decide (count cell = 0) then floodReveal next r c
              else writeCell next r c (setRevealed true));
      let newlyRevealed := countRevealedSafe next in
      if decide (newlyRevealed = totalSafe s) then
        Ok (mkSession (difficulty s) (flagAllMines next) planted1 won
                      newlyRevealed seconds1)
      else
        Ok (mkSession (difficulty s) next planted1 status1 newlyRevealed
                      seconds1).

(** [handleFlag(r, c)] *)
Definition handleFlag (s : Session) (r c : Z) : outcome Session :=
  let prev := board s in
  if terminal (status s) then Ok s
  else
    let flaggedPrev := countFlagged prev in
    let flagsLeftNow := minesOf s - flaggedPrev in
    let next := cloneBoard prev in
    cell ← cellAt next r c;
    if isRevealed cell then Ok s
    else
      let willFlag := negb (isFlagged cell) in
      if willFlag && bool_decide (flagsLeftNow = 0) then Ok s
      else
        next ← writeCell next r c (setFlagged willFlag);
        Ok (mkSession (difficulty s) next (minesPlanted s) (status s)
                      (revealedCount s) (seconds s)).

(** Sessions reachable from the initial render. *)
Inductive step : Session → Session → Prop :=
  | step_reveal rnd r c s s' : handleReveal rnd s r c = Ok s' → step s s'
  | step_flag r c s s' : handleFlag s r c = Ok s' → step s s'
  | step_reset s : step s (reset s)
  | step_difficulty d s : step s (setDifficulty d s)
  | step_tick s : status s = playing → step s (tick s).

Inductive reachable : Session → Prop :=
  | reachable_init : reachable (freshSession Beginner)
  | reachable_step s s' : reachable s → step s s' → reachable s'.

(** ** The presentation of a cell and of the counters *)

(** [NUM_COLOR[k]]: [undefined] off the table. *)
Definition NUM_COLOR (k : Z) : option string :=
  match k with
  | 1 => Some "#0000FF" | 2 => Some "#008200"
  | 3 => Some "#FF0000" | 4 => Some "#000084"
  | 5 => Some "#840000" | 6 => Some "#008284"
  | 7 => Some "#000000" | 8 => Some "#7d7d7d"
  | _ => None
  end.

(** The text of a [Cell] button.  [String(n)] of an integer [n] that a
    number holds exactly is its decimal numeral, which is [pretty n]. *)
Definition display (cell : Cell) : string :=
  if negb (isRevealed cell) then
    if isFlagged cell then "🚩" else ""
  else if isMine cell then "💣"
  else if decide (count cell = 0) then "" else pretty (count cell).

(** The [color] property of the style of a [Cell] button: the style of a
    covered cell has none. *)
Definition cellColor (cell : Cell) : option string :=
  if isRevealed cell then Some (default "#444" (NUM_COLOR (count cell)))
  else None.

(** The filler of [padStart]: [padString] repeated and cut to [n]
    characters; [rest] is what is left of the copy being laid down. *)
Fixpoint filler (n : nat) (padString rest : string) : string :=
  match n with
  | O => ""
  | S n' =>
      match rest with
      | String a rest' => String a (filler n' padString rest')
      | EmptyString =>
          match padString with
          | String a rest' => String a (filler n' padString rest')
          | EmptyString => ""
          end
      end
  end.

(** [s.padStart(targetLength, padString)] *)
Definition padStart (targetLength : Z) (padString s : string) : string :=
  let fillLen := targetLength - Z.of_nat (String.length s) in
  if decide (fillLen ≤ 0) then s
  else if decide (padString = "") then s
  else filler (Z.to_nat fillLen) padString padString +:+ s.

(** [s.slice(start)] *)
Definition slice (start : Z) (s : string) : string :=
  let len := Z.of_nat (String.length s) in
  let from := if decide (start < 0) then Z.max (len + start) 0
              else Z.min start len in
  String.substring (Z.to_nat from) (Z.to_nat (len - from)) s.

(** The text of a [Counter]:
    [String(value).padStart(3, "0").slice(-3)]. *)
Definition Counter (value : Z) : string :=
  slice (-3) (padStart 3 "0" (pretty value)).

(** ** Events *)

(** The events of a session: the two clicks (a reveal carries the random
    draws available to it), the reset button, the difficulty selector and
    the timer interval, which fires while the phase is [playing]. *)
Inductive Event : Type :=
  | EvReveal (rnd : list (Z * Z)) (r c : Z)
  | EvFlag (r c : Z)
  | EvReset
  | EvDifficulty (d : Difficulty)
  | EvTick.

Definition handle (s : Session) (e : Event) : outcome Session :=
  match e with
  | EvReveal rnd r c => handleReveal rnd s r c
  | EvFlag r c => handleFlag s r c
  | EvReset => Ok (reset s)
  | EvDifficulty d => Ok (setDifficulty d s)
  | EvTick => Ok (if decide (status s = playing) then tick s else s)
  end.

(** * Boards of references: the heap model of the handlers *)

Module Heap.

(** The cell objects allocated so far: object [l] (for [l < next]) has
    the fields [obj l]; allocation takes the reference [next]. *)
Record Store : Type := mkStore { next : nat; obj : nat → Cell }.

Definition alloc (st : Store) (x : Cell) : Store * nat :=
  (mkStore (S (next st))
           (λ l, if decide (l = next st) then x else obj st l),
   next st).

Definition update (st : Store) (l : nat) (f : Cell → Cell) : Store :=
  mkStore (next st) (λ l', if decide (l' = l) then f (obj st l) else obj st l').

(** A board is an array of arrays of references.  The engine never
    assigns to an array element, so the arrays themselves are values. *)
Record HBoard : Type := mkHBoard { store : Store; refs : list (list nat) }.

Definition H_readCell (hb : HBoard) (r c : Z) : outcome (option Cell) :=
  row ← deref (index (refs hb) r); Ok (obj (store hb) <$> index row c).

Definition H_writeCell (hb : HBoard) (r c : Z) (f : Cell → Cell)
  : outcome HBoard :=
  row ← deref (index (refs hb) r);
  l ← deref (index row c);
  Ok (mkHBoard (update (store hb) l f) (refs hb)).

Definition HBoard_ops : BoardOps HBoard := {|
  readCell := H_readCell;
  writeCell := H_writeCell;
  boardLength hb := Z.of_nat (length (refs hb));
  firstRowLength hb :=
    row ← deref (index (refs hb) 0); Ok (Z.of_nat (length row));
|}.
#[local] Existing Instance HBoard_ops.

(** [row.map(cel => ...)] for a callback that either builds a new object
    ([g] gives its fields) or returns the object it was given. *)
Fixpoint mapRow (g : Cell → option Cell) (st : Store) (row : list nat)
  : Store * list nat :=
  match row with
  | [] => (st, [])
  | l :: row' =>
      let '(st1, l1) := match g (obj st l) with
                        | Some y => alloc st y
                        | None => (st, l)
                        end in
      let '(st2, out) := mapRow g st1 row' in
      (st2, l1 :: out)
  end.

(** [board.map(row => row.map(cel => ...))] *)
Fixpoint mapRows (g : Cell → option Cell) (st : Store)
    (rows : list (list nat)) : Store * list (list nat) :=
  match rows with
  | [] => (st, [])
  | row :: rows' =>
      let '(st1, row1) := mapRow g st row in
      let '(st2, out) := mapRows g st1 rows' in
      (st2, row1 :: out)
  end.

(** [cell => ({ ...cell })] *)
Definition copyCell (cell : Cell) : option Cell :=
  Some (mkCell (isMine cell) (isRevealed cell) (isFlagged cell) (count cell)).

(** [cel => (cel.isMine ? { ...cel, isRevealed: true } : cel)] *)
Definition revealMine (cel : Cell) : option Cell :=
  if isMine cel then Some (setRevealed true cel) else None.

(** [cel => (cel.isMine ? { ...cel, isFlagged: true } : cel)] *)
Definition flagMine (cel : Cell) : option Cell :=
  if isMine cel then Some (setFlagged true cel) else None.

Definition cloneBoard (st : Store) (rows : list (list nat))
  : Store * list (list nat) :=
  mapRows copyCell st rows.

(** The cell values a board of references currently shows. *)
Definition snapshot (st : Store) (rows : list (list nat)) : Board :=
  (λ row : list nat, obj st <$> row) <$> rows.

(** [makeEmptyBoard]: one new object per cell. *)
Fixpoint makeRow (st : Store) (n : nat) : Store * list nat :=
  match n with
  | O => (st, [])
  | S n' =>
      let '(st1, l) := alloc st emptyCell in
      let '(st2, out) := makeRow st1 n' in
      (st2, l :: out)
  end.

Fixpoint makeRows (st : Store) (n m : nat) : Store * list (list nat) :=
  match n with
  | O => (st, [])
  | S n' =>
      let '(st1, row) := makeRow st m in
      let '(st2, out) := makeRows st1 n' m in
      (st2, row :: out)
  end.

Record HSession : Type := mkHSession {
  h_store : Store;
  h_difficulty : Difficulty;
  h_board : list (list nat);
  h_minesPlanted : bool;
  h_status : Status;
  h_revealedCount : Z;
  h_seconds : Z;
}.

(** The session as the presentation layer reads it. *)
Definition view (hs : HSession) : Session :=
  mkSession (h_difficulty hs) (snapshot (h_store hs) (h_board hs))
            (h_minesPlanted hs) (h_status hs) (h_revealedCount hs)
            (h_seconds hs).

Definition freshSession (st : Store) (d : Difficulty) : HSession :=
  let '(st', rows) :=
    makeRows st (Z.to_nat (cfgRows (DIFFICULTIES d)))
                (Z.to_nat (cfgCols (DIFFICULTIES d))) in
  mkHSession st' d rows false ready 0 0.

Definition handleReveal (rnd : list (Z * Z)) (hs : HSession) (r c : Z)
  : outcome HSession :=
  let prev := h_board hs in
  let d := h_difficulty hs in
  if terminal (h_status hs) then Ok hs
  else
    let '(st0, next0) := cloneBoard (h_store hs) prev in
    st ← (if negb (h_minesPlanted hs) then
            next' ← plantMines rnd (mkHBoard st0 next0)
                       (cfgRows (DIFFICULTIES d)) (cfgCols (DIFFICULTIES d))
                       (cfgMines (DIFFICULTIES d)) r c;
            Ok (next', true, playing, 0)
          else Ok (mkHBoard st0 next0, h_minesPlanted hs, h_status hs,
                   h_seconds hs));
    let '(next, planted1, status1, seconds1) := st in
    cell ← cellAt next r c;
    if isRevealed cell || isFlagged cell then
      Ok (mkHSession (store next) d prev planted1 status1
                     (h_revealedCount hs) seconds1)
    else if isMine cell then
      let '(st2, next2) := mapRows revealMine (store next) (refs next) in
      Ok (mkHSession st2 d next2 planted1 lost (h_revealedCount hs)
                     seconds1)
    else
      next ← (if decide (count cell = 0) then floodReveal next r c
              else writeCell next r c (setRevealed true));
      let newlyRevealed :=
        countRevealedSafe (snapshot (store next) (refs next)) in
      if decide (newlyRevealed = totalSafe (view hs)) then
        let '(st3, next3) := mapRows flagMine (store next) (refs next) in
        Ok (mkHSession st3 d next3 planted1 won newlyRevealed seconds1)
      else
        Ok (mkHSession (store next) d (refs next) planted1 status1
                       newlyRevealed seconds1).

Definition handleFlag (hs : HSession) (r c : Z) : outcome HSession :=
  let prev := h_board hs in
  if terminal (h_status hs) then Ok hs
  else
    let flaggedPrev := countFlagged (snapshot (h_store hs) prev) in
    let flagsLeftNow := cfgMines (DIFFICULTIES (h_difficulty hs))
                        - flaggedPrev in
    let '(st0, next0) := cloneBoard (h_store hs) prev in
    let next := mkHBoard st0 next0 in
    cell ← cellAt next r c;
    if isRevealed cell then
      Ok (mkHSession st0 (h_difficulty hs) prev (h_minesPlanted hs)
                     (h_status hs) (h_revealedCount hs) (h_seconds hs))
    else
      let willFlag := negb (isFlagged cell) in
      if willFlag && bool_decide (flagsLeftNow = 0) then
        Ok (mkHSession st0 (h_difficulty hs) prev (h_minesPlanted hs)
                       (h_status hs) (h_revealedCount hs) (h_seconds hs))
      else
        next ← writeCell next r c (setFlagged willFlag);
        Ok (mkHSession (store next) (h_difficulty hs) (refs next)
                       (h_minesPlanted hs) (h_status hs)
                       (h_revealedCount hs) (h_seconds hs)).

(** The [reset] button: a new grid, made of new objects. *)
Definition reset (hs : HSession) : HSession :=
  freshSession (h_store hs) (h_difficulty hs).

Definition setDifficulty (d : Difficulty) (hs : HSession) : HSession :=
  if decide (DIFFICULTIES d = DIFFICULTIES (h_difficulty hs))
  then mkHSession (h_store hs) d (h_board hs) (h_minesPlanted hs)
                  (h_status hs) (h_revealedCount hs) (h_seconds hs)
  else freshSession (h_store hs) d.

Definition tick (hs : HSession) : HSession :=
  mkHSession (h_store hs) (h_difficulty hs) (h_board hs) (h_minesPlanted hs)
             (h_status hs) (h_revealedCount hs)
             (Z.min 999 (h_seconds hs + 1)).

Definition handle (hs : HSession) (e : Event) : outcome HSession :=
  match e with
  | EvReveal rnd r c => handleReveal rnd hs r c
  | EvFlag r c => handleFlag hs r c
  | EvReset => Ok (reset hs)
  | EvDifficulty d => Ok (setDifficulty d hs)
  | EvTick => Ok (if decide (h_status hs = playing) then tick hs else hs)
  end.

(** Every reference of the current grid denotes an allocated object. *)
Definition wellFormed (hs : HSession) : Prop :=
  ∀ l, l ∈ mjoin (h_board hs) → (l < next (h_store hs))%nat.

End Heap.

(** * Reasoning about boards as values *)

Lemma bind_Ok {A B : Type} (m : outcome A) (f : A → outcome B) (b : B) :
  m ≫= f = Ok b ↔ ∃ a, m = Ok a ∧ f a = Ok b.
Proof.
  destruct m; simpl; split; try (intros (? & ? & ?)); try discriminate; eauto.
  congruence.
Qed.

Lemma index_Some {A : Type} (l : list A) (i : Z) (x : A) :
  index l i = Some x ↔ 0 ≤ i ∧ l !! Z.to_nat i = Some x.
Proof.
  unfold index. case_decide; split.
  - done.
  - intros [? ?]; lia.
  - intros ?; split; [lia | done].
  - intros [? ?]; done.
Qed.

Lemma index_is_Some {A : Type} (l : list A) (i : Z) :
  0 ≤ i < Z.of_nat (length l) → is_Some (index l i).
Proof.
  intros ?. unfold index. case_decide; [lia|]. apply lookup_lt_is_Some. lia.
Qed.

(** The cell stored at [(r, c)], if there is one. *)
Definition cellOf (b : Board) (r c : Z) : option Cell :=
  match index b r with
  | Some row => index row c
  | None => None
  end.

(** The row lengths of a board. *)
Definition shape (b : Board) : list nat := length <$> b.

(** [b] with the cell at [(r, c)] replaced by [y]. *)
Definition putCell (b : Board) (r c : Z) (y : Cell) : Board :=
  match index b r with
  | Some row => <[Z.to_nat r := <[Z.to_nat c := y]> row]> b
  | None => b
  end.

Lemma cellAt_cellOf (b : Board) (r c : Z) :
  cellAt b r c = match cellOf b r c with Some x => Ok x | None => TypeError end.
Proof.
  unfold cellAt, cellOf. simpl. unfold Board_readCell.
  destruct (index b r) as [row|]; simpl; [|done].
  destruct (index row c); done.
Qed.

Lemma cellAt_Ok (b : Board) (r c : Z) (x : Cell) :
  cellAt b r c = Ok x ↔ cellOf b r c = Some x.
Proof. rewrite cellAt_cellOf. destruct (cellOf b r c); split; congruence. Qed.

Lemma writeCell_cellOf (b : Board) (r c : Z) (f : Cell → Cell) :
  writeCell b r c f =
    match cellOf b r c with
    | Some x => Ok (putCell b r c (f x))
    | None => TypeError
    end.
Proof.
  simpl. unfold Board_writeCell, cellOf, putCell.
  destruct (index b r) as [row|]; simpl; [|done].
  destruct (index row c); done.
Qed.

Lemma writeCell_Ok (b b' : Board) (r c : Z) (f : Cell → Cell) :
  writeCell b r c f = Ok b' ↔
  ∃ x, cellOf b r c = Some x ∧ b' = putCell b r c (f x).
Proof.
  rewrite writeCell_cellOf. destruct (cellOf b r c); split.
  - intros [= <-]; eauto.
  - intros (x & [= <-] & ->); done.
  - done.
  - intros (x & ? & _); done.
Qed.

Lemma shape_putCell (b : Board) (r c : Z) (y : Cell) :
  shape (putCell b r c y) = shape b.
Proof.
  unfold putCell, shape. destruct (index b r) as [row|] eqn:Hr; [|done].
  apply index_Some in Hr as [_ Hr].
  rewrite list_fmap_insert, length_insert.
  apply list_insert_id. by rewrite list_lookup_fmap, Hr.
Qed.

Lemma cellOf_putCell (b : Board) (r c : Z) (y : Cell) (r' c' : Z) :
  is_Some (cellOf b r c) →
  cellOf (putCell b r c y) r' c' =
    if decide (r' = r ∧ c' = c) then Some y else cellOf b r' c'.
Proof.
  intros [x Hx]. unfold cellOf, putCell in *.
  destruct (index b r) as [row|] eqn:Hr; [|done].
  pose proof Hr as [Hr0 Hr1]%index_Some.
  pose proof Hx as [Hc0 Hc1]%index_Some.
  destruct (decide (r' = r)) as [->|Hne].
  - assert (index (<[Z.to_nat r:=<[Z.to_nat c:=y]> row]> b) r
            = Some (<[Z.to_nat c:=y]> row)) as ->.
    { apply index_Some. split; [done|].
      apply list_lookup_insert_eq. by eapply lookup_lt_Some. }
    rewrite Hr. unfold index. destruct (decide (c' < 0)).
    + rewrite decide_False; [done | lia].
    + destruct (decide (c' = c)) as [->|].
      * rewrite decide_True by done.
        apply list_lookup_insert_eq. by eapply lookup_lt_Some.
      * rewrite decide_False by tauto.
        apply list_lookup_insert_ne. lia.
  - rewrite decide_False by tauto.
    unfold index at 1 3. destruct (decide (r' < 0)); [done|].
    rewrite list_lookup_insert_ne by lia. done.
Qed.

Lemma cellOf_putCell_same (b : Board) (r c : Z) (y : Cell) :
  is_Some (cellOf b r c) → cellOf (putCell b r c y) r c = Some y.
Proof. intros H. rewrite cellOf_putCell by done. by rewrite decide_True. Qed.

Lemma cellOf_putCell_ne (b : Board) (r c : Z) (y : Cell) (r' c' : Z) :
  is_Some (cellOf b r c) → (r', c') ≠ (r, c) →
  cellOf (putCell b r c y) r' c' = cellOf b r' c'.
Proof.
  intros H Hne. rewrite cellOf_putCell by done.
  rewrite decide_False; [done|]. intros [-> ->]; done.
Qed.

Lemma cellOf_nat (b : Board) (i j : nat) :
  cellOf b (Z.of_nat i) (Z.of_nat j) = b !! i ≫= (.!! j).
Proof.
  unfold cellOf, index. rewrite decide_False by lia. rewrite !Nat2Z.id.
  destruct (b !! i); simpl; [|done]. by rewrite decide_False by lia.
Qed.

Lemma cellOf_Some_nat (b : Board) (r c : Z) (x : Cell) :
  cellOf b r c = Some x ↔
  ∃ i j row, r = Z.of_nat i ∧ c = Z.of_nat j ∧ b !! i = Some row ∧
             row !! j = Some x.
Proof.
  split.
  - unfold cellOf. destruct (index b r) as [row|] eqn:Hr; [|done].
    intros [? ?]%index_Some. apply index_Some in Hr as [? ?].
    exists (Z.to_nat r), (Z.to_nat c), row. repeat split; try done; lia.
  - intros (i & j & row & -> & -> & Hi & Hj).
    rewrite cellOf_nat, Hi. done.
Qed.

Lemma elem_of_board (b : Board) (x : Cell) :
  x ∈ mjoin b ↔ ∃ r c, cellOf b r c = Some x.
Proof.
  rewrite list_elem_of_join. split.
  - intros (row & [j Hj]%list_elem_of_lookup & [i Hi]%list_elem_of_lookup).
    exists (Z.of_nat i), (Z.of_nat j). apply cellOf_Some_nat. eauto 10.
  - intros (r & c & (i & j & row & _ & _ & Hi & Hj)%cellOf_Some_nat).
    exists row. split; eapply list_elem_of_lookup_2; eauto.
Qed.

(** A board of [rows] rows of [cols] cells each. *)
Definition hasDims (rows cols : Z) (b : Board) : Prop :=
  shape b = replicate (Z.to_nat rows) (Z.to_nat cols).

Lemma inBounds_true (r c rows cols : Z) :
  inBounds r c rows cols = true ↔ 0 ≤ r < rows ∧ 0 ≤ c < cols.
Proof. unfold inBounds. rewrite !andb_true_iff. lia. Qed.

Lemma inBounds_false (r c rows cols : Z) :
  inBounds r c rows cols = false ↔ ¬ (0 ≤ r < rows ∧ 0 ≤ c < cols).
Proof.
  rewrite <- inBounds_true. destruct (inBounds r c rows cols); split;
    congruence || tauto.
Qed.

Lemma hasDims_cellOf (rows cols : Z) (b : Board) (r c : Z) :
  hasDims rows cols b →
  is_Some (cellOf b r c) ↔ inBounds r c rows cols = true.
Proof.
  unfold hasDims, shape. intros Hs. rewrite inBounds_true. split.
  - intros [x (i & j & row & -> & -> & Hi & Hj)%cellOf_Some_nat].
    assert ((length <$> b) !! i = Some (length row)) as Hl
      by (by rewrite list_lookup_fmap, Hi).
    rewrite Hs in Hl. apply lookup_replicate in Hl as [Hl ?].
    apply lookup_lt_Some in Hj. lia.
  - intros [? ?].
    assert ((length <$> b) !! Z.to_nat r = Some (Z.to_nat cols)) as Hl.
    { rewrite Hs. apply lookup_replicate_2. lia. }
    rewrite list_lookup_fmap in Hl.
    destruct (b !! Z.to_nat r) as [row|] eqn:Hrow; [|done].
    injection Hl as Hl.
    destruct (lookup_lt_is_Some_2 row (Z.to_nat c)) as [x Hx]; [lia|].
    exists x. apply cellOf_Some_nat.
    exists (Z.to_nat r), (Z.to_nat c), row. repeat split; try done; lia.
Qed.

Lemma hasDims_makeEmptyBoard (rows cols : Z) :
  hasDims rows cols (makeEmptyBoard rows cols).
Proof.
  unfold hasDims, shape, makeEmptyBoard.
  rewrite fmap_replicate, length_replicate. done.
Qed.

Lemma cellOf_makeEmptyBoard (rows cols r c : Z) (x : Cell) :
  cellOf (makeEmptyBoard rows cols) r c = Some x → x = emptyCell.
Proof.
  intros (i & j & row & _ & _ & Hi & Hj)%cellOf_Some_nat.
  apply lookup_replicate in Hi as [-> _].
  apply lookup_replicate in Hj as [-> _]. done.
Qed.

(** Two boards of the same shape whose cells are related pointwise. *)
Lemma board_Forall2 (R : Cell → Cell → Prop) (b b' : Board) :
  shape b = shape b' →
  (∀ r c x x', cellOf b r c = Some x → cellOf b' r c = Some x' → R x x') →
  Forall2 (Forall2 R) b b'.
Proof.
  unfold shape. intros Hs HR.
  apply Forall2_same_length_lookup. split.
  { apply (f_equal length) in Hs. by rewrite !length_fmap in Hs. }
  intros i row row' Hi Hi'.
  apply Forall2_same_length_lookup. split.
  { apply (f_equal (.!! i)) in Hs. rewrite !list_lookup_fmap, Hi, Hi' in Hs.
    by injection Hs. }
  intros j x x' Hj Hj'.
  apply (HR (Z.of_nat i) (Z.of_nat j)); apply cellOf_Some_nat; eauto 10.
Qed.

Lemma length_filter_Forall2 {A : Type} (P : A → Prop) `{!∀ x, Decision (P x)}
    (l l' : list A) :
  Forall2 (λ x x', P x ↔ P x') l l' →
  length (filter P l) = length (filter P l').
Proof.
  induction 1 as [|x x' l l' Hx _ IH]; [done|].
  rewrite !filter_cons.
  destruct (decide (P x)), (decide (P x')); simpl; try tauto; lia.
Qed.

Lemma board_count_ext (P : Cell → Prop) `{!∀ x, Decision (P x)}
    (b b' : Board) :
  shape b = shape b' →
  (∀ r c x x', cellOf b r c = Some x → cellOf b' r c = Some x' → (P x ↔ P x')) →
  length (filter P (mjoin b)) = length (filter P (mjoin b')).
Proof.
  intros Hs HP. apply length_filter_Forall2, Forall2_join.
  by apply board_Forall2.
Qed.

Lemma length_filter_insert {A : Type} (P : A → Prop) `{!∀ x, Decision (P x)}
    (l : list A) (i : nat) (x y : A) :
  l !! i = Some x →
  (length (filter P (<[i:=y]> l)) + (if decide (P x) then 1 else 0) =
   length (filter P l) + (if decide (P y) then 1 else 0))%nat.
Proof.
  revert i. induction l as [|a l IH]; intros [|i] Hi; simplify_eq/=.
  - rewrite !filter_cons. destruct (decide (P x)), (decide (P y)); simpl; lia.
  - rewrite !filter_cons. specialize (IH _ Hi).
    destruct (decide (P a)); simpl; lia.
Qed.

Lemma length_filter_join_insert {A : Type} (P : A → Prop)
    `{!∀ x, Decision (P x)} (ls : list (list A)) (i : nat) (l l' : list A) :
  ls !! i = Some l →
  (length (filter P (mjoin (<[i:=l']> ls))) + length (filter P l) =
   length (filter P (mjoin ls)) + length (filter P l'))%nat.
Proof.
  revert i. induction ls as [|a ls IH]; intros [|i] Hi; simplify_eq/=.
  - rewrite !filter_app, !length_app. lia.
  - rewrite !filter_app, !length_app. specialize (IH _ Hi). lia.
Qed.

Lemma board_count_putCell (P : Cell → Prop) `{!∀ x, Decision (P x)}
    (b : Board) (r c : Z) (x y : Cell) :
  cellOf b r c = Some x →
  (length (filter P (mjoin (putCell b r c y))) + (if decide (P x) then 1 else 0) =
   length (filter P (mjoin b)) + (if decide (P y) then 1 else 0))%nat.
Proof.
  intros Hx. unfold putCell, cellOf in *.
  destruct (index b r) as [row|] eqn:Hr; [|done].
  apply index_Some in Hr as [_ Hr]. apply index_Some in Hx as [_ Hx].
  pose proof (length_filter_join_insert P b _ row (<[Z.to_nat c:=y]> row) Hr).
  pose proof (length_filter_insert P row _ x y Hx). lia.
Qed.

(** * Mine planting *)

Definition isMineAt (b : Board) (r c : Z) : bool :=
  match cellOf b r c with
  | Some x => isMine x
  | None => false
  end.

(** [board.flat().filter(c => c.isMine).length] *)
Definition countMines (b : Board) : Z :=
  Z.of_nat (length (filter (λ c : Cell, isMine c) (mjoin b))).

(** The number of in-bounds neighbours of [(r, c)] that bear a mine. *)
Definition mineNeighbors (rows cols : Z) (b : Board) (r c : Z) : Z :=
  Z.of_nat (length (filter
    (λ k : Z * Z, inBounds k.1 k.2 rows cols && isMineAt b k.1 k.2)
    (neighbors r c))).

Lemma elem_of_add (k k' : Z * Z) (s : KeySet) :
  k ∈ add k' s ↔ k = k' ∨ k ∈ s.
Proof.
  unfold add, has. case_bool_decide as Hin.
  - split; [tauto|]. by intros [->|?].
  - rewrite elem_of_app, list_elem_of_singleton. tauto.
Qed.

Lemma has_true (k : Z * Z) (s : KeySet) : has k s = true ↔ k ∈ s.
Proof. unfold has. apply bool_decide_eq_true. Qed.

Lemma has_false (k : Z * Z) (s : KeySet) : has k s = false ↔ k ∉ s.
Proof. unfold has. apply bool_decide_eq_false. Qed.

Lemma elem_of_forbiddenSet (rows cols safeR safeC : Z) (k : Z * Z) :
  k ∈ forbiddenSet rows cols safeR safeC ↔
  k = (safeR, safeC) ∨
  (k ∈ neighbors safeR safeC ∧ inBounds k.1 k.2 rows cols = true).
Proof.
  unfold forbiddenSet.
  assert (∀ l s, k ∈ foldl (λ forbidden '(nr, nc),
             if inBounds nr nc rows cols then add (nr, nc) forbidden
             else forbidden) s l ↔
           k ∈ s ∨ (k ∈ l ∧ inBounds k.1 k.2 rows cols = true)) as H.
  { induction l as [|[nr nc] l IH]; intros s; simpl.
    - rewrite elem_of_nil. tauto.
    - rewrite IH, elem_of_cons.
      destruct (inBounds nr nc rows cols) eqn:Hb.
      + rewrite elem_of_add. split.
        * intros [[->|?]|[? ?]]; auto.
        * intros [?|[[->|?] ?]]; auto.
      + split; [intros [?|[? ?]]; auto|].
        intros [?|[[->|?] ?]]; simpl in *; [tauto|congruence|tauto]. }
  rewrite H, list_elem_of_singleton. done.
Qed.

(** What the planting loop does to a board: the shape is kept, the number of
    mines grows by [mines - planted], and a cell is either untouched or, when
    outside the forbidden set, turned into a mine. *)
Lemma plantLoop_spec (rnd : list (Z * Z)) (forb : KeySet) (mines : Z) :
  ∀ (planted : Z) (b b' : Board),
  plantLoop rnd forb mines planted b = Ok b' →
  planted ≤ mines →
  shape b' = shape b ∧
  countMines b' - countMines b = mines - planted ∧
  (∀ r c x, cellOf b r c = Some x →
     ∃ x', cellOf b' r c = Some x' ∧
           (x' = x ∨ (((r, c) ∉ forb) ∧ x' = setMine true x))).
Proof.
  induction rnd as [|[r c] rnd IH]; intros planted b b' Hrun Hle;
    simpl in Hrun; case_decide as Hlt.
  - done.
  - injection Hrun as <-. split; [done|]. split; [lia|]. eauto.
  - destruct (has (r, c) forb) eqn:Hforb; [by apply IH|].
    apply bind_Ok in Hrun as (cell & Hcell & Hrun).
    apply cellAt_Ok in Hcell.
    destruct (isMine cell) eqn:Hmine; [by apply IH|].
    apply bind_Ok in Hrun as (b1 & Hw & Hrun).
    apply writeCell_Ok in Hw as (cell' & Hcell' & ->).
    assert (cell' = cell) as -> by congruence.
    apply IH in Hrun as (Hs & Hcnt & Hcells); [|lia].
    rewrite shape_putCell in Hs. split; [done|]. split.
    + pose proof (board_count_putCell (λ c : Cell, isMine c) b r c cell
                    (setMine true cell) Hcell) as Hp.
      rewrite decide_False in Hp by (rewrite Hmine; simpl; tauto).
      rewrite decide_True in Hp by done.
      unfold countMines in *. lia.
    + intros r' c' x Hx.
      destruct (decide (r' = r ∧ c' = c)) as [[-> ->]|Hne].
      * assert (x = cell) as -> by congruence.
        destruct (Hcells r c (setMine true cell)) as (x' & Hx' & Hor).
        { apply cellOf_putCell_same. eauto. }
        exists x'. split; [done|]. right. apply has_false in Hforb.
        destruct Hor as [->| [_ ->]]; done.
      * apply Hcells. rewrite cellOf_putCell by eauto.
        by rewrite decide_False.
  - injection Hrun as <-. split; [done|]. split; [lia|]. eauto.
Qed.

Lemma filter_ne_notin {A : Type} `{!EqDecision A} (x : A) (l : list A) :
  x ∉ l → filter (λ k, k ≠ x) l = l.
Proof.
  induction l as [|a l IH]; [done|].
  rewrite not_elem_of_cons. intros [? ?].
  rewrite filter_cons_True by done. f_equal. auto.
Qed.

Lemma length_filter_ne {A : Type} `{!EqDecision A} (x : A) (l : list A) :
  NoDup l → (length l ≤ S (length (filter (λ k, k ≠ x) l)))%nat.
Proof.
  induction 1 as [|a l Hnotin Hnd IH]; simpl; [lia|].
  rewrite filter_cons. destruct (decide (a ≠ x)) as [?|Heq]; simpl; [lia|].
  apply dec_stable in Heq as ->. rewrite filter_ne_notin by done. lia.
Qed.

Lemma isMineAt_putCell (b : Board) (r c : Z) (y : Cell) (r' c' : Z) :
  is_Some (cellOf b r c) →
  isMineAt (putCell b r c y) r' c' =
    if decide (r' = r ∧ c' = c) then isMine y else isMineAt b r' c'.
Proof.
  intros H. unfold isMineAt. rewrite cellOf_putCell by done.
  by case_decide.
Qed.

(** The planting loop returns as soon as the draws contain enough distinct
    admissible cells. *)
Lemma plantLoop_total (rows cols : Z) (rnd : list (Z * Z)) (forb : KeySet)
    (mines : Z) :
  Forall (λ k, inBounds k.1 k.2 rows cols = true) rnd →
  ∀ (planted : Z) (b : Board) (l : list (Z * Z)),
  hasDims rows cols b →
  NoDup l →
  mines - planted ≤ Z.of_nat (length l) →
  (∀ k, k ∈ l → k ∈ rnd ∧ (k ∉ forb) ∧ isMineAt b k.1 k.2 = false) →
  ∃ b', plantLoop rnd forb mines planted b = Ok b'.
Proof.
  induction 1 as [|[r c] rnd Hin _ IH]; intros planted b l Hd Hnd Hlen Hl;
    simpl; case_decide as Hlt; eauto.
  - destruct l as [|k l]; [simpl in Hlen; lia|].
    destruct (Hl k) as [[]%elem_of_nil _]. apply elem_of_cons; auto.
  - simpl in Hin.
    destruct (has (r, c) forb) eqn:Hforb.
    { apply (IH planted b l); try done. intros k Hk.
      destruct (Hl k Hk) as ([->|?]%elem_of_cons & Hnf & ?); [|done].
      by apply has_true in Hforb. }
    apply (hasDims_cellOf _ _ b) in Hin as [cell Hcell]; [|done].
    rewrite cellAt_cellOf, Hcell. simpl.
    destruct (isMine cell) eqn:Hmine.
    { apply (IH planted b l); try done. intros k Hk.
      destruct (Hl k Hk) as ([->|?]%elem_of_cons & Hnf & Hm); [|done].
      unfold isMineAt in Hm. simpl in Hm. rewrite Hcell in Hm. congruence. }
    rewrite writeCell_cellOf, Hcell. simpl.
    apply (IH _ _ (filter (λ k, k ≠ (r, c)) l)).
    + unfold hasDims. by rewrite shape_putCell.
    + by apply NoDup_filter.
    + pose proof (length_filter_ne (r, c) l Hnd). lia.
    + intros k [Hne Hk]%list_elem_of_filter.
      destruct (Hl k Hk) as ([->|?]%elem_of_cons & Hnf & Hm); [done|].
      split; [done|]. split; [done|].
      rewrite isMineAt_putCell by eauto.
      rewrite decide_False; [done|].
      destruct k; simpl. intros [-> ->]; done.
Qed.

(** A loop invariant indexed by the elements already processed. *)
Lemma foldlM_invariant {S A : Type} (f : S → A → outcome S)
    (I : list A → S → Prop) (l : list A) (s : S) :
  I [] s →
  (∀ pre x s, I pre s → x ∈ l → ∃ s', f s x = Ok s' ∧ I (pre ++ [x]) s') →
  ∃ s', foldlM f s l = Ok s' ∧ I l s'.
Proof.
  intros H0 Hstep.
  assert (∀ post pre s, I pre s → (∀ x, x ∈ post → x ∈ l) →
            ∃ s', foldlM f s post = Ok s' ∧ I (pre ++ post) s') as H.
  { induction post as [|x post IH]; intros pre s1 HI Hsub; simpl.
    - rewrite app_nil_r. eauto.
    - destruct (Hstep pre x s1 HI) as (s2 & -> & HI2).
      { apply Hsub. by left. }
      simpl. destruct (IH (pre ++ [x]) s2 HI2) as (s3 & -> & HI3).
      { intros y Hy. apply Hsub. by right. }
      rewrite <- app_assoc in HI3. eauto. }
  apply (H l [] s); auto.
Qed.

Lemma mineNeighbors_ext (rows cols : Z) (b b' : Board) (r c : Z) :
  (∀ r c, isMineAt b' r c = isMineAt b r c) →
  mineNeighbors rows cols b' r c = mineNeighbors rows cols b r c.
Proof.
  intros H. unfold mineNeighbors. do 2 f_equal.
  apply list_filter_iff. intros [nr nc]. simpl. by rewrite H.
Qed.

Lemma countNeighborMines_spec (rows cols : Z) (b : Board) (r c : Z) :
  hasDims rows cols b →
  countNeighborMines rows cols b r c = Ok (mineNeighbors rows cols b r c).
Proof.
  intros Hd. unfold countNeighborMines, mineNeighbors.
  assert (∀ l acc,
    foldlM (λ cnt '(nr, nc),
              if inBounds nr nc rows cols then
                cell ← cellAt b nr nc;
                Ok (if isMine cell then cnt + 1 else cnt)
              else Ok cnt) acc l =
    Ok (acc + Z.of_nat (length (filter
      (λ k : Z * Z, inBounds k.1 k.2 rows cols && isMineAt b k.1 k.2) l))))
    as H.
  { induction l as [|[nr nc] l IH]; intros acc; simpl.
    - f_equal. lia.
    - rewrite filter_cons. simpl.
      destruct (inBounds nr nc rows cols) eqn:Hb; simpl.
      + apply (hasDims_cellOf _ _ b) in Hb as [x Hx]; [|done].
        assert (isMineAt b nr nc = isMine x) as ->
          by (unfold isMineAt; by rewrite Hx).
        rewrite cellAt_cellOf, Hx. simpl.
        rewrite IH. destruct (isMine x); simpl; [f_equal; lia | done].
      + by rewrite IH. }
  apply H.
Qed.

(** The cell the counts pass leaves at [(r, c)]. *)
Definition counted (rows cols : Z) (b0 : Board) (r c : Z) (x : Cell) : Cell :=
  if isMine x then x else setCount (mineNeighbors rows cols b0 r c) x.

(** Invariant of the counts pass: [done_] holds of the positions already
    processed. *)
Definition countInv (rows cols : Z) (b0 : Board) (done_ : Z → Z → Prop)
    (b : Board) : Prop :=
  shape b = shape b0 ∧
  ∀ r c x, cellOf b0 r c = Some x →
    ∃ x', cellOf b r c = Some x' ∧
          (x' = x ∨ x' = counted rows cols b0 r c x) ∧
          (done_ r c → x' = counted rows cols b0 r c x).

Lemma countInv_weaken (rows cols : Z) (b0 : Board) (D D' : Z → Z → Prop)
    (b : Board) :
  countInv rows cols b0 D b →
  (∀ r c, is_Some (cellOf b0 r c) → D' r c → D r c) →
  countInv rows cols b0 D' b.
Proof.
  intros [Hs Hc] HD. split; [done|]. intros r c x Hx.
  destruct (Hc r c x Hx) as (x' & ? & ? & ?). exists x'. eauto 10.
Qed.

Lemma isMine_counted (rows cols : Z) (b0 : Board) (r c : Z) (x : Cell) :
  isMine (counted rows cols b0 r c x) = isMine x.
Proof. unfold counted. by destruct (isMine x) eqn:?. Qed.

Lemma countInv_isMineAt (rows cols : Z) (b0 : Board) (D : Z → Z → Prop)
    (b : Board) :
  countInv rows cols b0 D b → ∀ r c, isMineAt b r c = isMineAt b0 r c.
Proof.
  intros [Hs Hc] r c. unfold isMineAt.
  destruct (cellOf b0 r c) as [x|] eqn:Hx.
  - destruct (Hc r c x Hx) as (x' & -> & [->| ->] & _); [done|].
    apply isMine_counted.
  - destruct (cellOf b r c) as [x'|] eqn:Hx'; [|done].
    apply cellOf_Some_nat in Hx' as (i & j & row & -> & -> & Hi & Hj).
    assert (length <$> b !! i = length <$> b0 !! i) as Hl.
    { rewrite <- !list_lookup_fmap. unfold shape in Hs. by rewrite Hs. }
    rewrite Hi in Hl. destruct (b0 !! i) as [row0|] eqn:Hi0; [|done].
    injection Hl as Hl.
    destruct (lookup_lt_is_Some_2 row0 j) as [y Hy].
    { rewrite <- Hl. by eapply lookup_lt_Some. }
    rewrite cellOf_nat, Hi0 in Hx. simpl in Hx. congruence.
Qed.

Lemma countStep_spec (rows cols : Z) (b0 : Board) (D : Z → Z → Prop)
    (b : Board) (r c : Z) :
  hasDims rows cols b0 →
  inBounds r c rows cols = true →
  countInv rows cols b0 D b →
  ∃ b', countStep rows cols r b c = Ok b' ∧
        countInv rows cols b0 (λ r' c', D r' c' ∨ (r' = r ∧ c' = c)) b'.
Proof.
  intros Hd Hin Hinv. pose proof Hinv as [Hs Hc].
  apply (hasDims_cellOf _ _ b0) in Hin as [x Hx]; [|done].
  destruct (Hc r c x Hx) as (x' & Hx' & Hor & HD).
  assert (isMine x' = isMine x) as Hm.
  { destruct Hor as [->| ->]; [done | apply isMine_counted]. }
  unfold countStep. rewrite cellAt_cellOf, Hx'. simpl.
  destruct (isMine x') eqn:Hmx'.
  - eexists; split; [done|]. split; [done|].
    intros r1 c1 x1 Hx1. destruct (Hc r1 c1 x1 Hx1) as (x1' & ? & ? & HD1).
    exists x1'. split; [done|]. split; [done|].
    intros [?|[-> ->]]; [auto|].
    assert (x1 = x) as -> by congruence. assert (x1' = x') as -> by congruence.
    unfold counted in *. rewrite <- Hm in *. by destruct Hor.
  - rewrite countNeighborMines_spec by (unfold hasDims; by rewrite Hs).
    simpl. rewrite writeCell_cellOf, Hx'.
    eexists; split; [done|]. split; [by rewrite shape_putCell|].
    rewrite (mineNeighbors_ext _ _ b0 b)
      by (by eapply countInv_isMineAt).
    intros r1 c1 x1 Hx1. rewrite cellOf_putCell by eauto.
    case_decide as Heq.
    + destruct Heq as [-> ->]. assert (x1 = x) as -> by congruence.
      eexists; split; [done|].
      assert (setCount (mineNeighbors rows cols b0 r c) x'
              = counted rows cols b0 r c x) as ->; [|auto].
      unfold counted in *. rewrite <- Hm in *.
      by destruct Hor as [->| ->].
    + destruct (Hc r1 c1 x1 Hx1) as (x1' & ? & ? & HD1).
      exists x1'. split; [done|]. split; [done|].
      intros [?|[-> ->]]; [auto|tauto].
Qed.

(** The counts pass succeeds on a rectangular board and leaves [counted]
    everywhere. *)
Lemma countPass_spec (rows cols : Z) (b0 : Board) :
  hasDims rows cols b0 →
  ∃ b', countPass rows cols b0 = Ok b' ∧
        shape b' = shape b0 ∧
        ∀ r c x, cellOf b0 r c = Some x →
                 cellOf b' r c = Some (counted rows cols b0 r c x).
Proof.
  intros Hd. unfold countPass.
  destruct (foldlM_invariant
    (λ board r, foldlM (countStep rows cols r) board (seqZ 0 cols))
    (λ pre b, countInv rows cols b0 (λ r' _, r' ∈ pre) b)
    (seqZ 0 rows) b0) as (b' & Hrun & Hinv).
  - split; [done|]. intros r c x Hx. exists x. split; [done|].
    split; [auto|]. by intros ?%elem_of_nil.
  - intros pre r b Hinv Hr. apply elem_of_seqZ in Hr.
    destruct (foldlM_invariant (countStep rows cols r)
      (λ cpre b, countInv rows cols b0
                   (λ r' c', r' ∈ pre ∨ (r' = r ∧ c' ∈ cpre)) b)
      (seqZ 0 cols) b) as (b1 & Hrun1 & Hinv1).
    + eapply countInv_weaken; [done|]. intros r' c' _ [?|[_ []%elem_of_nil]].
      done.
    + intros cpre c b1 Hinv1 Hc. apply elem_of_seqZ in Hc.
      destruct (countStep_spec rows cols b0 _ b1 r c Hd
                  ltac:(apply inBounds_true; lia) Hinv1) as (b2 & -> & Hinv2).
      eexists; split; [done|].
      eapply countInv_weaken; [done|]. intros r' c' _.
      rewrite elem_of_app, list_elem_of_singleton. tauto.
    + exists b1. split; [done|].
      eapply countInv_weaken; [done|]. intros r' c' Hsome.
      rewrite elem_of_app, list_elem_of_singleton.
      intros [?| ->]; [auto|]. right. split; [done|].
      apply (hasDims_cellOf rows cols) in Hsome; [|done].
      apply inBounds_true in Hsome. apply elem_of_seqZ. lia.
  - exists b'. split; [done|]. destruct Hinv as [Hs Hc]. split; [done|].
    intros r c x Hx. destruct (Hc r c x Hx) as (x' & -> & _ & HD).
    f_equal. apply HD.
    assert (is_Some (cellOf b0 r c)) as Hsome by eauto.
    apply (hasDims_cellOf rows cols) in Hsome; [|done].
    apply inBounds_true in Hsome. apply elem_of_seqZ. lia.
Qed.

Lemma length_filter_none {A : Type} (P : A → Prop) `{!∀ x, Decision (P x)}
    (l : list A) :
  (∀ x, x ∈ l → ¬ P x) → length (filter P l) = 0%nat.
Proof.
  induction l as [|a l IH]; intros HP; [done|].
  rewrite filter_cons_False by (apply HP; by left).
  apply IH. intros x Hx. apply HP. by right.
Qed.

Lemma countMines_none (b : Board) :
  (∀ r c x, cellOf b r c = Some x → isMine x = false) → countMines b = 0.
Proof.
  intros H. unfold countMines. rewrite length_filter_none; [done|].
  intros x (r & c & Hx)%elem_of_board. rewrite (H r c x Hx). simpl. tauto.
Qed.

(** What [plantMines] does to a rectangular board that bears no mine. *)
Lemma plantMines_spec (rnd : list (Z * Z)) (b b' : Board)
    (rows cols mines safeR safeC : Z) :
  hasDims rows cols b →
  (∀ r c x, cellOf b r c = Some x → isMine x = false) →
  0 ≤ mines →
  plantMines rnd b rows cols mines safeR safeC = Ok b' →
  shape b' = shape b ∧
  countMines b' = mines ∧
  ∀ r c x, cellOf b r c = Some x →
    ∃ x', cellOf b' r c = Some x' ∧
          isRevealed x' = isRevealed x ∧ isFlagged x' = isFlagged x ∧
          (isMine x' = true → (r, c) ∉ forbiddenSet rows cols safeR safeC) ∧
          count x' = if isMine x' then count x
                     else mineNeighbors rows cols b' r c.
Proof.
  intros Hd Hnone Hmines Hrun. unfold plantMines in Hrun.
  apply bind_Ok in Hrun as (b1 & Hloop & Hcount).
  apply plantLoop_spec in Hloop as (Hs1 & Hcnt1 & Hc1); [|done].
  assert (hasDims rows cols b1) as Hd1 by (unfold hasDims; by rewrite Hs1).
  destruct (countPass_spec rows cols b1 Hd1) as (b2 & Hrun2 & Hs2 & Hc2).
  assert (b2 = b') as -> by congruence.
  assert (∀ r c, isMineAt b' r c = isMineAt b1 r c) as Hmine.
  { intros r c. unfold isMineAt.
    destruct (cellOf b1 r c) as [x1|] eqn:Hx1.
    - rewrite (Hc2 r c x1 Hx1). apply isMine_counted.
    - destruct (cellOf b' r c) as [x2|] eqn:Hx2; [|done].
      assert (is_Some (cellOf b1 r c)) as [? ?]; [|congruence].
      apply (hasDims_cellOf rows cols); [done|].
      apply (hasDims_cellOf rows cols b'); [|eauto].
      unfold hasDims. by rewrite Hs2. }
  split; [congruence|]. split.
  - rewrite (countMines_none b Hnone) in Hcnt1.
    assert (countMines b' = countMines b1) as ->; [|lia].
    unfold countMines. f_equal. apply board_count_ext; [done|].
    intros r c x' x Hx' Hx. rewrite (Hc2 r c x Hx) in Hx'.
    injection Hx' as <-. by rewrite isMine_counted.
  - intros r c x Hx. destruct (Hc1 r c x Hx) as (x1 & Hx1 & Hor).
    exists (counted rows cols b1 r c x1). split; [by apply Hc2|].
    rewrite (mineNeighbors_ext rows cols b1 b') by done.
    pose proof (Hnone r c x Hx) as Hm.
    unfold counted.
    destruct Hor as [->|[Hnf ->]]; simpl; rewrite ?Hm; simpl.
    + repeat split; rewrite ?Hm; done.
    + done.
Qed.

(** The draws [rnd] contain [mines] distinct cells outside the forbidden
    set. *)
Definition enoughDraws (rows cols mines safeR safeC : Z)
    (rnd : list (Z * Z)) : Prop :=
  Forall (λ k, inBounds k.1 k.2 rows cols = true) rnd ∧
  ∃ l : list (Z * Z),
    NoDup l ∧ mines ≤ Z.of_nat (length l) ∧
    ∀ k, k ∈ l → k ∈ rnd ∧ k ∉ forbiddenSet rows cols safeR safeC.

Lemma plantMines_total (rnd : list (Z * Z)) (b : Board)
    (rows cols mines safeR safeC : Z) :
  hasDims rows cols b →
  (∀ r c x, cellOf b r c = Some x → isMine x = false) →
  enoughDraws rows cols mines safeR safeC rnd →
  ∃ b', plantMines rnd b rows cols mines safeR safeC = Ok b'.
Proof.
  intros Hd Hnone [Hin (l & Hnd & Hlen & Hl)]. unfold plantMines.
  destruct (plantLoop_total rows cols rnd
              (forbiddenSet rows cols safeR safeC) mines Hin 0 b l)
    as [b1 Hb1]; try done; [lia| |].
  { intros k Hk. destruct (Hl k Hk). repeat split; try done.
    unfold isMineAt. destruct (cellOf b k.1 k.2) eqn:?; eauto. }
  rewrite Hb1. simpl.
  destruct (countPass_spec rows cols b1) as (b2 & -> & _); [|eauto].
  destruct (decide (0 ≤ mines)).
  - apply plantLoop_spec in Hb1 as [Hs _]; [|done].
    unfold hasDims. by rewrite Hs.
  - destruct rnd as [|[??] ?]; simpl in Hb1; rewrite decide_False in Hb1 by lia;
      by injection Hb1 as <-.
Qed.

(** ** C1 *)

(** C1 (mine planting postcondition).  On the all-empty board of a
    difficulty with [0 ≤ mines], whenever [plantMines] returns for a first
    click at [(safeR, safeC)]: the board keeps its dimensions; (1) the
    clicked cell and each of its in-bounds neighbours is not a mine;
    (2) exactly [mines] cells are mines; (3) every non-mine cell's [count]
    is the number of its in-bounds mine-bearing neighbours, and a mine
    cell's [count] is still 0.  Moreover [plantMines] does return as soon as
    the random draws contain [mines] distinct cells outside the forbidden
    set. *)
Theorem plantMines_postcondition (rows cols mines safeR safeC : Z) :
  0 ≤ mines →
  (∀ rnd b',
     plantMines rnd (makeEmptyBoard rows cols) rows cols mines safeR safeC
       = Ok b' →
     hasDims rows cols b' ∧
     (∀ r c x, (r, c) = (safeR, safeC) ∨ (r, c) ∈ neighbors safeR safeC →
               cellOf b' r c = Some x → isMine x = false) ∧
     countMines b' = mines ∧
     (∀ r c x, cellOf b' r c = Some x →
               count x = if isMine x then 0
                         else mineNeighbors rows cols b' r c)) ∧
  (∀ rnd, enoughDraws rows cols mines safeR safeC rnd →
     ∃ b', plantMines rnd (makeEmptyBoard rows cols) rows cols mines
             safeR safeC = Ok b').
Proof.
  intros Hmines. split.
  - intros rnd b' Hrun.
    pose proof (hasDims_makeEmptyBoard rows cols) as Hd.
    apply plantMines_spec in Hrun as (Hs & Hcnt & Hcells); try done.
    2:{ by intros r c x ->%cellOf_makeEmptyBoard. }
    assert (hasDims rows cols b') as Hd' by (unfold hasDims; by rewrite Hs).
    assert (∀ r c x', cellOf b' r c = Some x' →
              ∃ x, cellOf (makeEmptyBoard rows cols) r c = Some x) as Hback.
    { intros r c x' Hx'. apply (hasDims_cellOf rows cols); [done|].
      apply (hasDims_cellOf rows cols b'); eauto. }
    split; [done|]. split; [|split; [done|]].
    + intros r c x' Hor Hx'. destruct (Hback r c x' Hx') as [x Hx].
      destruct (Hcells r c x Hx) as (x'' & Hx'' & _ & _ & Hforb & _).
      assert (x'' = x') as -> by congruence.
      destruct (isMine x') eqn:Hm; [|done]. exfalso. apply Hforb; [done|].
      apply elem_of_forbiddenSet. destruct Hor as [?|?]; [by left|right].
      split; [done|]. simpl. apply (hasDims_cellOf rows cols b'); eauto.
    + intros r c x' Hx'. destruct (Hback r c x' Hx') as [x Hx].
      destruct (Hcells r c x Hx) as (x'' & Hx'' & _ & _ & _ & Hcount).
      assert (x'' = x') as -> by congruence.
      apply cellOf_makeEmptyBoard in Hx as ->. done.
  - intros rnd Henough. apply plantMines_total; try done.
    + apply hasDims_makeEmptyBoard.
    + by intros r c x ->%cellOf_makeEmptyBoard.
Qed.

Definition draws_example : list (Z * Z) :=
  [(0,0); (4,4); (0,1); (0,0); (0,2); (3,3); (0,3); (0,4); (8,8); (0,5);
   (0,6); (0,7); (0,8)].

Lemma plantMines_postcondition_witness :
  0 ≤ 10 ∧
  ∃ b', plantMines draws_example (makeEmptyBoard 9 9) 9 9 10 4 4 = Ok b' ∧
        countMines b' = 10.
Proof.
  split; [lia|].
  destruct (plantMines_postcondition 9 9 10 4 4 ltac:(lia)) as [Hpost Hret].
  destruct (Hret draws_example) as [b' Hb'].
  - split; [repeat constructor|].
    exists [(0,0); (0,1); (0,2); (0,3); (0,4); (8,8); (0,5); (0,6); (0,7); (0,8)].
    split; [apply (bool_decide_unpack _); vm_compute; exact I|].
    split; [simpl; lia|].
    apply Forall_forall. apply (bool_decide_unpack _). vm_compute. exact I.
  - exists b'. split; [exact Hb'|]. apply Hpost in Hb'. tauto.
Defined.

(** * Cascading reveal *)

Lemma inBounds_card (rows cols : Z) (l : list (Z * Z)) :
  NoDup l →
  (∀ k, k ∈ l → inBounds k.1 k.2 rows cols = true) →
  (length l ≤ Z.to_nat (rows * cols))%nat.
Proof.
  intros Hnd Hin. destruct l as [|k0 l0] eqn:Hl; [simpl; lia|]. rewrite <- Hl in *.
  assert (0 < rows ∧ 0 < cols) as [Hr Hc].
  { specialize (Hin k0). rewrite inBounds_true in Hin.
    destruct Hin; [rewrite Hl; by left | lia]. }
  transitivity (length (cprod (seqZ 0 rows) (seqZ 0 cols))).
  - apply submseteq_length, NoDup_submseteq; [done|].
    intros k Hk. apply list_elem_of_cprod. rewrite !elem_of_seqZ.
    apply Hin, inBounds_true in Hk. lia.
  - rewrite list_cprod_list_prod, length_prod, !length_seqZ.
    rewrite Z2Nat.inj_mul by lia. done.
Qed.

(** [floodVisit] on a board value, with the property accesses spelled out. *)
Lemma floodVisit_unfold (rows cols : Z) (q : list (Z * Z)) (seen : KeySet)
    (b : Board) (nr nc : Z) :
  floodVisit rows cols (q, seen, b) (nr, nc) =
    if negb (inBounds nr nc rows cols) then Ok (q, seen, b)
    else match index b nr with
         | None => TypeError
         | Some row =>
             if has (nr, nc) seen then Ok (q, seen, b)
             else match index row nc with
                  | None => TypeError
                  | Some x =>
                      if isRevealed x || isFlagged x || isMine x
                      then Ok (q, seen, b)
                      else Ok (if decide (count x = 0) then q ++ [(nr, nc)]
                               else q,
                               add (nr, nc) seen,
                               putCell b nr nc (setRevealed true x))
                  end
         end.
Proof.
  unfold floodVisit. destruct (negb (inBounds nr nc rows cols)); [done|].
  simpl. unfold Board_readCell.
  destruct (index b nr) as [row|] eqn:Hrow; simpl; [|done].
  destruct (has (nr, nc) seen); [done|].
  destruct (index row nc) as [x|] eqn:Hx; simpl; [|done].
  destruct (isRevealed x); [done|]. destruct (isFlagged x); [done|].
  destruct (isMine x); [done|]. simpl.
  unfold Board_writeCell. rewrite Hrow. simpl. rewrite Hx. simpl.
  unfold putCell. by rewrite Hrow.
Qed.

(** The two ways a visit can end normally: nothing changes, or the
    neighbour is marked seen, revealed, and queued when its count is 0. *)
Lemma floodVisit_Ok (rows cols : Z) (q : list (Z * Z)) (seen : KeySet)
    (b : Board) (n : Z * Z) (st' : list (Z * Z) * KeySet * Board) :
  floodVisit rows cols (q, seen, b) n = Ok st' →
  (st' = (q, seen, b) ∧
   (inBounds n.1 n.2 rows cols = false ∨ n ∈ seen ∨
    ∃ x, cellOf b n.1 n.2 = Some x ∧
         (isRevealed x || isFlagged x || isMine x) = true)) ∨
  (inBounds n.1 n.2 rows cols = true ∧ (n ∉ seen) ∧
   ∃ x, cellOf b n.1 n.2 = Some x ∧
        isRevealed x = false ∧ isFlagged x = false ∧ isMine x = false ∧
        st' = (if decide (count x = 0) then q ++ [n] else q,
               seen ++ [n],
               putCell b n.1 n.2 (setRevealed true x))).
Proof.
  destruct n as [nr nc]. rewrite floodVisit_unfold. simpl.
  destruct (inBounds nr nc rows cols) eqn:Hin; simpl.
  2:{ intros [= <-]. left. auto. }
  destruct (index b nr) as [row|] eqn:Hrow; [|done].
  destruct (has (nr, nc) seen) eqn:Hseen.
  { intros [= <-]. left. apply has_true in Hseen. auto. }
  destruct (index row nc) as [x|] eqn:Hx; [|done].
  assert (cellOf b nr nc = Some x) as Hcell by (unfold cellOf; by rewrite Hrow).
  destruct (isRevealed x || isFlagged x || isMine x) eqn:Hel.
  { intros [= <-]. left. eauto 10. }
  intros [= <-]. right. apply has_false in Hseen.
  apply orb_false_iff in Hel as [[??]%orb_false_iff ?].
  split; [done|]. split; [done|]. exists x.
  unfold add, has. rewrite bool_decide_eq_false_2 by done. done.
Qed.

Lemma floodVisit_dims (rows cols : Z) (q : list (Z * Z)) (seen : KeySet)
    (b : Board) (n : Z * Z) :
  hasDims rows cols b →
  ∃ st', floodVisit rows cols (q, seen, b) n = Ok st'.
Proof.
  intros Hd. destruct n as [nr nc]. rewrite floodVisit_unfold.
  destruct (inBounds nr nc rows cols) eqn:Hin; simpl; [|eauto].
  apply (hasDims_cellOf _ _ b) in Hin as [x Hx]; [|done].
  unfold cellOf in Hx. destruct (index b nr) as [row|]; [|done].
  rewrite Hx. repeat case_match; eauto.
Qed.

Lemma floodVisit_fuel (rows cols : Z) (st : list (Z * Z) * KeySet * Board)
    (n : Z * Z) :
  floodVisit rows cols st n ≠ OutOfFuel.
Proof.
  destruct st as [[q seen] b], n as [nr nc]. rewrite floodVisit_unfold.
  repeat case_match; done.
Qed.

(** The in-bounds part of the seen set, by which the loop is measured. *)
Definition seenIn (rows cols : Z) (seen : KeySet) : KeySet :=
  filter (λ k, inBounds k.1 k.2 rows cols = true) seen.

Lemma floodVisits_measure (rows cols : Z) (l : list (Z * Z)) :
  ∀ q seen b q' seen' b',
  foldlM (floodVisit rows cols) (q, seen, b) l = Ok (q', seen', b') →
  NoDup seen →
  NoDup seen' ∧
  (length q' + length (seenIn rows cols seen) ≤
   length q + length (seenIn rows cols seen'))%nat.
Proof.
  induction l as [|n l IH]; intros q seen b q' seen' b' Hrun Hnd; simpl in Hrun.
  - by injection Hrun as <- <- <-.
  - apply bind_Ok in Hrun as ([[q1 seen1] b1] & Hv & Hrun).
    apply floodVisit_Ok in Hv
      as [[[= -> -> ->] _]|(Hin & Hns & x & _ & _ & _ & _ & [= -> -> ->])].
    + by eapply IH.
    + apply IH in Hrun as [? Hle].
      2:{ apply NoDup_app. split; [done|]. split; [|apply NoDup_singleton].
          intros k Hk ->%list_elem_of_singleton. done. }
      split; [done|]. unfold seenIn in *.
      rewrite filter_app, filter_cons_True, length_app in Hle by done.
      simpl in Hle. case_decide; rewrite ?length_app in Hle; simpl in Hle; lia.
Qed.

Lemma floodVisits_fuel (rows cols : Z) (l : list (Z * Z)) :
  ∀ st, foldlM (floodVisit rows cols) st l ≠ OutOfFuel.
Proof.
  induction l as [|n l IH]; intros st; simpl; [done|].
  pose proof (floodVisit_fuel rows cols st n).
  destruct (floodVisit rows cols st n) as [st'| |]; simpl; [apply IH|done..].
Qed.

(** One iteration of the [while] loop on a board value. *)
Lemma floodLoop_unfold (fuel : nat) (rows cols r c : Z) (q : list (Z * Z))
    (seen : KeySet) (b : Board) :
  floodLoop (S fuel) rows cols ((r, c) :: q) seen b =
    match cellOf b r c with
    | None => TypeError
    | Some x =>
        if decide (count x = 0) then
          st ← foldlM (floodVisit rows cols)
                      (q, seen, putCell b r c (setRevealed true x))
                      (neighbors r c);
          floodLoop fuel rows cols st.1.1 st.1.2 st.2
        else floodLoop fuel rows cols q seen
                       (putCell b r c (setRevealed true x))
    end.
Proof.
  cbn [floodLoop]. rewrite writeCell_cellOf.
  destruct (cellOf b r c) as [x|] eqn:Hx; [|done].
  cbn [mbind outcome_bind].
  rewrite cellAt_cellOf, cellOf_putCell_same by eauto.
  cbn [mbind outcome_bind setRevealed count]. case_decide; [|done].
  destruct (foldlM _ _ _) as [[[q2 seen2] b2]| |]; done.
Qed.

(** The iteration bound is never reached: an iteration dequeues one cell,
    and every cell is queued at most once because it is first marked
    seen. *)
Lemma floodLoop_fuel (rows cols : Z) (fuel : nat) :
  ∀ (q : list (Z * Z)) (seen : KeySet) (b : Board),
  NoDup seen →
  (Z.to_nat (rows * cols) + length q ≤
   fuel + length (seenIn rows cols seen))%nat →
  floodLoop fuel rows cols q seen b ≠ OutOfFuel.
Proof.
  induction fuel as [|fuel IH]; intros q seen b Hnd Hle;
    destruct q as [|[r c] q]; try done.
  - exfalso.
    pose proof (inBounds_card rows cols (seenIn rows cols seen)) as Hcard.
    simpl in Hle.
    assert (length (seenIn rows cols seen) ≤ Z.to_nat (rows * cols))%nat; [|lia].
    apply Hcard; [by apply NoDup_filter|].
    by intros k [? _]%list_elem_of_filter.
  - rewrite floodLoop_unfold. simpl in Hle.
    destruct (cellOf b r c) as [x|] eqn:Hx; [|done].
    case_decide.
    + pose proof (floodVisits_fuel rows cols (neighbors r c)
                    (q, seen, putCell b r c (setRevealed true x))) as Hf.
      destruct (foldlM _ _ _) as [[[q2 seen2] b2]| |] eqn:Hrun; [|done..].
      cbn [mbind outcome_bind fst snd].
      apply floodVisits_measure in Hrun as [? ?]; [|done].
      apply IH; [done|]. lia.
    + apply IH; [done|]. lia.
Qed.

Theorem floodReveal_fuel (b : Board) (startR startC : Z) :
  floodReveal b startR startC ≠ OutOfFuel.
Proof.
  unfold floodReveal. cbn [firstRowLength boardLength Board_ops].
  destruct (index b 0) as [row|] eqn:Hrow; [|done].
  cbn [deref mbind outcome_bind].
  apply floodLoop_fuel; [apply NoDup_singleton|]. simpl. lia.
Qed.

(** A cell may be revealed by the cascade when it is neither flagged nor a
    mine and, in the [strict] reading, not already revealed.  The strict
    reading is the test made by [floodVisit]; the other one is the reading
    of the specification, in which only flags and mines stop the cascade. *)
Definition eligible (strict : bool) (x : Cell) : Prop :=
  isFlagged x = false ∧ isMine x = false ∧
  (strict = true → isRevealed x = false).

(** The cells reached from [start] by stepping from a reached cell of count
    0 to a neighbouring eligible cell: the reached cells of count 0 form the
    connected zero region, the others its numbered border. *)
Inductive cascade (strict : bool) (b : Board) (start : Z * Z)
  : Z * Z → Prop :=
  | cascade_start : cascade strict b start start
  | cascade_step k k' x x' :
      cascade strict b start k →
      cellOf b k.1 k.2 = Some x → count x = 0 →
      k' ∈ neighbors k.1 k.2 →
      cellOf b k'.1 k'.2 = Some x' → eligible strict x' →
      cascade strict b start k'.

Lemma cascade_exists (strict : bool) (b : Board) (start k : Z * Z) :
  is_Some (cellOf b start.1 start.2) → cascade strict b start k →
  is_Some (cellOf b k.1 k.2).
Proof. intros Hs. induction 1; eauto. Qed.

Lemma cascade_eligible (strict : bool) (b : Board) (start k : Z * Z) :
  cascade strict b start k →
  k = start ∨ ∃ x, cellOf b k.1 k.2 = Some x ∧ eligible strict x.
Proof. induction 1; eauto. Qed.

Lemma cellOf_putCell_key (b : Board) (k k' : Z * Z) (y : Cell) :
  is_Some (cellOf b k.1 k.2) →
  cellOf (putCell b k.1 k.2 y) k'.1 k'.2 =
    if decide (k' = k) then Some y else cellOf b k'.1 k'.2.
Proof.
  intros H. rewrite cellOf_putCell by done. destruct k as [r c], k' as [r' c'].
  simpl. destruct (decide (r' = r ∧ c' = c)) as [[-> ->]|Hne].
  - by rewrite decide_True.
  - rewrite decide_False; [done|]. intros [= -> ->]. tauto.
Qed.

Section FloodInvariant.
Variables (rows cols : Z) (b0 : Board) (start : Z * Z).
Hypothesis Hdims : hasDims rows cols b0.
Hypothesis Hstart : is_Some (cellOf b0 start.1 start.2).

(** The edge [(k, k')] of the cascade has been taken care of. *)
Definition edgeDone (seen : KeySet) (k k' : Z * Z) : Prop :=
  ∀ x x', cellOf b0 k.1 k.2 = Some x → count x = 0 →
          cellOf b0 k'.1 k'.2 = Some x' → eligible true x' → k' ∈ seen.

(** Loop invariant of [floodReveal]; [pending] are the edges out of the
    cell being expanded that the inner loop still has to visit. *)
Record floodInv (pending : list ((Z * Z) * (Z * Z))) (q : list (Z * Z))
    (seen : KeySet) (b : Board) : Prop := {
  inv_shape : shape b = shape b0;
  inv_cells : ∀ k x, cellOf b0 k.1 k.2 = Some x →
    cellOf b k.1 k.2 = Some x ∨
    (k ∈ seen ∧ cellOf b k.1 k.2 = Some (setRevealed true x));
  inv_sound : ∀ k, k ∈ seen → cascade true b0 start k;
  inv_start : start ∈ seen;
  inv_queue : ∀ k, k ∈ q → k ∈ seen;
  inv_done : ∀ k, k ∈ seen → k ∉ q →
    (∀ x, cellOf b0 k.1 k.2 = Some x →
          cellOf b k.1 k.2 = Some (setRevealed true x)) ∧
    (∀ k', k' ∈ neighbors k.1 k.2 → (k, k') ∉ pending →
           edgeDone seen k k');
}.

Lemma floodInv_init : floodInv [] [start] [start] b0.
Proof.
  split.
  - done.
  - auto.
  - intros k ->%list_elem_of_singleton. constructor.
  - by apply list_elem_of_singleton.
  - done.
  - intros k ->%list_elem_of_singleton Hn. exfalso. apply Hn. by left.
Qed.

Lemma floodInv_hasDims pending q seen b :
  floodInv pending q seen b → hasDims rows cols b.
Proof. intros [Hs _ _ _ _ _]. unfold hasDims. by rewrite Hs. Qed.

Lemma floodInv_cellOf pending q seen b k x :
  floodInv pending q seen b → cellOf b0 k.1 k.2 = Some x →
  ∃ y, cellOf b k.1 k.2 = Some y ∧ setRevealed true y = setRevealed true x ∧
       (k ∉ seen → y = x).
Proof.
  intros Hinv Hx. destruct (inv_cells _ _ _ _ Hinv k x Hx) as [?|[? ?]].
  - exists x. eauto.
  - exists (setRevealed true x). split; [done|]. split; [done|]. tauto.
Qed.

(** Dequeuing [k] and revealing it; its out-edges become pending when its
    count is 0. *)
Lemma floodInv_dequeue q seen b k x :
  floodInv [] (k :: q) seen b →
  cellOf b0 k.1 k.2 = Some x →
  floodInv (if decide (count x = 0) then (k,.) <$> neighbors k.1 k.2 else [])
           q seen (putCell b k.1 k.2 (setRevealed true x)).
Proof.
  intros Hinv Hx.
  destruct (floodInv_cellOf _ _ _ _ k x Hinv Hx) as (y & Hy & _ & _).
  assert (k ∈ seen) as Hk by (apply (inv_queue _ _ _ _ Hinv); by left).
  split.
  - rewrite shape_putCell. apply Hinv.
  - intros k1 x1 Hx1. rewrite cellOf_putCell_key by eauto.
    case_decide as Heq; [|by apply Hinv].
    subst k1. right. split; [done|]. congruence.
  - apply Hinv.
  - apply Hinv.
  - intros k1 Hk1. apply (inv_queue _ _ _ _ Hinv). by right.
  - intros k1 Hk1 Hnq. rewrite cellOf_putCell_key by eauto.
    destruct (decide (k1 = k)) as [->|Hne].
    + split; [intros; congruence|].
      intros k' Hk' Hnp x1 x' Hx1 Hz. exfalso.
      assert (x1 = x) as -> by congruence.
      rewrite decide_True in Hnp by done.
      apply Hnp. by apply list_elem_of_fmap_2.
    + destruct (inv_done _ _ _ _ Hinv k1 Hk1) as [Hrev Hedge].
      { rewrite not_elem_of_cons. done. }
      split; [done|]. intros k' Hk' _. apply Hedge; [done|].
      apply not_elem_of_nil.
Qed.

(** One visit of the inner loop discharges the edge it looks at. *)
Lemma floodInv_visit pending q seen b k n x st' :
  floodInv ((k, n) :: pending) q seen b →
  k ∈ seen → n ∈ neighbors k.1 k.2 →
  cellOf b0 k.1 k.2 = Some x → count x = 0 →
  floodVisit rows cols (q, seen, b) n = Ok st' →
  floodInv pending st'.1.1 st'.1.2 st'.2 ∧ k ∈ st'.1.2.
Proof.
  intros Hinv Hk Hn Hx Hz Hv.
  assert (∀ seen', (∀ k1, k1 ∈ seen → k1 ∈ seen') →
            edgeDone seen' k n →
            ∀ k1, k1 ∈ seen → k1 ∉ q →
            ∀ k', k' ∈ neighbors k1.1 k1.2 → (k1, k') ∉ pending →
                  edgeDone seen' k1 k') as Hedges.
  { intros seen' Hsub Hkn k1 Hk1 Hnq k' Hk' Hnp.
    destruct (decide ((k1, k') = (k, n))) as [[= -> ->]|Hne]; [done|].
    destruct (inv_done _ _ _ _ Hinv k1 Hk1 Hnq) as [_ Hedge].
    intros x1 x' ? ? ? ?. apply Hsub.
    eapply Hedge; try done. rewrite not_elem_of_cons. done. }
  apply floodVisit_Ok in Hv as [[-> Hwhy]|
    (Hin & Hns & y & Hy & Hyr & Hyf & Hym & ->)]; simpl.
  - split; [|done]. split; try apply Hinv.
    intros k1 Hk1 Hnq. split; [by apply (inv_done _ _ _ _ Hinv)|].
    apply Hedges; try done. intros x1 x' _ _ Hx' Hel.
    destruct Hwhy as [Hout|[?|(y & Hy & Hbad)]]; [|done|].
    + apply inBounds_false in Hout. exfalso. apply Hout.
      apply inBounds_true, (hasDims_cellOf rows cols b0); eauto.
    + destruct (inv_cells _ _ _ _ Hinv n x' Hx') as [Hsame|[? _]]; [|done].
      assert (y = x') as -> by congruence.
      destruct Hel as (Hf & Hm & Hr). rewrite Hf, Hm, Hr in Hbad; done.
  - assert (cellOf b0 n.1 n.2 = Some y) as Hy0.
    { assert (is_Some (cellOf b0 n.1 n.2)) as [y0 Hy0].
      { apply (hasDims_cellOf rows cols); done. }
      destruct (floodInv_cellOf _ _ _ _ n y0 Hinv Hy0) as (y' & ? & _ & Hsame).
      rewrite Hy0. f_equal. rewrite <- Hsame by done. congruence. }
    split; [|apply elem_of_app; by left]. split.
    + rewrite shape_putCell. apply Hinv.
    + intros k1 x1 Hx1. rewrite cellOf_putCell_key by eauto.
      rewrite elem_of_app, list_elem_of_singleton.
      case_decide as Heq.
      * subst k1. right. split; [by right|]. congruence.
      * destruct (inv_cells _ _ _ _ Hinv k1 x1 Hx1) as [?|[? ?]]; auto.
    + intros k1 [Hk1| ->%list_elem_of_singleton]%elem_of_app.
      * by apply Hinv.
      * apply (cascade_step true b0 start k n x y); try done.
        by apply Hinv.
    + apply elem_of_app. left. apply Hinv.
    + intros k1 Hk1. rewrite elem_of_app.
      case_decide.
      * apply elem_of_app in Hk1 as [?|?]; [|by right].
        left. by apply (inv_queue _ _ _ _ Hinv).
      * left. by apply (inv_queue _ _ _ _ Hinv).
    + intros k1 Hk1 Hnq. rewrite cellOf_putCell_key by eauto.
      assert (k1 ∉ q) as Hnq'.
      { intros ?. apply Hnq. case_decide; [apply elem_of_app|]; auto. }
      apply elem_of_app in Hk1 as [Hk1| ->%list_elem_of_singleton].
      * rewrite decide_False by (intros ->; done). split.
        { by apply (inv_done _ _ _ _ Hinv). }
        apply Hedges; try done.
        { intros k2 ?. apply elem_of_app. by left. }
        intros ? ? _ _ _ _. apply elem_of_app. right. by left.
      * rewrite decide_True by done. split; [intros; congruence|].
        intros k' _ _ x1 x' Hx1 Hz1. exfalso.
        assert (x1 = y) as -> by congruence.
        apply Hnq. rewrite decide_True by done.
        apply elem_of_app. right. by left.
Qed.
End FloodInvariant.

Section FloodCorrect.
Variables (rows cols : Z) (b0 : Board) (start : Z * Z).
Hypothesis Hdims : hasDims rows cols b0.
Hypothesis Hstart : is_Some (cellOf b0 start.1 start.2).

Lemma floodVisits_inv (k : Z * Z) (x : Cell) :
  cellOf b0 k.1 k.2 = Some x → count x = 0 →
  ∀ (l : list (Z * Z)) q seen b,
  floodInv b0 start ((k,.) <$> l) q seen b →
  k ∈ seen → (∀ n, n ∈ l → n ∈ neighbors k.1 k.2) →
  ∃ st', foldlM (floodVisit rows cols) (q, seen, b) l = Ok st' ∧
         floodInv b0 start [] st'.1.1 st'.1.2 st'.2.
Proof.
  intros Hx Hz. induction l as [|n l IH]; intros q seen b Hinv Hk Hl.
  - simpl. eauto.
  - cbn [foldlM].
    destruct (floodVisit_dims rows cols q seen b n) as [st1 Hv].
    { by eapply floodInv_hasDims. }
    rewrite Hv. cbn [mbind outcome_bind].
    destruct (floodInv_visit rows cols b0 start Hdims ((k,.) <$> l)
                q seen b k n x st1) as [Hinv1 Hk1]; try done.
    { apply Hl. by left. }
    destruct st1 as [[q1 seen1] b1]. apply IH; try done.
    intros n' ?. apply Hl. by right.
Qed.

(** What the finished loop has done to the board. *)
Definition floodFinal (b' : Board) : Prop :=
  shape b' = shape b0 ∧
  ∀ k x, cellOf b0 k.1 k.2 = Some x →
    (cascade true b0 start k →
       cellOf b' k.1 k.2 = Some (setRevealed true x)) ∧
    (¬ cascade true b0 start k → cellOf b' k.1 k.2 = Some x) ∧
    (cellOf b' k.1 k.2 = Some x ∨
     (cascade true b0 start k ∧
      cellOf b' k.1 k.2 = Some (setRevealed true x))).

Lemma floodInv_final (seen : KeySet) (b : Board) :
  floodInv b0 start [] [] seen b → floodFinal b.
Proof.
  intros Hinv. split; [apply Hinv|].
  assert (∀ k, cascade true b0 start k → k ∈ seen) as Hcomplete.
  { induction 1 as [|k k' x x' _ IH Hx Hz Hk' Hx' Hel]; [apply Hinv|].
    destruct (inv_done _ _ _ _ _ _ Hinv k IH) as [_ Hedge].
    { apply not_elem_of_nil. }
    eapply Hedge; try done. apply not_elem_of_nil. }
  intros k x Hx. split; [|split].
  - intros Hk%Hcomplete.
    destruct (inv_done _ _ _ _ _ _ Hinv k Hk) as [Hrev _]; auto.
    apply not_elem_of_nil.
  - intros Hnk.
    destruct (inv_cells _ _ _ _ _ _ Hinv k x Hx) as [?|[Hk _]]; [done|].
    exfalso. apply Hnk. by apply Hinv.
  - destruct (inv_cells _ _ _ _ _ _ Hinv k x Hx) as [?|[Hk ?]]; [by left|].
    right. split; [by apply Hinv | done].
Qed.

Lemma floodLoop_spec (fuel : nat) :
  ∀ q seen b,
  floodInv b0 start [] q seen b →
  floodLoop fuel rows cols q seen b ≠ OutOfFuel →
  ∃ b', floodLoop fuel rows cols q seen b = Ok b' ∧ floodFinal b'.
Proof.
  induction fuel as [|fuel IH]; intros q seen b Hinv Hfuel;
    destruct q as [|[r c] q]; try done.
  - exists b. split; [done|]. by eapply floodInv_final.
  - exists b. split; [done|]. by eapply floodInv_final.
  - rewrite floodLoop_unfold in *.
    assert ((r, c) ∈ seen) as Hk by (apply Hinv; by left).
    destruct (cascade_exists true b0 start (r, c)) as [x Hx];
      [done | by apply Hinv |].
    destruct (floodInv_cellOf b0 start _ _ _ _ (r, c) x Hinv Hx)
      as (y & Hy & Hyx & _).
    simpl in Hy. rewrite Hy in *. rewrite Hyx in *.
    assert (count y = count x) as Hc.
    { apply (f_equal count) in Hyx. done. }
    rewrite Hc in *.
    pose proof (floodInv_dequeue b0 start q seen b (r, c) x Hinv Hx) as Hinv1.
    rewrite <- Hyx in Hinv1.
    assert (putCell b r c (setRevealed true y)
            = putCell b r c (setRevealed true x)) as Hput by congruence.
    case_decide as Hz.
    + destruct (floodVisits_inv (r, c) x Hx Hz (neighbors r c) q seen
                  (putCell b r c (setRevealed true x)))
        as ([[q2 seen2] b2] & Hrun & Hinv2); try done.
      { by rewrite <- Hput. }
      rewrite Hrun in *. cbn [mbind outcome_bind fst snd] in *.
      by apply IH.
    + apply IH; [|done]. by rewrite <- Hput.
Qed.
End FloodCorrect.

(** [floodReveal] on a rectangular board, from an in-bounds start: it
    returns, keeps the shape, sets [isRevealed] on exactly the cells of the
    (strict) cascade and leaves every other cell as it was. *)
Lemma floodReveal_spec (rows cols : Z) (b : Board) (r c : Z) :
  hasDims rows cols b →
  inBounds r c rows cols = true →
  ∃ b', floodReveal b r c = Ok b' ∧ floodFinal b (r, c) b'.
Proof.
  intros Hd Hin.
  assert (is_Some (cellOf b r c)) as Hstart
    by (by apply (hasDims_cellOf rows cols)).
  pose proof (floodReveal_fuel b r c) as Hfuel.
  unfold floodReveal in *. cbn [firstRowLength boardLength Board_ops] in *.
  apply inBounds_true in Hin.
  assert (Z.of_nat (length b) = rows) as Hrows.
  { apply (f_equal length) in Hd. unfold shape in Hd.
    rewrite length_fmap, length_replicate in Hd. lia. }
  assert (∃ row, index b 0 = Some row ∧ Z.of_nat (length row) = cols)
    as (row & Hrow & Hcols).
  { destruct (index_is_Some b 0) as [row Hrow]; [lia|]. exists row.
    split; [done|]. apply index_Some in Hrow as [_ Hrow].
    apply (f_equal (.!! Z.to_nat 0)) in Hd. unfold shape in Hd.
    rewrite list_lookup_fmap, Hrow, lookup_replicate_2 in Hd by lia.
    injection Hd as Hd. lia. }
  rewrite Hrow in *. cbn [deref mbind outcome_bind] in *.
  rewrite Hrows, Hcols in *.
  apply (floodLoop_spec rows cols b (r, c)); try done.
  by apply floodInv_init.
Qed.

(** ** C2 *)

(** C2, as amended (cascade correctness).  On a rectangular grid, from a
    start cell with count 0 that is neither a mine, flagged nor revealed,
    [floodReveal] returns a grid of the same shape in which [isRevealed] has
    been set on exactly the cells of the connected region of zero-count
    cells around the start together with its border of nonzero-count cells,
    where membership and propagation are blocked by mines, by flagged cells
    and also by cells that were already revealed; every other cell is left
    as it was, and no cell of the region is a mine or flagged. *)
Theorem floodReveal_cascade (rows cols : Z) (b : Board) (r c : Z) (x : Cell) :
  hasDims rows cols b →
  cellOf b r c = Some x →
  count x = 0 → isMine x = false → isFlagged x = false →
  isRevealed x = false →
  ∃ b', floodReveal b r c = Ok b' ∧
        shape b' = shape b ∧
        (∀ k y, cellOf b k.1 k.2 = Some y →
           (cascade true b (r, c) k →
              cellOf b' k.1 k.2 = Some (setRevealed true y)) ∧
           (¬ cascade true b (r, c) k → cellOf b' k.1 k.2 = Some y)) ∧
        (∀ k y, cascade true b (r, c) k → cellOf b k.1 k.2 = Some y →
           isMine y = false ∧ isFlagged y = false ∧ isRevealed y = false).
Proof.
  intros Hd Hx Hz Hm Hf Hr.
  destruct (floodReveal_spec rows cols b r c Hd) as (b' & Hrun & Hs & Hcells).
  { apply (hasDims_cellOf rows cols b); eauto. }
  exists b'. split; [done|]. split; [done|]. split.
  - intros k y Hy. split; by apply Hcells.
  - intros k y Hk Hy.
    apply cascade_eligible in Hk as [->|(y' & Hy' & Hf' & Hm' & Hr')];
      simpl in *.
    + by assert (y = x) as -> by congruence.
    + assert (y' = y) as -> by congruence. auto.
Qed.

Definition cascade_example : Board :=
  [ [mkCell false false false 0; mkCell false false false 0;
     mkCell false false false 1];
    [mkCell false false false 0; mkCell false false true 0;
     mkCell true false false 0] ].

Lemma floodReveal_cascade_witness :
  ∃ b', floodReveal cascade_example 0 0 = Ok b' ∧
        shape b' = shape cascade_example.
Proof.
  destruct (floodReveal_cascade 2 3 cascade_example 0 0
              (mkCell false false false 0))
    as (b' & Hrun & Hs & _); try reflexivity.
  exists b'. split; [exact Hrun | exact Hs].
Defined.

(** A row of three zero-count cells whose middle cell is already revealed. *)
Definition revealed_gap : Board :=
  [ [mkCell false false false 0; mkCell false true false 0;
     mkCell false false false 0] ].

(** C2 as stated fails: with only flagged cells (and mines) blocking, the
    cell [(0, 2)] belongs to the zero region of [(0, 0)] in [revealed_gap],
    yet [floodReveal] from [(0, 0)] leaves it unrevealed. *)
Lemma floodReveal_revealed_gap :
  cellOf revealed_gap 0 0 = Some (mkCell false false false 0) ∧
  cascade false revealed_gap (0, 0) (0, 2) ∧
  floodReveal revealed_gap 0 0 =
    Ok [ [mkCell false true false 0; mkCell false true false 0;
          mkCell false false false 0] ].
Proof.
  split; [reflexivity|]. split; [|reflexivity].
  apply (cascade_step false revealed_gap (0, 0) (0, 1) (0, 2)
           (mkCell false true false 0) (mkCell false false false 0));
    try reflexivity.
  - apply (cascade_step false revealed_gap (0, 0) (0, 0) (0, 1)
             (mkCell false false false 0) (mkCell false true false 0));
      try reflexivity.
    + constructor.
    + apply (bool_decide_unpack _). reflexivity.
    + repeat split; discriminate.
  - apply (bool_decide_unpack _). reflexivity.
  - repeat split; discriminate.
Qed.

(** * The session *)

Lemma cloneBoard_id (b : Board) : cloneBoard b = b.
Proof.
  unfold cloneBoard. rewrite <- (list_fmap_id b) at 2.
  apply list_fmap_ext. intros _ row _.
  rewrite <- (list_fmap_id row) at 2.
  apply list_fmap_ext. by intros _ [] _.
Qed.

(** A board with [g] applied to every cell. *)
Definition mapBoard (g : Cell → Cell) (b : Board) : Board :=
  (λ row : list Cell, g <$> row) <$> b.

Lemma shape_fmap (g : Cell → Cell) (b : Board) :
  shape (mapBoard g b) = shape b.
Proof.
  unfold shape, mapBoard. rewrite <- list_fmap_compose. apply list_fmap_ext.
  intros _ row _. simpl. apply length_fmap.
Qed.

Lemma cellOf_fmap (g : Cell → Cell) (b : Board) (r c : Z) :
  cellOf (mapBoard g b) r c = g <$> cellOf b r c.
Proof.
  unfold cellOf, index, mapBoard. case_decide; [done|].
  rewrite list_lookup_fmap. destruct (b !! Z.to_nat r) as [row|]; [|done].
  simpl. case_decide; [done|]. apply list_lookup_fmap.
Qed.

Lemma join_fmap (g : Cell → Cell) (b : Board) :
  mjoin (mapBoard g b) = g <$> mjoin b.
Proof.
  induction b as [|row b IH]; [done|]. simpl. by rewrite fmap_app, IH.
Qed.

Lemma board_length (rows cols : Z) (b : Board) :
  0 ≤ rows → 0 ≤ cols → hasDims rows cols b →
  Z.of_nat (length (mjoin b)) = rows * cols.
Proof.
  intros Hr Hc Hd. rewrite length_join. unfold hasDims, shape in Hd.
  rewrite Hd. clear Hd.
  assert (∀ n m, sum_list (replicate n m) = (n * m)%nat) as ->.
  { induction n as [|n IH]; intros m; simpl; [done|]. rewrite IH. lia. }
  lia.
Qed.

(** Counting frame for a win: a flagged-or-mine cell and a revealed safe
    cell are different cells as long as no revealed cell is flagged. *)
Lemma flags_after_win (l : list Cell) :
  (∀ x, x ∈ l → isRevealed x = true → isFlagged x = false) →
  (length (filter (λ c : Cell, isFlagged c)
                  ((λ cel, if isMine cel then setFlagged true cel else cel)
                     <$> l)) +
   length (filter (λ cel : Cell, isRevealed cel && negb (isMine cel)) l)
   ≤ length l)%nat.
Proof.
  induction l as [|x l IH]; intros Hclean; [simpl; lia|].
  rewrite fmap_cons, !filter_cons.
  specialize (IH (λ y Hy, Hclean y (list_elem_of_further _ _ _ Hy))).
  specialize (Hclean x (list_elem_of_here _ _)).
  destruct x as [m rv f n]; simpl in *.
  destruct m, rv, f; simpl in *; repeat case_decide; simpl in *;
    try lia; try tauto; try (specialize (Hclean eq_refl); done).
Qed.

(** ** Invariant of the reachable sessions *)

Record sessionInv (s : Session) : Prop := {
  inv_dims : hasDims (rowsOf s) (colsOf s) (board s);
  inv_planted : minesPlanted s = false ↔ status s = ready;
  inv_ready : status s = ready →
    ∀ r c x, cellOf (board s) r c = Some x →
             isMine x = false ∧ isRevealed x = false;
  inv_clean : status s ≠ lost →
    ∀ r c x, cellOf (board s) r c = Some x → isRevealed x = true →
             isFlagged x = false ∧ isMine x = false;
  inv_flags : countFlagged (board s) ≤ minesOf s;
  inv_won : status s = won ↔ countRevealedSafe (board s) = totalSafe s;
  inv_won_flags : status s = won →
    ∀ r c x, cellOf (board s) r c = Some x → isMine x = true →
             isFlagged x = true;
  inv_lost : status s = lost →
    ∀ r c x, cellOf (board s) r c = Some x →
             (isMine x = true → isRevealed x = true) ∧
             (isRevealed x = true → isFlagged x = true → isMine x = true);
}.

Lemma config_positive (d : Difficulty) :
  0 < cfgRows (DIFFICULTIES d) ∧ 0 < cfgCols (DIFFICULTIES d) ∧
  0 < cfgMines (DIFFICULTIES d) ∧
  0 < cfgRows (DIFFICULTIES d) * cfgCols (DIFFICULTIES d)
      - cfgMines (DIFFICULTIES d).
Proof. destruct d; simpl; lia. Qed.

Lemma countRevealedSafe_none (b : Board) :
  (∀ r c x, cellOf b r c = Some x → isRevealed x = false) →
  countRevealedSafe b = 0.
Proof.
  intros Hn. unfold countRevealedSafe. rewrite length_filter_none; [done|].
  intros x (r & c & Hx)%elem_of_board. rewrite (Hn r c x Hx). simpl. tauto.
Qed.

Lemma countFlagged_none (b : Board) :
  (∀ r c x, cellOf b r c = Some x → isFlagged x = false) →
  countFlagged b = 0.
Proof.
  intros Hn. unfold countFlagged. rewrite length_filter_none; [done|].
  intros x (r & c & Hx)%elem_of_board. rewrite (Hn r c x Hx). simpl. tauto.
Qed.

Lemma sessionInv_fresh (d : Difficulty) : sessionInv (freshSession d).
Proof.
  pose proof (config_positive d) as (? & ? & ? & ?).
  assert (∀ r c x,
    cellOf (makeEmptyBoard (cfgRows (DIFFICULTIES d))
                           (cfgCols (DIFFICULTIES d))) r c = Some x →
    x = emptyCell) as Hempty by (intros; by eapply cellOf_makeEmptyBoard).
  split; simpl; unfold totalSafe, rowsOf, colsOf, minesOf; simpl.
  - apply hasDims_makeEmptyBoard.
  - done.
  - intros _ r c x ->%Hempty. done.
  - intros _ r c x ->%Hempty. done.
  - rewrite countFlagged_none; [lia|]. by intros r c x ->%Hempty.
  - rewrite countRevealedSafe_none by (by intros r c x ->%Hempty).
    unfold rowsOf, colsOf, minesOf. simpl. split; [done|lia].
  - done.
  - done.
Qed.

Lemma shape_cellOf (b b' : Board) (r c : Z) :
  shape b' = shape b → is_Some (cellOf b' r c) → is_Some (cellOf b r c).
Proof.
  intros Hs [x (i & j & row & -> & -> & Hi & Hj)%cellOf_Some_nat].
  assert (length <$> b !! i = length <$> b' !! i) as Hl.
  { rewrite <- !list_lookup_fmap. unfold shape in Hs. by rewrite Hs. }
  rewrite Hi in Hl. destruct (b !! i) as [row0|] eqn:Hi0; [|done].
  injection Hl as Hl.
  destruct (lookup_lt_is_Some_2 row0 j) as [y Hy].
  { rewrite Hl. by eapply lookup_lt_Some. }
  exists y. apply cellOf_Some_nat. eauto 10.
Qed.

(** The ways [handleReveal] can end normally. *)
Inductive revealCase (rnd : list (Z * Z)) (s : Session) (r c : Z)
  : Session → Prop :=
  | reveal_terminal :
      terminal (status s) = true → revealCase rnd s r c s
  | reveal_first_flagged nb x :
      status s = ready →
      plantMines rnd (board s) (rowsOf s) (colsOf s) (minesOf s) r c = Ok nb →
      cellOf nb r c = Some x → isFlagged x = true →
      revealCase rnd s r c
        (mkSession (difficulty s) (board s) true playing (revealedCount s) 0)
  | reveal_rejected x :
      status s = playing →
      cellOf (board s) r c = Some x →
      isRevealed x || isFlagged x = true →
      revealCase rnd s r c s
  | reveal_mine x :
      status s = playing →
      cellOf (board s) r c = Some x →
      isRevealed x = false → isFlagged x = false → isMine x = true →
      revealCase rnd s r c
        (mkSession (difficulty s) (revealAllMines (board s)) true lost
                   (revealedCount s) (seconds s))
  | reveal_safe nb secs x nb' :
      (status s = ready ∧ secs = 0 ∧
       plantMines rnd (board s) (rowsOf s) (colsOf s) (minesOf s) r c = Ok nb)
      ∨ (status s = playing ∧ secs = seconds s ∧ nb = board s) →
      cellOf nb r c = Some x →
      isRevealed x = false → isFlagged x = false → isMine x = false →
      (if decide (count x = 0) then floodReveal nb r c
       else writeCell nb r c (setRevealed true)) = Ok nb' →
      revealCase rnd s r c
        (if decide (countRevealedSafe nb' = totalSafe s) then
           mkSession (difficulty s) (flagAllMines nb') true won
                     (countRevealedSafe nb') secs
         else
           mkSession (difficulty s) nb' true playing
                     (countRevealedSafe nb') secs).

Lemma forbiddenSet_safe (rows cols safeR safeC : Z) :
  (safeR, safeC) ∈ forbiddenSet rows cols safeR safeC.
Proof. apply elem_of_forbiddenSet. by left. Qed.

Lemma handleReveal_cases (rnd : list (Z * Z)) (s s' : Session) (r c : Z) :
  sessionInv s → handleReveal rnd s r c = Ok s' → revealCase rnd s r c s'.
Proof.
  intros Hinv Hrun. unfold handleReveal in Hrun.
  destruct (terminal (status s)) eqn:Hterm.
  { injection Hrun as <-. by constructor. }
  rewrite cloneBoard_id in Hrun.
  destruct (minesPlanted s) eqn:Hplanted; cbn [negb] in Hrun.
  - assert (status s = playing) as Hst.
    { destruct (status s) eqn:Hst; try done.
      apply (inv_planted _ Hinv) in Hst. congruence. }
    cbn [mbind outcome_bind] in Hrun.
    apply bind_Ok in Hrun as (x & Hx%cellAt_Ok & Hrun).
    destruct (isRevealed x || isFlagged x) eqn:Hrf.
    { injection Hrun as <-. rewrite <- Hplanted. destruct s.
      by eapply reveal_rejected. }
    apply orb_false_iff in Hrf as [Hr Hf].
    destruct (isMine x) eqn:Hm.
    { injection Hrun as <-. by eapply reveal_mine. }
    apply bind_Ok in Hrun as (nb' & Hnb' & Hrun).
    rewrite Hst in Hrun.
    pose proof (reveal_safe rnd s r c (board s) (seconds s) x nb') as Hcase.
    destruct (decide (countRevealedSafe nb' = totalSafe s));
      injection Hrun as <-; apply Hcase; auto.
  - assert (status s = ready) as Hst by (by apply (inv_planted _ Hinv)).
    apply bind_Ok in Hrun as ([[[nb p1] st1] sec1] & Hplant & Hrun).
    apply bind_Ok in Hplant as (nb0 & Hplant & [= -> <- <- <-]).
    apply bind_Ok in Hrun as (x & Hx%cellAt_Ok & Hrun).
    pose proof (config_positive (difficulty s)) as (_ & _ & HM & _).
    destruct (plantMines_spec rnd (board s) nb (rowsOf s) (colsOf s)
                (minesOf s) r c (inv_dims _ Hinv))
      as (Hs & _ & Hcells); try done.
    { intros r' c' y Hy. by apply (inv_ready _ Hinv Hst r' c' y). }
    { unfold minesOf. lia. }
    destruct (shape_cellOf (board s) nb r c Hs) as [y Hy]; [eauto|].
    destruct (Hcells r c y Hy) as (x' & Hx' & Hr & Hf & Hforb & _).
    assert (x' = x) as -> by congruence.
    destruct (inv_ready _ Hinv Hst r c y Hy) as [_ Hyr].
    rewrite Hyr in Hr. rewrite Hr in Hrun. cbn [orb] in Hrun.
    destruct (isFlagged x) eqn:Hxf.
    { injection Hrun as <-. by eapply reveal_first_flagged. }
    destruct (isMine x) eqn:Hm.
    { exfalso. apply Hforb; [done|]. apply forbiddenSet_safe. }
    apply bind_Ok in Hrun as (nb' & Hnb' & Hrun).
    pose proof (reveal_safe rnd s r c nb 0 x nb') as Hcase.
    destruct (decide (countRevealedSafe nb' = totalSafe s));
      injection Hrun as <-; apply Hcase; auto.
Qed.

(** [b'] is [b] with some unflagged safe cells revealed. *)
Definition revealsOnly (b b' : Board) : Prop :=
  shape b' = shape b ∧
  ∀ r c y, cellOf b r c = Some y →
    cellOf b' r c = Some y ∨
    (cellOf b' r c = Some (setRevealed true y) ∧
     isMine y = false ∧ isFlagged y = false).

Lemma revealsOnly_back (b b' : Board) (r c : Z) (y' : Cell) :
  revealsOnly b b' → cellOf b' r c = Some y' →
  ∃ y, cellOf b r c = Some y ∧
       (y' = y ∨ (y' = setRevealed true y ∧ isMine y = false ∧
                  isFlagged y = false)).
Proof.
  intros [Hs Hcells] Hy'.
  destruct (shape_cellOf b b' r c Hs) as [y Hy]; [eauto|].
  exists y. split; [done|].
  destruct (Hcells r c y Hy) as [?|(? & ? & ?)]; [left|right]; split_and?;
    congruence.
Qed.

Lemma reveal_step_revealsOnly (rows cols : Z) (nb nb' : Board) (r c : Z)
    (x : Cell) :
  hasDims rows cols nb →
  cellOf nb r c = Some x → isFlagged x = false → isMine x = false →
  (if decide (count x = 0) then floodReveal nb r c
   else writeCell nb r c (setRevealed true)) = Ok nb' →
  revealsOnly nb nb'.
Proof.
  intros Hd Hx Hf Hm Hrun. case_decide.
  - destruct (floodReveal_spec rows cols nb r c Hd) as (b2 & Hrun2 & Hs & Hc).
    { apply (hasDims_cellOf rows cols nb); eauto. }
    assert (b2 = nb') as -> by congruence.
    split; [done|]. intros r' c' y Hy.
    destruct (Hc (r', c') y Hy) as (_ & _ & [?|[Hcas ?]]); [by left|].
    right. split; [done|].
    apply cascade_eligible in Hcas as [[= -> ->]|(y' & Hy' & ? & ? & _)];
      simpl in *; split; congruence.
  - apply writeCell_Ok in Hrun as (x' & Hx' & ->).
    assert (x' = x) as -> by congruence.
    split; [apply shape_putCell|]. intros r' c' y Hy.
    rewrite cellOf_putCell by eauto. case_decide as Heq; [|by left].
    destruct Heq as [-> ->]. right. split_and?; congruence.
Qed.

Lemma countFlagged_ext (b b' : Board) :
  shape b' = shape b →
  (∀ r c y y', cellOf b r c = Some y → cellOf b' r c = Some y' →
               isFlagged y' = isFlagged y) →
  countFlagged b' = countFlagged b.
Proof.
  intros Hs Hc. unfold countFlagged. f_equal. apply board_count_ext; [done|].
  intros r c y' y Hy' Hy. by rewrite (Hc r c y y' Hy Hy').
Qed.

Lemma countRevealedSafe_ext (b b' : Board) :
  shape b' = shape b →
  (∀ r c y y', cellOf b r c = Some y → cellOf b' r c = Some y' →
               isRevealed y' && negb (isMine y')
               = isRevealed y && negb (isMine y)) →
  countRevealedSafe b' = countRevealedSafe b.
Proof.
  intros Hs Hc. unfold countRevealedSafe. f_equal.
  apply board_count_ext; [done|].
  intros r c y' y Hy' Hy. by rewrite (Hc r c y y' Hy Hy').
Qed.

Lemma cellOf_mapBoard_inv (g : Cell → Cell) (b : Board) (r c : Z) (y : Cell) :
  cellOf (mapBoard g b) r c = Some y → ∃ x, cellOf b r c = Some x ∧ y = g x.
Proof.
  rewrite cellOf_fmap. destruct (cellOf b r c) as [x|]; [|done].
  intros [= <-]. eauto.
Qed.

Lemma countFlagged_revealAllMines (b : Board) :
  countFlagged (revealAllMines b) = countFlagged b.
Proof.
  apply countFlagged_ext; [apply shape_fmap|].
  intros r c y y' Hy (x & Hx & ->)%cellOf_mapBoard_inv.
  assert (x = y) as -> by congruence. by destruct (isMine y).
Qed.

Lemma countRevealedSafe_revealAllMines (b : Board) :
  countRevealedSafe (revealAllMines b) = countRevealedSafe b.
Proof.
  apply countRevealedSafe_ext; [apply shape_fmap|].
  intros r c y y' Hy (x & Hx & ->)%cellOf_mapBoard_inv.
  assert (x = y) as -> by congruence.
  destruct (isMine y) eqn:Hm; simpl; rewrite ?Hm; simpl; [|done].
  by rewrite !andb_false_r.
Qed.

Lemma countRevealedSafe_flagAllMines (b : Board) :
  countRevealedSafe (flagAllMines b) = countRevealedSafe b.
Proof.
  apply countRevealedSafe_ext; [apply shape_fmap|].
  intros r c y y' Hy (x & Hx & ->)%cellOf_mapBoard_inv.
  assert (x = y) as -> by congruence.
  destruct (isMine y) eqn:Hm; simpl; rewrite ?Hm; done.
Qed.

Lemma countFlagged_win (rows cols : Z) (b : Board) :
  0 ≤ rows → 0 ≤ cols → hasDims rows cols b →
  (∀ r c x, cellOf b r c = Some x → isRevealed x = true →
            isFlagged x = false) →
  countFlagged (flagAllMines b) + countRevealedSafe b ≤ rows * cols.
Proof.
  intros Hr Hc Hd Hclean.
  rewrite <- (board_length rows cols b) by done.
  unfold countFlagged, countRevealedSafe, flagAllMines.
  change (fmap (λ row : list Cell, fmap ?g row) b) with (mapBoard g b).
  rewrite join_fmap.
  pose proof (flags_after_win (mjoin b)) as Hle.
  rewrite <- !Nat2Z.inj_add. apply Nat2Z.inj_le. apply Hle.
  intros x (r & c & Hx)%elem_of_board. by apply (Hclean r c).
Qed.

Lemma hasDims_revealAllMines (rows cols : Z) (b : Board) :
  hasDims rows cols b → hasDims rows cols (revealAllMines b).
Proof.
  unfold hasDims, revealAllMines. intros <-.
  apply (shape_fmap (λ cel, if isMine cel then setRevealed true cel else cel)).
Qed.

Lemma hasDims_flagAllMines (rows cols : Z) (b : Board) :
  hasDims rows cols b → hasDims rows cols (flagAllMines b).
Proof.
  unfold hasDims, flagAllMines. intros <-.
  apply (shape_fmap (λ cel, if isMine cel then setFlagged true cel else cel)).
Qed.

Ltac simpl_session :=
  cbn [difficulty board minesPlanted status revealedCount seconds] in *.

Lemma sessionInv_reveal (rnd : list (Z * Z)) (s s' : Session) (r c : Z) :
  sessionInv s → revealCase rnd s r c s' → sessionInv s'.
Proof.
  intros Hinv Hcase.
  pose proof (config_positive (difficulty s)) as (HR & HC & HM & HT).
  destruct Hcase as [Hterm|nb x Hst Hplant Hx Hf|x Hst Hx Hrf
                    |x Hst Hx Hr Hf Hm|nb secs x nb' Hfrom Hx Hr Hf Hm Hrun];
    try done.
  - (* first click on a flagged cell *)
    split; unfold totalSafe, rowsOf, colsOf, minesOf; simpl_session;
      try apply Hinv; try done.
    + intros _ r' c' y Hy Hrev.
      destruct (inv_ready _ Hinv Hst r' c' y Hy). congruence.
    + split; [done|]. intros Hcnt. exfalso.
      rewrite countRevealedSafe_none in Hcnt; [lia|].
      intros r' c' y Hy. by destruct (inv_ready _ Hinv Hst r' c' y Hy).
  - (* a mine *)
    assert (countRevealedSafe (board s) ≠ totalSafe s) as Hnw.
    { intros Hw%(inv_won _ Hinv). congruence. }
    split; unfold totalSafe, rowsOf, colsOf, minesOf; simpl_session; try done.
    + apply hasDims_revealAllMines, Hinv.
    + rewrite countFlagged_revealAllMines. apply Hinv.
    + rewrite countRevealedSafe_revealAllMines. split; done.
    + intros _ r' c' y' (y & Hy & ->)%cellOf_mapBoard_inv.
      destruct (isMine y) eqn:Hmy; simpl; rewrite ?Hmy; [done|].
      split; [done|]. intros Hrev Hfl.
      destruct (inv_clean _ Hinv) with (r := r') (c := c') (x := y);
        congruence.
  - (* a safe cell *)
    assert (hasDims (rowsOf s) (colsOf s) nb ∧
            (∀ r c y, cellOf nb r c = Some y → isRevealed y = true →
                      isFlagged y = false ∧ isMine y = false) ∧
            countFlagged nb ≤ minesOf s) as (Hd & Hclean & Hflags).
    { destruct Hfrom as [(Hst & _ & Hplant)|(Hst & _ & ->)].
      - destruct (plantMines_spec rnd (board s) nb (rowsOf s) (colsOf s)
                    (minesOf s) r c (inv_dims _ Hinv))
          as (Hs & _ & Hcells); try done.
        { intros r' c' y Hy. by apply (inv_ready _ Hinv Hst r' c' y). }
        { unfold minesOf. lia. }
        split; [unfold hasDims; rewrite Hs; apply Hinv|]. split.
        + intros r' c' y' Hy' Hrev.
          destruct (shape_cellOf (board s) nb r' c' Hs) as [y Hy]; [eauto|].
          destruct (Hcells r' c' y Hy) as (y2 & Hy2 & Hr2 & _).
          destruct (inv_ready _ Hinv Hst r' c' y Hy). congruence.
        + rewrite (countFlagged_ext (board s) nb Hs); [apply Hinv|].
          intros r' c' y y' Hy Hy'.
          destruct (Hcells r' c' y Hy) as (y2 & Hy2 & _ & Hf2 & _). congruence.
      - split; [apply Hinv|]. split; [|apply Hinv].
        apply (inv_clean _ Hinv). congruence. }
    pose proof (reveal_step_revealsOnly _ _ nb nb' r c x Hd Hx Hf Hm Hrun)
      as Hro.
    assert (hasDims (rowsOf s) (colsOf s) nb') as Hd'.
    { unfold hasDims. destruct Hro as [-> _]. apply Hd. }
    assert (∀ r c y, cellOf nb' r c = Some y → isRevealed y = true →
                     isFlagged y = false ∧ isMine y = false) as Hclean'.
    { intros r' c' y' Hy' Hrev.
      destruct (revealsOnly_back nb nb' r' c' y' Hro Hy')
        as (y & Hy & [->|(-> & ? & ?)]); [by eapply Hclean|done]. }
    assert (countFlagged nb' = countFlagged nb) as Hflags'.
    { apply countFlagged_ext; [apply Hro|].
      intros r' c' y y' Hy Hy'. destruct Hro as [_ Hc].
      destruct (Hc r' c' y Hy) as [?|(? & _)]; [congruence|].
      assert (y' = setRevealed true y) as -> by congruence. done. }
    destruct (decide (countRevealedSafe nb' = totalSafe s)) as [Hwin|Hwin].
    + (* the last safe cell: won *)
      split; unfold totalSafe, rowsOf, colsOf, minesOf in *; simpl_session;
        try done.
      * by apply hasDims_flagAllMines.
      * intros _ r' c' y' (y & Hy & ->)%cellOf_mapBoard_inv Hrev.
        destruct (isMine y) eqn:Hmy.
        -- simpl in Hrev. destruct (Hclean' r' c' y Hy Hrev). congruence.
        -- destruct (Hclean' r' c' y Hy Hrev). done.
      * pose proof (countFlagged_win _ _ nb' (Z.lt_le_incl _ _ HR)
                      (Z.lt_le_incl _ _ HC) Hd') as Hle.
        rewrite Hwin in Hle.
        assert (∀ a b m : Z, a + (b - m) ≤ b → a ≤ m) as Harith by lia.
        eapply Harith, Hle.
        intros r' c' y Hy Hrev. by destruct (Hclean' r' c' y Hy Hrev).
      * rewrite countRevealedSafe_flagAllMines. done.
      * intros _ r' c' y' (y & Hy & ->)%cellOf_mapBoard_inv.
        destruct (isMine y) eqn:Hmy; simpl; rewrite ?Hmy; done.
    + split; unfold totalSafe, rowsOf, colsOf, minesOf in *; simpl_session;
        try done.
      lia.
Qed.

(** [handleFlag] with the property accesses spelled out. *)
Lemma handleFlag_unfold (s : Session) (r c : Z) :
  handleFlag s r c =
    if terminal (status s) then Ok s
    else match cellOf (board s) r c with
         | None => TypeError
         | Some x =>
             if isRevealed x then Ok s
             else if negb (isFlagged x) &&
                     bool_decide (minesOf s - countFlagged (board s) = 0)
             then Ok s
             else Ok (mkSession (difficulty s)
                        (putCell (board s) r c
                                 (setFlagged (negb (isFlagged x)) x))
                        (minesPlanted s) (status s) (revealedCount s)
                        (seconds s))
         end.
Proof.
  unfold handleFlag. destruct (terminal (status s)); [done|].
  rewrite cloneBoard_id, cellAt_cellOf.
  destruct (cellOf (board s) r c) as [x|] eqn:Hx; [|done].
  cbn [mbind outcome_bind]. destruct (isRevealed x); [done|].
  destruct (negb (isFlagged x) && _); [done|].
  rewrite writeCell_cellOf, Hx. done.
Qed.

Lemma countFlagged_toggle (b : Board) (r c : Z) (x : Cell) :
  cellOf b r c = Some x →
  countFlagged (putCell b r c (setFlagged (negb (isFlagged x)) x)) =
    if isFlagged x then countFlagged b - 1 else countFlagged b + 1.
Proof.
  intros Hx. unfold countFlagged.
  pose proof (board_count_putCell (λ c : Cell, isFlagged c) b r c x
                (setFlagged (negb (isFlagged x)) x) Hx) as Hp.
  simpl in Hp. destruct (isFlagged x) eqn:Hf; simpl in *; lia.
Qed.

Lemma sessionInv_flag (s s' : Session) (r c : Z) :
  sessionInv s → handleFlag s r c = Ok s' → sessionInv s'.
Proof.
  intros Hinv. rewrite handleFlag_unfold.
  destruct (terminal (status s)) eqn:Hterm; [by intros [= <-]|].
  destruct (cellOf (board s) r c) as [x|] eqn:Hx; [|done].
  destruct (isRevealed x) eqn:Hr; [by intros [= <-]|].
  destruct (negb (isFlagged x) && _) eqn:Hbudget; [by intros [= <-]|].
  intros [= <-].
  assert (∀ r' c' y',
    cellOf (putCell (board s) r c (setFlagged (negb (isFlagged x)) x)) r' c'
      = Some y' →
    ∃ y, cellOf (board s) r' c' = Some y ∧ isMine y' = isMine y ∧
         isRevealed y' = isRevealed y ∧
         (y' = y ∨ isRevealed y = false)) as Hback.
  { intros r' c' y'. rewrite cellOf_putCell by eauto.
    destruct (decide (r' = r ∧ c' = c)) as [[-> ->]|Hne]; [|eauto 10].
    intros [= <-]. exists x. eauto 10. }
  split; unfold totalSafe, rowsOf, colsOf, minesOf in *; simpl_session.
  - unfold hasDims. rewrite shape_putCell. apply Hinv.
  - apply Hinv.
  - intros Hst r' c' y' (y & Hy & -> & -> & _)%Hback.
    by apply (inv_ready _ Hinv Hst r' c' y).
  - intros Hst r' c' y' (y & Hy & Hm & Hrv & [->|Hnr])%Hback Hrev.
    + by apply (inv_clean _ Hinv Hst r' c' y).
    + congruence.
  - rewrite countFlagged_toggle by done. pose proof (inv_flags _ Hinv).
    unfold minesOf in *.
    destruct (isFlagged x); simpl in *; [lia|].
    apply bool_decide_eq_false in Hbudget. lia.
  - assert (countRevealedSafe
              (putCell (board s) r c (setFlagged (negb (isFlagged x)) x))
            = countRevealedSafe (board s)) as ->; [|apply Hinv].
    apply countRevealedSafe_ext; [apply shape_putCell|].
    intros r' c' y y' Hy (y2 & Hy2 & -> & -> & _)%Hback. congruence.
  - intros Hst. by destruct (status s).
  - intros Hst. by destruct (status s).
Qed.

Lemma sessionInv_setDifficulty (d : Difficulty) (s : Session) :
  sessionInv s → sessionInv (setDifficulty d s).
Proof.
  intros Hinv. unfold setDifficulty. case_decide as Heq.
  - destruct Hinv.
    split; unfold totalSafe, rowsOf, colsOf, minesOf in *; simpl_session;
      rewrite ?Heq; done.
  - apply sessionInv_fresh.
Qed.

Lemma sessionInv_tick (s : Session) : sessionInv s → sessionInv (tick s).
Proof.
  intros []. unfold tick.
  split; unfold totalSafe, rowsOf, colsOf, minesOf in *; simpl_session; done.
Qed.

Lemma sessionInv_step (s s' : Session) :
  sessionInv s → step s s' → sessionInv s'.
Proof.
  intros Hinv Hstep. revert Hinv.
  destruct Hstep as [rnd r c s1 s2 Hrun|r c s1 s2 Hrun|s1|d s1|s1 _];
    intros Hinv.
  - apply (sessionInv_reveal rnd s1 s2 r c Hinv).
    by apply handleReveal_cases.
  - by eapply sessionInv_flag.
  - apply sessionInv_fresh.
  - by apply sessionInv_setDifficulty.
  - by apply sessionInv_tick.
Qed.

Theorem reachable_inv (s : Session) : reachable s → sessionInv s.
Proof.
  induction 1 as [|s s' _ IH Hstep]; [apply sessionInv_fresh|].
  by eapply sessionInv_step.
Qed.

(** [handleReveal] with the clone and the property accesses spelled out. *)
Lemma handleReveal_unfold (rnd : list (Z * Z)) (s : Session) (r c : Z) :
  handleReveal rnd s r c =
    if terminal (status s) then Ok s
    else
      st ← (if negb (minesPlanted s) then
              nb ← plantMines rnd (board s) (rowsOf s) (colsOf s) (minesOf s)
                              r c;
              Ok (nb, true, playing, 0)
            else Ok (board s, minesPlanted s, status s, seconds s));
      match cellOf st.1.1.1 r c with
      | None => TypeError
      | Some x =>
          if isRevealed x || isFlagged x then
            Ok (mkSession (difficulty s) (board s) st.1.1.2 st.1.2
                          (revealedCount s) st.2)
          else if isMine x then
            Ok (mkSession (difficulty s) (revealAllMines st.1.1.1) st.1.1.2
                          lost (revealedCount s) st.2)
          else
            nb' ← (if decide (count x = 0) then floodReveal st.1.1.1 r c
                   else writeCell st.1.1.1 r c (setRevealed true));
            if decide (countRevealedSafe nb' = totalSafe s) then
              Ok (mkSession (difficulty s) (flagAllMines nb') st.1.1.2 won
                            (countRevealedSafe nb') st.2)
            else
              Ok (mkSession (difficulty s) nb' st.1.1.2 st.1.2
                            (countRevealedSafe nb') st.2)
      end.
Proof.
  unfold handleReveal. destruct (terminal (status s)); [done|].
  rewrite cloneBoard_id.
  destruct (if negb (minesPlanted s) then _ else _)
    as [[[[nb p1] st1] sec1]| |]; [|done..].
  cbn [mbind outcome_bind fst snd]. rewrite cellAt_cellOf.
  destruct (cellOf nb r c); done.
Qed.

Lemma reveal_step_total (rows cols : Z) (nb : Board) (r c : Z) (x : Cell) :
  hasDims rows cols nb → cellOf nb r c = Some x →
  ∃ nb', (if decide (count x = 0) then floodReveal nb r c
          else writeCell nb r c (setRevealed true)) = Ok nb'.
Proof.
  intros Hd Hx. case_decide.
  - destruct (floodReveal_spec rows cols nb r c Hd) as (nb' & ? & _); [|eauto].
    apply (hasDims_cellOf rows cols nb); eauto.
  - rewrite writeCell_cellOf, Hx. eauto.
Qed.

(** On a reachable session [handleReveal] returns for every cell of the
    grid, given (for a first click) enough random draws. *)
Lemma handleReveal_total (rnd : list (Z * Z)) (s : Session) (r c : Z) :
  sessionInv s →
  inBounds r c (rowsOf s) (colsOf s) = true →
  (status s = ready →
   enoughDraws (rowsOf s) (colsOf s) (minesOf s) r c rnd) →
  ∃ s', handleReveal rnd s r c = Ok s'.
Proof.
  intros Hinv Hin Hdraws. rewrite handleReveal_unfold.
  destruct (terminal (status s)); [eauto|].
  assert (∃ st, (if negb (minesPlanted s) then
              nb ← plantMines rnd (board s) (rowsOf s) (colsOf s) (minesOf s)
                              r c;
              Ok (nb, true, playing, 0)
            else Ok (board s, minesPlanted s, status s, seconds s)) = Ok st ∧
            hasDims (rowsOf s) (colsOf s) st.1.1.1)
    as (st & -> & Hd).
  { destruct (minesPlanted s) eqn:Hp; cbn [negb].
    - eexists. split; [done|]. apply Hinv.
    - apply (inv_planted _ Hinv) in Hp.
      pose proof (config_positive (difficulty s)) as (_ & _ & HM & _).
      destruct (plantMines_total rnd (board s) (rowsOf s) (colsOf s)
                  (minesOf s) r c) as [nb Hnb]; [apply Hinv| |auto|].
      { intros r' c' y Hy. by apply (inv_ready _ Hinv Hp r' c' y). }
      rewrite Hnb. eexists. split; [done|]. cbn [fst].
      apply plantMines_spec in Hnb as (Hs & _); [| apply Hinv | |].
      + unfold hasDims. rewrite Hs. apply Hinv.
      + intros r' c' y Hy. by apply (inv_ready _ Hinv Hp r' c' y).
      + unfold minesOf. lia. }
  cbn [mbind outcome_bind].
  apply (hasDims_cellOf _ _ _ r c Hd) in Hin as [x Hx]. rewrite Hx.
  destruct (isRevealed x || isFlagged x); [eauto|].
  destruct (isMine x); [eauto|].
  destruct (reveal_step_total _ _ _ r c x Hd Hx) as [nb' ->].
  cbn [mbind outcome_bind]. case_decide; eauto.
Qed.

(** ** The win test *)

Lemma length_filter_zero {A : Type} (P : A → Prop) `{!∀ x, Decision (P x)}
    (l : list A) :
  length (filter P l) = 0%nat ↔ ∀ x, x ∈ l → ¬ P x.
Proof.
  split; [|apply length_filter_none].
  intros Hnil%nil_length_inv x Hx HP.
  assert (x ∈ filter P l) as Hin by (by apply list_elem_of_filter).
  rewrite Hnil in Hin. by apply elem_of_nil in Hin.
Qed.

(** Every cell is a revealed safe cell, an unrevealed safe cell or a mine. *)
Lemma safe_cells_partition (l : list Cell) :
  (length (filter (λ cel : Cell, isRevealed cel && negb (isMine cel)) l) +
   length (filter (λ cel : Cell, negb (isRevealed cel) && negb (isMine cel)) l) +
   length (filter (λ cel : Cell, isMine cel) l) = length l)%nat.
Proof.
  induction l as [|[m rv f n] l IH]; [done|].
  rewrite !filter_cons. simpl.
  destruct m, rv; simpl; lia.
Qed.

(** When the grid holds exactly [mines] mines, the count of revealed safe
    cells reaches [rows*cols - mines] exactly when every safe cell is
    revealed. *)
Lemma all_safe_revealed (s : Session) :
  sessionInv s → countMines (board s) = minesOf s →
  countRevealedSafe (board s) = totalSafe s ↔
  ∀ r c x, cellOf (board s) r c = Some x → isMine x = false →
           isRevealed x = true.
Proof.
  intros Hinv Hmines.
  pose proof (config_positive (difficulty s)) as (HR & HC & _ & _).
  pose proof (board_length (rowsOf s) (colsOf s) (board s)
                ltac:(unfold rowsOf; lia) ltac:(unfold colsOf; lia)
                (inv_dims _ Hinv)) as Hlen.
  pose proof (safe_cells_partition (mjoin (board s))) as Hpart.
  unfold countRevealedSafe, totalSafe, countMines in *.
  transitivity (length (filter
    (λ cel : Cell, negb (isRevealed cel) && negb (isMine cel))
    (mjoin (board s))) = 0%nat); [lia|].
  rewrite length_filter_zero. split.
  - intros Hall r c x Hx Hm.
    destruct (isRevealed x) eqn:Hr; [done|]. exfalso.
    apply (Hall x); [apply elem_of_board; eauto|]. by rewrite Hr, Hm.
  - intros Hall x (r & c & Hx)%elem_of_board Hbad.
    destruct (isMine x) eqn:Hm; [by rewrite andb_false_r in Hbad|].
    by rewrite (Hall r c x Hx Hm) in Hbad.
Qed.

(** X30 (the win test).  For a reachable session, a reveal of a cell of
    the grid returns (given, on a first click, enough random draws), and
    after any reveal that returns, the phase is [won] if and only if the
    number of revealed non-mine cells equals [rows*cols - mines]; in that
    case every mine cell of the resulting grid is flagged.  When the grid
    holds exactly [mines] mines, that count is reached exactly when every
    non-mine cell is revealed. *)
Theorem win_condition (rnd : list (Z * Z)) (s : Session) (r c : Z) :
  reachable s →
  (inBounds r c (rowsOf s) (colsOf s) = true →
   (status s = ready →
    enoughDraws (rowsOf s) (colsOf s) (minesOf s) r c rnd) →
   ∃ s', handleReveal rnd s r c = Ok s') ∧
  (∀ s', handleReveal rnd s r c = Ok s' →
     (status s' = won ↔ countRevealedSafe (board s') = totalSafe s') ∧
     (status s' = won →
      ∀ r' c' x, cellOf (board s') r' c' = Some x → isMine x = true →
                 isFlagged x = true) ∧
     (countMines (board s') = minesOf s' →
      status s' = won ↔
      ∀ r' c' x, cellOf (board s') r' c' = Some x → isMine x = false →
                 isRevealed x = true)).
Proof.
  intros Hreach. split.
  - intros Hin Hdraws. apply handleReveal_total; auto using reachable_inv.
  - intros s' Hrun.
    assert (sessionInv s') as Hinv'.
    { apply reachable_inv. eapply reachable_step; [done|].
      by eapply step_reveal. }
    split; [apply Hinv'|]. split; [apply (inv_won_flags _ Hinv')|].
    intros Hmines. rewrite (inv_won _ Hinv'). by apply all_safe_revealed.
Qed.

Lemma win_condition_witness :
  ∃ s', handleReveal draws_example (freshSession Beginner) 4 4 = Ok s' ∧
        status s' = won ∧ countRevealedSafe (board s') = totalSafe s'.
Proof.
  destruct (win_condition draws_example (freshSession Beginner) 4 4
              reachable_init) as [_ Hwin].
  eexists. split; [vm_compute; reflexivity|].
  split; [reflexivity|]. apply Hwin; [vm_compute|]; reflexivity.
Defined.

(** ** Example sessions *)

Definition orElse {A : Type} (o : outcome A) (d : A) : A :=
  match o with
  | Ok a => a
  | _ => d
  end.

(** Draws that wall in the corner [(0, 0)], so that a first click at
    [(4, 4)] does not win at once. *)
Definition draws_corner : list (Z * Z) :=
  [(0,1); (1,0); (4,4); (1,1); (0,3); (0,4); (0,1); (0,5); (0,6); (0,7);
   (0,8); (8,8)].

Definition session_playing : Session :=
  orElse (handleReveal draws_corner (freshSession Beginner) 4 4)
         (freshSession Beginner).

(** The mine at [(0, 1)] is flagged, then the mine at [(1, 0)] is clicked. *)
Definition session_flagged : Session :=
  orElse (handleFlag session_playing 0 1) session_playing.

Definition session_lost : Session :=
  orElse (handleReveal [] session_flagged 1 0) session_flagged.

Lemma session_playing_reachable : reachable session_playing.
Proof.
  eapply reachable_step; [apply reachable_init|].
  apply (step_reveal draws_corner 4 4). vm_compute. reflexivity.
Qed.

Lemma session_flagged_reachable : reachable session_flagged.
Proof.
  eapply reachable_step; [apply session_playing_reachable|].
  apply (step_flag 0 1). vm_compute. reflexivity.
Qed.

Lemma session_lost_reachable : reachable session_lost.
Proof.
  eapply reachable_step; [apply session_flagged_reachable|].
  apply (step_reveal [] 1 0). vm_compute. reflexivity.
Qed.

(** The zero-count cells [(4, 3)] and [(4, 5)] are flagged before the first
    click at [(4, 4)] and unflagged after it. *)
Definition session_gap_flagged : Session :=
  let s1 := orElse (handleFlag (freshSession Beginner) 4 3)
                   (freshSession Beginner) in
  orElse (handleFlag s1 4 5) s1.

Definition session_gap_clicked : Session :=
  orElse (handleReveal draws_example session_gap_flagged 4 4)
         session_gap_flagged.

Definition session_gap : Session :=
  let s4 := orElse (handleFlag session_gap_clicked 4 3)
                   session_gap_clicked in
  orElse (handleFlag s4 4 5) s4.

Lemma reachable_orElse_flag (s : Session) (r c : Z) :
  reachable s → reachable (orElse (handleFlag s r c) s).
Proof.
  intros Hs. destruct (handleFlag s r c) as [s'| |] eqn:Hrun; try done.
  eapply reachable_step; [done|]. by eapply step_flag.
Qed.

Lemma reachable_orElse_reveal (rnd : list (Z * Z)) (s : Session) (r c : Z) :
  reachable s → reachable (orElse (handleReveal rnd s r c) s).
Proof.
  intros Hs. destruct (handleReveal rnd s r c) as [s'| |] eqn:Hrun; try done.
  eapply reachable_step; [done|]. by eapply step_reveal.
Qed.

Lemma session_gap_reachable : reachable session_gap.
Proof.
  do 2 apply reachable_orElse_flag.
  apply reachable_orElse_reveal.
  do 2 apply reachable_orElse_flag.
  apply reachable_init.
Qed.

(** The same gap arises in play: in the reachable session [session_gap] the
    cell [(4, 5)] lies in the zero region of [(4, 3)] (through the revealed
    [(4, 4)]), and the reveal of [(4, 3)] leaves it unrevealed. *)
Lemma cascade_gap_in_play :
  reachable session_gap ∧
  cascade false (board session_gap) (4, 3) (4, 5) ∧
  ∃ s', handleReveal [] session_gap 4 3 = Ok s' ∧
        cellOf (board s') 4 3 = Some (mkCell false true false 0) ∧
        cellOf (board s') 4 5 = Some (mkCell false false false 0).
Proof.
  split; [apply session_gap_reachable|]. split.
  - apply (cascade_step false _ (4, 3) (4, 4) (4, 5)
             (mkCell false true false 0) (mkCell false false false 0));
      try (vm_compute; reflexivity).
    + apply (cascade_step false _ (4, 3) (4, 3) (4, 4)
               (mkCell false false false 0) (mkCell false true false 0));
        try (vm_compute; reflexivity).
      * constructor.
      * apply (bool_decide_unpack _). reflexivity.
      * repeat split; discriminate.
    + apply (bool_decide_unpack _). reflexivity.
    + repeat split; discriminate.
  - eexists. split; [vm_compute; reflexivity|].
    split; vm_compute; reflexivity.
Qed.

(** ** C4 *)

(** C4 (loss condition).  In a reachable session in phase [playing], a
    reveal of an unrevealed, unflagged mine cell returns a session in phase
    [lost] whose grid has the same shape, in which every mine cell is
    revealed and every non-mine cell is exactly as it was before the call
    (no cascade runs). *)
Theorem loss_condition (rnd : list (Z * Z)) (s : Session) (r c : Z)
    (x : Cell) :
  reachable s →
  status s = playing →
  cellOf (board s) r c = Some x →
  isRevealed x = false → isFlagged x = false → isMine x = true →
  ∃ s', handleReveal rnd s r c = Ok s' ∧
        status s' = lost ∧
        shape (board s') = shape (board s) ∧
        (∀ r' c' y', cellOf (board s') r' c' = Some y' → isMine y' = true →
                     isRevealed y' = true) ∧
        (∀ r' c' y y', cellOf (board s) r' c' = Some y →
                       cellOf (board s') r' c' = Some y' →
                       isMine y' = false → y' = y).
Proof.
  intros Hreach Hst Hx Hr Hf Hm. apply reachable_inv in Hreach as Hinv.
  assert (minesPlanted s = true) as Hp.
  { destruct (minesPlanted s) eqn:Hp; [done|].
    apply (inv_planted _ Hinv) in Hp. congruence. }
  rewrite handleReveal_unfold, Hst, Hp. cbn [terminal negb mbind outcome_bind
    fst snd]. rewrite Hx, Hr, Hf, Hm. cbn [orb].
  eexists. split; [done|]. simpl_session. split; [done|].
  split; [apply (shape_fmap _ (board s))|]. split.
  - intros r' c' y' (y & Hy & ->)%cellOf_mapBoard_inv.
    destruct (isMine y) eqn:Hmy; [done | congruence].
  - intros r' c' y y' Hy (y2 & Hy2 & ->)%cellOf_mapBoard_inv.
    assert (y2 = y) as -> by congruence.
    destruct (isMine y) eqn:Hmy; simpl; [congruence|done].
Qed.

Lemma loss_condition_witness :
  ∃ s', handleReveal [] session_playing 1 0 = Ok s' ∧ status s' = lost.
Proof.
  destruct (loss_condition [] session_playing 1 0 (mkCell true false false 0)
              session_playing_reachable)
    as (s' & Hrun & Hlost & _); try (vm_compute; reflexivity).
  exists s'. split; [exact Hrun | exact Hlost].
Defined.

(** ** C5 *)

(** C5, as amended (cell-state invariant).  In every reachable session, a
    cell that is both revealed and flagged occurs only in phase [lost], and
    is then a mine (the mines revealed by the loss keep their flags); in
    the phases [ready], [playing] and [won] no cell is both revealed and
    flagged. *)
Theorem revealed_flagged_only_lost_mines (s : Session) (r c : Z) (x : Cell) :
  reachable s →
  cellOf (board s) r c = Some x →
  isRevealed x = true → isFlagged x = true →
  status s = lost ∧ isMine x = true.
Proof.
  intros Hinv%reachable_inv Hx Hr Hf.
  destruct (decide (status s = lost)) as [Hst|Hst].
  - split; [done|]. by apply (inv_lost _ Hinv Hst r c x).
  - destruct (inv_clean _ Hinv Hst r c x Hx Hr). congruence.
Qed.

Lemma revealed_flagged_only_lost_mines_witness :
  status session_lost = lost ∧ isMine (mkCell true true true 0) = true.
Proof.
  apply (revealed_flagged_only_lost_mines session_lost 0 1
           (mkCell true true true 0) session_lost_reachable);
    vm_compute; reflexivity.
Defined.

(** C5 as stated fails: after flagging the mine at [(0, 1)] and clicking the
    mine at [(1, 0)], the reachable session [session_lost] holds a cell that
    is both revealed and flagged. *)
Lemma revealed_and_flagged_reachable :
  reachable session_lost ∧
  ∃ x, cellOf (board session_lost) 0 1 = Some x ∧
       isRevealed x = true ∧ isFlagged x = true.
Proof.
  split; [apply session_lost_reachable|].
  exists (mkCell true true true 0). repeat split; vm_compute; reflexivity.
Qed.

(** ** C6 *)

(** The rejections that leave the whole session unchanged: any call in a
    terminal phase, a reveal of a revealed or flagged cell once the mines
    are planted, a flag toggle on a revealed cell, and a flag attempt with
    the budget exhausted. *)
Lemma rejections_unchanged (rnd : list (Z * Z)) (s : Session) (r c : Z) :
  (terminal (status s) = true →
   handleReveal rnd s r c = Ok s ∧ handleFlag s r c = Ok s) ∧
  (∀ x, terminal (status s) = false → minesPlanted s = true →
        cellOf (board s) r c = Some x →
        isRevealed x || isFlagged x = true →
        handleReveal rnd s r c = Ok s) ∧
  (∀ x, cellOf (board s) r c = Some x → isRevealed x = true →
        handleFlag s r c = Ok s) ∧
  (∀ x, cellOf (board s) r c = Some x → isFlagged x = false →
        minesOf s - countFlagged (board s) = 0 →
        handleFlag s r c = Ok s).
Proof.
  rewrite handleReveal_unfold, handleFlag_unfold. split_and!.
  - by intros ->.
  - intros x Hterm Hp Hx Hrf. rewrite Hterm. destruct s; simpl_session.
    subst. cbn [negb mbind outcome_bind fst snd]. by rewrite Hx, Hrf.
  - intros x -> ->. by destruct (terminal (status s)).
  - intros x -> -> ->. rewrite bool_decide_eq_true_2 by done.
    destruct (terminal (status s)), (isRevealed x); done.
Qed.

(** The rejection that is not atomic: the first reveal of a session, on a
    flagged cell.  The prior grid is returned, but the mines planted into
    the clone are dropped while [minesPlanted] and the phase have already
    been switched. *)
Lemma first_click_on_flag (rnd : list (Z * Z)) (s : Session) (r c : Z)
    (x : Cell) (nb : Board) :
  reachable s → status s = ready →
  cellOf (board s) r c = Some x → isFlagged x = true →
  plantMines rnd (board s) (rowsOf s) (colsOf s) (minesOf s) r c = Ok nb →
  handleReveal rnd s r c =
    Ok (mkSession (difficulty s) (board s) true playing (revealedCount s) 0).
Proof.
  intros Hinv%reachable_inv Hst Hx Hf Hplant.
  pose proof (config_positive (difficulty s)) as (_ & _ & HM & _).
  assert (minesPlanted s = false) as Hp by (by apply (inv_planted _ Hinv)).
  rewrite handleReveal_unfold, Hst, Hp, Hplant.
  cbn [terminal negb mbind outcome_bind fst snd].
  apply plantMines_spec in Hplant as (_ & _ & Hcells); [|apply Hinv| |].
  - destruct (Hcells r c x Hx) as (x' & -> & _ & Hf' & _).
    rewrite Hf', Hf, orb_true_r. done.
  - intros r' c' y Hy. by apply (inv_ready _ Hinv Hst r' c' y).
  - unfold minesOf. lia.
Qed.

(** A fresh Beginner session in which [(0, 0)] has been flagged. *)
Definition session_flag_first : Session :=
  orElse (handleFlag (freshSession Beginner) 0 0) (freshSession Beginner).

(** C6, the failing case.  A first click on a flagged cell is rejected (the
    grid returned is the prior grid, without mines), yet the call has
    already switched [minesPlanted] to [true] and the phase to [playing]. *)
Theorem first_click_on_flag_not_atomic :
  handleFlag (freshSession Beginner) 0 0 = Ok session_flag_first ∧
  ∃ s', handleReveal draws_example session_flag_first 0 0 = Ok s' ∧
        board s' = board session_flag_first ∧
        countMines (board s') = 0 ∧
        minesPlanted session_flag_first = false ∧ minesPlanted s' = true ∧
        status session_flag_first = ready ∧ status s' = playing.
Proof.
  split; [vm_compute; reflexivity|].
  eexists. split; [vm_compute; reflexivity|].
  repeat split; vm_compute; reflexivity.
Qed.

(** ** C7 *)

(** C7 (flag budget).  In every reachable session [flagsLeft] is not
    negative and at most [mines] cells are flagged.  On an unrevealed cell
    in a non-terminal phase, a flag toggle is a no-op when the cell is
    unflagged and [mines - countFlagged] is 0; otherwise it returns the
    session with that cell's [isFlagged] flipped and every other cell
    untouched. *)
Theorem flag_budget (s : Session) (r c : Z) (x : Cell) :
  reachable s →
  0 ≤ flagsLeft s ∧
  countFlagged (board s) ≤ minesOf s ∧
  (terminal (status s) = false →
   cellOf (board s) r c = Some x → isRevealed x = false →
   (isFlagged x = false → minesOf s - countFlagged (board s) = 0 →
    handleFlag s r c = Ok s) ∧
   (isFlagged x = true ∨ minesOf s - countFlagged (board s) ≠ 0 →
    ∃ s', handleFlag s r c = Ok s' ∧
          cellOf (board s') r c = Some (setFlagged (negb (isFlagged x)) x) ∧
          (∀ r' c', (r', c') ≠ (r, c) →
                    cellOf (board s') r' c' = cellOf (board s) r' c') ∧
          countFlagged (board s') ≤ minesOf s')).
Proof.
  intros Hreach. pose proof (reachable_inv _ Hreach) as Hinv.
  split; [unfold flagsLeft; lia|]. split; [apply Hinv|].
  intros Hterm Hx Hr. split.
  - intros Hf Hzero.
    destruct (rejections_unchanged [] s r c) as (_ & _ & _ & Hrej).
    by apply (Hrej x).
  - intros Hok.
    assert (negb (isFlagged x) &&
            bool_decide (minesOf s - countFlagged (board s) = 0) = false)
      as Hbudget.
    { destruct Hok as [->|Hne]; [done|].
      rewrite bool_decide_eq_false_2 by done. apply andb_false_r. }
    pose proof (handleFlag_unfold s r c) as Hrun.
    rewrite Hterm, Hx, Hr, Hbudget in Hrun.
    eexists. split; [exact Hrun|]. simpl_session. split_and!.
    + apply cellOf_putCell_same. eauto.
    + intros r' c' Hne. apply cellOf_putCell_ne; eauto.
    + assert (sessionInv
        (mkSession (difficulty s)
           (putCell (board s) r c (setFlagged (negb (isFlagged x)) x))
           (minesPlanted s) (status s) (revealedCount s) (seconds s)))
        as Hinv' by (by eapply sessionInv_flag).
      apply (inv_flags _ Hinv').
Qed.

(** Ten flags on the first ten cells of a fresh Beginner grid. *)
Definition session_ten_flags : Session :=
  foldl (λ s '(r, c), orElse (handleFlag s r c) s) (freshSession Beginner)
        [(0,0); (0,1); (0,2); (0,3); (0,4); (0,5); (0,6); (0,7); (0,8); (1,0)].

Lemma reachable_flags (cells : list (Z * Z)) (s : Session) :
  reachable s →
  reachable (foldl (λ s '(r, c), orElse (handleFlag s r c) s) s cells).
Proof.
  revert s. induction cells as [|[r c] cells IH]; intros s Hs; [done|].
  simpl. apply IH. destruct (handleFlag s r c) as [s'| |] eqn:Hrun; try done.
  eapply reachable_step; [done|]. by eapply step_flag.
Qed.

Lemma flag_budget_witness :
  flagsLeft session_ten_flags = 0 ∧
  handleFlag session_ten_flags 1 1 = Ok session_ten_flags.
Proof.
  destruct (flag_budget session_ten_flags 1 1 emptyCell
              (reachable_flags _ _ reachable_init)) as (_ & _ & Hflag).
  split; [vm_compute; reflexivity|].
  apply Hflag; vm_compute; reflexivity.
Defined.

(** ** C3 *)

(** The win test after the defect of C6, in two games in which a first
    click on a flagged cell has left the grid without mines. *)

(** C3 (win condition).  The phase [won] and "every non-mine cell is
    revealed" part in both directions on reachable Beginner sessions whose
    first click fell on a flagged cell.  With ten flags placed, a first
    click on the flagged cell [(0, 0)] and a click on [(4, 4)]: the cascade
    reveals the 71 unflagged cells and the phase is [won], although the
    flagged cell [(0, 0)] is no mine and is unrevealed.  With a flag on
    [(0, 0)], a first click on it, the flag taken off and a click on
    [(4, 4)]: all 81 cells are revealed and none is a mine, 81 is not
    [rows*cols - mines = 71], and the phase is [playing]. *)
Theorem win_test_without_mines :
  (∃ s1 s2,
     handleReveal draws_example session_ten_flags 0 0 = Ok s1 ∧
     handleReveal [] s1 4 4 = Ok s2 ∧
     reachable s2 ∧
     status s2 = won ∧
     countRevealedSafe (board s2) = totalSafe s2 ∧
     cellOf (board s2) 0 0 = Some (mkCell false false true 0) ∧
     ¬ (∀ r c x, cellOf (board s2) r c = Some x → isMine x = false →
                 isRevealed x = true)) ∧
  (∃ s1 s2 s3 s4,
     handleFlag (freshSession Beginner) 0 0 = Ok s1 ∧
     handleReveal draws_example s1 0 0 = Ok s2 ∧
     handleFlag s2 0 0 = Ok s3 ∧
     handleReveal [] s3 4 4 = Ok s4 ∧
     reachable s4 ∧
     (∀ r c x, cellOf (board s4) r c = Some x →
               isMine x = false ∧ isRevealed x = true) ∧
     countRevealedSafe (board s4) = 81 ∧ totalSafe s4 = 71 ∧
     status s4 = playing).
Proof.
  split.
  - eexists. eexists. split; [vm_compute; reflexivity|].
    split; [vm_compute; reflexivity|]. split.
    { eapply reachable_step; [eapply reachable_step|].
      - apply (reachable_flags
          [(0,0); (0,1); (0,2); (0,3); (0,4); (0,5); (0,6); (0,7); (0,8);
           (1,0)] _ reachable_init).
      - apply (step_reveal draws_example 0 0). vm_compute. reflexivity.
      - apply (step_reveal [] 4 4). vm_compute. reflexivity. }
    split; [vm_compute; reflexivity|]. split; [vm_compute; reflexivity|].
    split; [vm_compute; reflexivity|].
    intros Hall. specialize (Hall 0 0 (mkCell false false true 0)).
    discriminate Hall; vm_compute; reflexivity.
  - eexists. eexists. eexists. eexists.
    split; [vm_compute; reflexivity|]. split; [vm_compute; reflexivity|].
    split; [vm_compute; reflexivity|]. split; [vm_compute; reflexivity|].
    split.
    { eapply reachable_step; [eapply reachable_step;
        [eapply reachable_step; [eapply reachable_step|]|]|].
      - apply reachable_init.
      - apply (step_flag 0 0). vm_compute. reflexivity.
      - apply (step_reveal draws_example 0 0). vm_compute. reflexivity.
      - apply (step_flag 0 0). vm_compute. reflexivity.
      - apply (step_reveal [] 4 4). vm_compute. reflexivity. }
    split; [|repeat split; vm_compute; reflexivity].
    intros r c x Hx.
    match type of Hx with
    | cellOf ?b _ _ = _ =>
        assert (Forall (λ y, isMine y = false ∧ isRevealed y = true)
                       (mjoin b)) as Hall
    end.
    { vm_compute. repeat constructor. }
    rewrite Forall_forall in Hall. apply Hall, elem_of_board. eauto.
Qed.

(** ** C8 *)

Lemma plantMines_shape_any (rnd : list (Z * Z)) (s : Session) (r c : Z)
    (nb : Board) :
  sessionInv s → status s = ready →
  plantMines rnd (board s) (rowsOf s) (colsOf s) (minesOf s) r c = Ok nb →
  hasDims (rowsOf s) (colsOf s) nb.
Proof.
  intros Hinv Hst Hrun.
  pose proof (config_positive (difficulty s)) as (_ & _ & HM & _).
  apply plantMines_spec in Hrun as (Hs & _); [| apply Hinv | |].
  - unfold hasDims. rewrite Hs. apply Hinv.
  - intros r' c' y Hy. by apply (inv_ready _ Hinv Hst r' c' y).
  - unfold minesOf. lia.
Qed.

(** C8, as amended (out-of-bounds coordinates).  The handlers have no
    bounds check.  For a coordinate outside the grid of a reachable
    session: in a terminal phase [handleReveal] and [handleFlag] return the
    session unchanged; in phase [ready] or [playing] [handleFlag] raises a
    [TypeError], and [handleReveal] never returns a session: it raises a
    [TypeError] once the mines are planted, and on a first click as soon as
    the planting loop has returned. *)
Theorem out_of_bounds_behaviour (rnd : list (Z * Z)) (s : Session)
    (r c : Z) :
  reachable s →
  inBounds r c (rowsOf s) (colsOf s) = false →
  (terminal (status s) = true →
   handleReveal rnd s r c = Ok s ∧ handleFlag s r c = Ok s) ∧
  (terminal (status s) = false →
   handleFlag s r c = TypeError ∧
   (∀ s', handleReveal rnd s r c ≠ Ok s') ∧
   (status s = playing → handleReveal rnd s r c = TypeError) ∧
   (enoughDraws (rowsOf s) (colsOf s) (minesOf s) r c rnd →
    handleReveal rnd s r c = TypeError)).
Proof.
  intros Hinv%reachable_inv Hout. split.
  { apply (rejections_unchanged rnd s r c). }
  intros Hterm.
  assert (∀ nb, hasDims (rowsOf s) (colsOf s) nb → cellOf nb r c = None)
    as Hnone.
  { intros nb Hd. destruct (cellOf nb r c) as [x|] eqn:Hx; [|done].
    assert (inBounds r c (rowsOf s) (colsOf s) = true); [|congruence].
    apply (hasDims_cellOf _ _ nb); eauto. }
  assert (handleFlag s r c = TypeError) as Hflag.
  { rewrite handleFlag_unfold, Hterm, (Hnone (board s)); [done|apply Hinv]. }
  pose proof (handleReveal_unfold rnd s r c) as Hrun. rewrite Hterm in Hrun.
  destruct (minesPlanted s) eqn:Hp; cbn [negb mbind outcome_bind fst snd]
    in Hrun.
  - rewrite (Hnone (board s)) in Hrun by apply Hinv.
    rewrite Hrun. done.
  - apply (inv_planted _ Hinv) in Hp.
    destruct (plantMines rnd (board s) (rowsOf s) (colsOf s) (minesOf s) r c)
      as [nb| |] eqn:Hplant; cbn [mbind outcome_bind fst snd] in Hrun.
    + rewrite (Hnone nb) in Hrun by (by eapply plantMines_shape_any).
      rewrite Hrun. done.
    + rewrite Hrun. done.
    + rewrite Hrun. split_and!; try done; [congruence|].
      intros Hdraws.
      destruct (plantMines_total rnd (board s) (rowsOf s) (colsOf s)
                  (minesOf s) r c) as [nb Hnb]; [apply Hinv| |done|congruence].
      intros r' c' y Hy. by apply (inv_ready _ Hinv Hp r' c' y).
Qed.

Lemma out_of_bounds_behaviour_witness :
  handleFlag session_playing (-1) 0 = TypeError ∧
  handleReveal [] session_playing (-1) 0 = TypeError ∧
  handleReveal [] session_lost 9 0 = Ok session_lost.
Proof.
  destruct (out_of_bounds_behaviour [] session_playing (-1) 0
              session_playing_reachable eq_refl) as (_ & Hplaying).
  destruct (out_of_bounds_behaviour [] session_lost 9 0
              session_lost_reachable eq_refl) as (Hlost & _).
  destruct Hplaying as (Hflag & _ & Hreveal & _); [vm_compute; reflexivity|].
  split; [exact Hflag|]. split.
  - apply Hreveal. vm_compute. reflexivity.
  - apply Hlost. vm_compute. reflexivity.
Defined.

(** C8 as stated fails: on a fresh session, a flag toggle above the first
    row and a reveal below the last row raise a [TypeError] instead of being
    absorbed as no-ops. *)
Lemma out_of_bounds_crashes :
  inBounds (-1) 0 9 9 = false ∧ inBounds 9 0 9 9 = false ∧
  handleFlag (freshSession Beginner) (-1) 0 = TypeError ∧
  handleReveal draws_example (freshSession Beginner) 9 0 = TypeError.
Proof. repeat split; vm_compute; reflexivity. Qed.

(** ** C10 *)

Lemma putCell_putCell (b : Board) (r c : Z) (y z : Cell) :
  putCell (putCell b r c y) r c z = putCell b r c z.
Proof.
  unfold putCell. destruct (index b r) as [row|] eqn:Hr; [|by rewrite Hr].
  pose proof Hr as [? Hr']%index_Some.
  assert (index (<[Z.to_nat r:=<[Z.to_nat c:=y]> row]> b) r
          = Some (<[Z.to_nat c:=y]> row)) as ->.
  { apply index_Some. split; [done|].
    apply list_lookup_insert_eq. by eapply lookup_lt_Some. }
  by rewrite !list_insert_insert_eq.
Qed.

Lemma putCell_id (b : Board) (r c : Z) (x : Cell) :
  cellOf b r c = Some x → putCell b r c x = b.
Proof.
  unfold cellOf, putCell. destruct (index b r) as [row|] eqn:Hr; [|done].
  intros [_ Hx]%index_Some. apply index_Some in Hr as [_ Hr].
  rewrite (list_insert_id row) by done. by apply list_insert_id.
Qed.

(** C10 (flag toggle round trip).  In a reachable session in a non-terminal
    phase, if a flag toggle on an unrevealed cell changes the grid, then
    toggling the same cell again is accepted as well (removing a flag is
    never blocked by the budget, and re-adding the flag just removed fits
    the budget) and gives back the original session, hence the original
    grid. *)
Theorem flag_toggle_round_trip (s s1 : Session) (r c : Z) (x : Cell) :
  reachable s →
  terminal (status s) = false →
  cellOf (board s) r c = Some x → isRevealed x = false →
  handleFlag s r c = Ok s1 →
  board s1 ≠ board s →
  board s1 = putCell (board s) r c (setFlagged (negb (isFlagged x)) x) ∧
  handleFlag s1 r c = Ok s ∧
  board s = putCell (board s1) r c x.
Proof.
  intros Hinv%reachable_inv Hterm Hx Hr Hrun Hchg.
  rewrite handleFlag_unfold, Hterm, Hx, Hr in Hrun.
  destruct (negb (isFlagged x) && _) eqn:Hbudget.
  { injection Hrun as <-. done. }
  injection Hrun as <-. simpl_session. split; [done|].
  rewrite handleFlag_unfold. simpl_session. rewrite Hterm.
  rewrite cellOf_putCell_same by eauto. cbn [setFlagged isRevealed isFlagged].
  rewrite Hr, negb_involutive.
  assert (isFlagged x &&
          bool_decide (minesOf s - countFlagged
            (putCell (board s) r c (setFlagged (negb (isFlagged x)) x)) = 0)
          = false) as Hbudget2.
  { pose proof (countFlagged_toggle (board s) r c x Hx) as Hcnt.
    destruct (isFlagged x) eqn:Hf; [|done]. cbn [andb].
    apply bool_decide_eq_false. rewrite Hcnt.
    pose proof (inv_flags _ Hinv). lia. }
  unfold minesOf in *. simpl_session. rewrite Hbudget2.
  rewrite !putCell_putCell.
  assert (setFlagged (isFlagged x) (setFlagged (negb (isFlagged x)) x) = x)
    as -> by (by destruct x).
  rewrite putCell_id by done. by destruct s.
Qed.

Lemma flag_toggle_round_trip_witness :
  handleFlag session_flag_first 0 0 = Ok (freshSession Beginner).
Proof.
  apply (flag_toggle_round_trip (freshSession Beginner) session_flag_first
           0 0 emptyCell reachable_init); try (vm_compute; reflexivity).
  vm_compute. discriminate.
Defined.

(** * The algorithms do not depend on the board representation *)

(** Two outcomes that fail alike or return related values. *)
Definition orel {A B : Type} (R : A → B → Prop) (o1 : outcome A)
    (o2 : outcome B) : Prop :=
  match o1, o2 with
  | Ok a, Ok b => R a b
  | TypeError, TypeError => True
  | OutOfFuel, OutOfFuel => True
  | _, _ => False
  end.

Lemma orel_bind {A1 A2 B1 B2 : Type} (R : A1 → A2 → Prop)
    (R' : B1 → B2 → Prop) (m1 : outcome A1) (m2 : outcome A2)
    (f1 : A1 → outcome B1) (f2 : A2 → outcome B2) :
  orel R m1 m2 → (∀ a1 a2, R a1 a2 → orel R' (f1 a1) (f2 a2)) →
  orel R' (m1 ≫= f1) (m2 ≫= f2).
Proof. destruct m1, m2; simpl; try done. auto. Qed.

Lemma orel_eq {A : Type} (o : outcome A) : orel eq o o.
Proof. by destruct o. Qed.

Lemma orel_eq_inv {A : Type} (o1 o2 : outcome A) : orel eq o1 o2 → o1 = o2.
Proof. destruct o1, o2; simpl; try done. by intros ->. Qed.

Lemma foldlM_rel {S1 S2 A : Type} (R : S1 → S2 → Prop)
    (f1 : S1 → A → outcome S1) (f2 : S2 → A → outcome S2) (l : list A) :
  (∀ s1 s2 x, R s1 s2 → orel R (f1 s1 x) (f2 s2 x)) →
  ∀ s1 s2, R s1 s2 → orel R (foldlM f1 s1 l) (foldlM f2 s2 l).
Proof.
  intros Hf. induction l as [|x l IH]; intros s1 s2 HR; simpl; [done|].
  eapply orel_bind; [by apply Hf | done].
Qed.

Section Parametricity.
Context {B1 B2 : Type} `{!BoardOps B1, !BoardOps B2}.
Variable R : B1 → B2 → Prop.
Hypothesis R_read : ∀ b1 b2 r c, R b1 b2 → readCell b1 r c = readCell b2 r c.
Hypothesis R_write : ∀ b1 b2 r c f,
  R b1 b2 → orel R (writeCell b1 r c f) (writeCell b2 r c f).
Hypothesis R_length : ∀ b1 b2, R b1 b2 → boardLength b1 = boardLength b2.
Hypothesis R_first : ∀ b1 b2,
  R b1 b2 → firstRowLength b1 = firstRowLength b2.

Lemma cellAt_rel b1 b2 r c : R b1 b2 → cellAt b1 r c = cellAt b2 r c.
Proof. intros HR. unfold cellAt. by rewrite (R_read b1 b2). Qed.

Lemma plantLoop_rel rnd forb mines :
  ∀ planted b1 b2, R b1 b2 →
  orel R (plantLoop rnd forb mines planted b1)
         (plantLoop rnd forb mines planted b2).
Proof.
  induction rnd as [|[r c] rnd IH]; intros planted b1 b2 HR; simpl;
    case_decide; try done.
  destruct (has (r, c) forb); [by apply IH|].
  rewrite (cellAt_rel b1 b2) by done.
  destruct (cellAt b2 r c) as [cell| |]; simpl; try done.
  destruct (isMine cell); [by apply IH|].
  eapply orel_bind; [by apply R_write|]. intros. by apply IH.
Qed.

Lemma countNeighborMines_rel rows cols b1 b2 r c :
  R b1 b2 →
  countNeighborMines rows cols b1 r c = countNeighborMines rows cols b2 r c.
Proof.
  intros HR. unfold countNeighborMines. apply orel_eq_inv.
  apply foldlM_rel; [|done]. intros cnt ? [nr nc] <-.
  rewrite (cellAt_rel b1 b2) by done. apply orel_eq.
Qed.

Lemma countPass_rel rows cols b1 b2 :
  R b1 b2 → orel R (countPass rows cols b1) (countPass rows cols b2).
Proof.
  intros HR. unfold countPass. apply foldlM_rel; [|done].
  intros s1 s2 r HR1. apply foldlM_rel; [|done].
  intros s3 s4 c HR2. unfold countStep.
  rewrite (cellAt_rel s3 s4) by done.
  destruct (cellAt s4 r c) as [cell| |]; simpl; try done.
  destruct (isMine cell); [done|].
  rewrite (countNeighborMines_rel rows cols s3 s4) by done.
  destruct (countNeighborMines rows cols s4 r c); simpl; try done.
  by apply R_write.
Qed.

Lemma plantMines_rel rnd b1 b2 rows cols mines safeR safeC :
  R b1 b2 →
  orel R (plantMines rnd b1 rows cols mines safeR safeC)
         (plantMines rnd b2 rows cols mines safeR safeC).
Proof.
  intros HR. unfold plantMines.
  eapply orel_bind; [by apply plantLoop_rel|].
  intros. by apply countPass_rel.
Qed.

(** Related loop states of [floodReveal]. *)
Definition floodRel (st1 : list (Z * Z) * KeySet * B1)
    (st2 : list (Z * Z) * KeySet * B2) : Prop :=
  st1.1 = st2.1 ∧ R st1.2 st2.2.

Lemma floodVisit_rel rows cols st1 st2 n :
  floodRel st1 st2 →
  orel floodRel (floodVisit rows cols st1 n) (floodVisit rows cols st2 n).
Proof.
  destruct st1 as [[q seen] b1], st2 as [[q2 seen2] b2], n as [nr nc].
  intros [[= <- <-] HR]. simpl in HR. unfold floodVisit.
  destruct (negb (inBounds nr nc rows cols)); [by split|].
  rewrite (R_read b1 b2) by done.
  destruct (readCell b2 nr nc) as [o| |]; simpl; try done.
  destruct (has (nr, nc) seen); [by split|].
  destruct (deref o) as [cell| |]; simpl; try done.
  destruct (isRevealed cell); [by split|].
  destruct (isFlagged cell); [by split|].
  destruct (isMine cell); [by split|].
  eapply orel_bind; [by apply R_write|]. intros b1' b2' HR'. by split.
Qed.

Lemma floodLoop_rel fuel rows cols :
  ∀ q seen b1 b2, R b1 b2 →
  orel R (floodLoop fuel rows cols q seen b1)
         (floodLoop fuel rows cols q seen b2).
Proof.
  induction fuel as [|fuel IH]; intros q seen b1 b2 HR;
    destruct q as [|[r c] q]; cbn [floodLoop]; try done.
  eapply orel_bind; [by apply R_write|]. intros b1' b2' HR'.
  rewrite (cellAt_rel b1' b2') by done.
  destruct (cellAt b2' r c) as [cell| |]; cbn [mbind outcome_bind];
    try done.
  case_decide; [|by apply IH].
  eapply orel_bind.
  - apply (foldlM_rel floodRel); [intros; by apply floodVisit_rel|].
    by split.
  - intros [[q1 seen1] b1''] [[q2 seen2] b2''] [[= <- <-] HR''].
    by apply IH.
Qed.

Lemma floodReveal_rel b1 b2 r c :
  R b1 b2 → orel R (floodReveal b1 r c) (floodReveal b2 r c).
Proof.
  intros HR. unfold floodReveal.
  rewrite (R_length b1 b2), (R_first b1 b2) by done.
  destruct (firstRowLength b2) as [cols| |]; cbn [mbind outcome_bind];
    try done.
  by apply floodLoop_rel.
Qed.
End Parametricity.

(** * Facts about the heap model *)

Module HeapFacts.
Import Heap.
#[local] Existing Instance HBoard_ops.

(** ** Allocation never touches an existing object *)

Definition untouched (st st' : Store) : Prop :=
  (next st ≤ next st')%nat ∧
  ∀ l, (l < next st)%nat → obj st' l = obj st l.

Lemma untouched_refl (st : Store) : untouched st st.
Proof. by split. Qed.

Lemma untouched_trans (st1 st2 st3 : Store) :
  untouched st1 st2 → untouched st2 st3 → untouched st1 st3.
Proof.
  intros [Hn1 Ho1] [Hn2 Ho2]. split; [lia|].
  intros l Hl. rewrite Ho2 by lia. by apply Ho1.
Qed.

Lemma untouched_alloc (st : Store) (x : Cell) :
  untouched st (alloc st x).1.
Proof.
  split; simpl; [lia|]. intros l Hl. rewrite decide_False; [done|lia].
Qed.

(** The value [row.map] leaves at a position whose cell was [x]. *)
Definition mapped (g : Cell → option Cell) (x : Cell) : Cell :=
  default x (g x).

Lemma mapRow_spec (g : Cell → option Cell) (row : list nat) :
  ∀ st st' row',
  mapRow g st row = (st', row') →
  (∀ l, l ∈ row → (l < next st)%nat) →
  untouched st st' ∧
  obj st' <$> row' = (λ l, mapped g (obj st l)) <$> row ∧
  (∀ l, l ∈ row' →
        (l < next st')%nat ∧ (l ∈ row ∨ (next st ≤ l)%nat)) ∧
  ((∀ x, is_Some (g x)) →
   NoDup row' ∧ ∀ l, l ∈ row' → (next st ≤ l)%nat).
Proof.
  induction row as [|l row IH]; intros st st' row' Hrun Hvalid;
    simpl in Hrun.
  { injection Hrun as <- <-. split; [apply untouched_refl|].
    split; [done|]. split; [by intros ? ?%elem_of_nil|].
    intros _. split; [constructor | by intros ? ?%elem_of_nil]. }
  destruct (match g (obj st l) with
            | Some y => alloc st y
            | None => (st, l)
            end) as [st1 l1] eqn:Hhead.
  destruct (mapRow g st1 row) as [st2 out] eqn:Htail.
  injection Hrun as <- <-.
  assert (untouched st st1 ∧ obj st1 l1 = mapped g (obj st l) ∧
          (l1 < next st1)%nat ∧ (l1 = l ∨ l1 = next st) ∧
          (is_Some (g (obj st l)) →
           l1 = next st ∧ next st1 = S (next st)))
    as (Hu1 & Hl1 & Hlt1 & Hor1 & Htot1).
  { unfold mapped. destruct (g (obj st l)) as [y|] eqn:Hg.
    - injection Hhead as <- <-. split; [apply untouched_alloc|]. simpl.
      rewrite decide_True by done. split_and!; auto; lia.
    - injection Hhead as <- <-. split; [apply untouched_refl|].
      split; [done|]. split; [apply Hvalid; by left|].
      split; [by left|]. by intros [? ?]. }
  destruct (IH st1 st2 out Htail) as (Hu2 & Hsnap & Hrefs & Htot).
  { intros l' Hl'. destruct Hu1 as [Hn _].
    specialize (Hvalid l' ltac:(by right)). lia. }
  pose proof Hu1 as [Hn1 Ho1]. pose proof Hu2 as [Hn2 Ho2].
  split; [by eapply untouched_trans|]. split_and!.
  - rewrite !fmap_cons. f_equal.
    + rewrite Ho2 by done. done.
    + rewrite Hsnap. apply list_fmap_ext. intros _ l' Hl'%list_elem_of_lookup_2.
      rewrite Ho1; [done|]. apply Hvalid. by right.
  - intros l' [->|Hl']%elem_of_cons.
    + split; [lia|]. destruct Hor1 as [->| ->]; [left; by left|right; lia].
    + destruct (Hrefs l' Hl') as [? [?|?]].
      * split; [done|]. left. by right.
      * split; [done|]. right. lia.
  - intros Hg. destruct (Htot Hg) as [Hnd Hfresh].
    destruct (Htot1 (Hg _)) as [-> Hn].
    split.
    + constructor; [|done]. intros Hin%Hfresh. lia.
    + intros l' [->|Hl']%elem_of_cons; [lia|].
      specialize (Hfresh l' Hl'). lia.
Qed.

Lemma mapRows_spec (g : Cell → option Cell) (rows : list (list nat)) :
  ∀ st st' rows',
  mapRows g st rows = (st', rows') →
  (∀ l, l ∈ mjoin rows → (l < next st)%nat) →
  untouched st st' ∧
  snapshot st' rows' = mapBoard (mapped g) (snapshot st rows) ∧
  (∀ l, l ∈ mjoin rows' →
        (l < next st')%nat ∧ (l ∈ mjoin rows ∨ (next st ≤ l)%nat)) ∧
  ((∀ x, is_Some (g x)) →
   NoDup (mjoin rows') ∧ ∀ l, l ∈ mjoin rows' → (next st ≤ l)%nat).
Proof.
  induction rows as [|row rows IH]; intros st st' rows' Hrun Hvalid;
    simpl in Hrun.
  { injection Hrun as <- <-. split; [apply untouched_refl|].
    split; [done|]. split; [by intros ? ?%elem_of_nil|].
    intros _. split; [constructor | by intros ? ?%elem_of_nil]. }
  destruct (mapRow g st row) as [st1 row1] eqn:Hhead.
  destruct (mapRows g st1 rows) as [st2 out] eqn:Htail.
  injection Hrun as <- <-.
  destruct (mapRow_spec g row st st1 row1 Hhead)
    as (Hu1 & Hsnap1 & Hrefs1 & Htot1).
  { intros l Hl. apply Hvalid. simpl. apply elem_of_app. by left. }
  pose proof Hu1 as [Hn1 Ho1].
  destruct (IH st1 st2 out Htail) as (Hu2 & Hsnap & Hrefs & Htot).
  { intros l Hl. specialize (Hvalid l). simpl in Hvalid.
    rewrite elem_of_app in Hvalid. specialize (Hvalid ltac:(by right)).
    lia. }
  pose proof Hu2 as [Hn2 Ho2].
  split; [by eapply untouched_trans|]. split_and!.
  - unfold snapshot, mapBoard in *. rewrite !fmap_cons. f_equal.
    + transitivity (obj st1 <$> row1).
      * apply list_fmap_ext. intros _ l Hl%list_elem_of_lookup_2.
        apply Ho2. by apply Hrefs1.
      * rewrite Hsnap1. by rewrite <- list_fmap_compose.
    + rewrite Hsnap. f_equal. apply list_fmap_ext.
      intros _ row0 Hrow0%list_elem_of_lookup_2. apply list_fmap_ext.
      intros _ l Hl%list_elem_of_lookup_2.
      apply Ho1, Hvalid. simpl. apply elem_of_app. right.
      apply list_elem_of_join. eauto.
  - intros l. simpl. rewrite !elem_of_app. intros [Hl|Hl].
    + destruct (Hrefs1 l Hl) as [? ?]. split; [lia|]. tauto.
    + destruct (Hrefs l Hl) as [? [?|?]]; split; try done; [tauto|].
      right. lia.
  - intros Hg. destruct (Htot1 Hg) as [Hnd1 Hfresh1].
    destruct (Htot Hg) as [Hnd Hfresh]. simpl. split.
    + apply NoDup_app. split; [done|]. split; [|done].
      intros l Hl1 Hl2%Hfresh. destruct (Hrefs1 l Hl1). lia.
    + intros l [Hl|Hl]%elem_of_app; [by apply Hfresh1|].
      specialize (Hfresh l Hl). lia.
Qed.

(** ** Boards of references against boards of values *)

Lemma index_fmap {A B : Type} (f : A → B) (l : list A) (i : Z) :
  index (f <$> l) i = f <$> index l i.
Proof. unfold index. case_decide; [done|]. apply list_lookup_fmap. Qed.

(** The reference stored at [(r, c)]. *)
Definition refAt (rows : list (list nat)) (r c : Z) : option nat :=
  match index rows r with
  | Some row => index row c
  | None => None
  end.

Lemma cellOf_snapshot (st : Store) (rows : list (list nat)) (r c : Z) :
  cellOf (snapshot st rows) r c = obj st <$> refAt rows r c.
Proof.
  unfold cellOf, snapshot, refAt. rewrite index_fmap.
  destruct (index rows r) as [row|]; simpl; [|done]. apply index_fmap.
Qed.

Lemma index_snapshot (st : Store) (rows : list (list nat)) (r : Z) :
  index (snapshot st rows) r = (λ row : list nat, obj st <$> row) <$> index rows r.
Proof. apply index_fmap. Qed.

Lemma shape_snapshot (st : Store) (rows : list (list nat)) :
  shape (snapshot st rows) = length <$> rows.
Proof.
  unfold shape, snapshot. rewrite <- list_fmap_compose.
  apply list_fmap_ext. intros _ row _. simpl. apply length_fmap.
Qed.

Lemma join_lookup_inj {A : Type} (ls : list (list A)) :
  NoDup (mjoin ls) →
  ∀ i j i' j' row row' x,
  ls !! i = Some row → row !! j = Some x →
  ls !! i' = Some row' → row' !! j' = Some x →
  i = i' ∧ j = j'.
Proof.
  induction ls as [|l0 ls IH]; intros Hnd i j i' j' row row' x Hi Hj Hi' Hj';
    [done|].
  simpl in Hnd. apply NoDup_app in Hnd as (Hnd0 & Hdisj & Hnd).
  destruct i as [|i], i' as [|i']; simplify_eq/=.
  - split; [done|]. exact (NoDup_lookup row j j' x Hnd0 Hj Hj').
  - exfalso. apply (Hdisj x); [by eapply list_elem_of_lookup_2|].
    apply list_elem_of_join. exists row'.
    split; by eapply list_elem_of_lookup_2.
  - exfalso. apply (Hdisj x); [by eapply list_elem_of_lookup_2|].
    apply list_elem_of_join. exists row.
    split; by eapply list_elem_of_lookup_2.
  - destruct (IH Hnd i j i' j' row row' x) as [-> ->]; done.
Qed.

Lemma refAt_inj (rows : list (list nat)) (r c r' c' : Z) (l : nat) :
  NoDup (mjoin rows) →
  refAt rows r c = Some l → refAt rows r' c' = Some l →
  r = r' ∧ c = c'.
Proof.
  unfold refAt. intros Hnd H1 H2.
  destruct (index rows r) as [row|] eqn:Hr; [|done].
  destruct (index rows r') as [row'|] eqn:Hr'; [|done].
  apply index_Some in Hr as [? Hr], Hr' as [? Hr'].
  apply index_Some in H1 as [? H1], H2 as [? H2].
  destruct (join_lookup_inj rows Hnd _ _ _ _ _ _ _ Hr H1 Hr' H2). lia.
Qed.

Lemma refAt_elem_of (rows : list (list nat)) (r c : Z) (l : nat) :
  refAt rows r c = Some l → l ∈ mjoin rows.
Proof.
  unfold refAt. destruct (index rows r) as [row|] eqn:Hr; [|done].
  intros [_ Hl]%index_Some. apply index_Some in Hr as [_ Hr].
  apply list_elem_of_join. exists row.
  split; by eapply list_elem_of_lookup_2.
Qed.

Lemma board_ext (b b' : Board) :
  shape b = shape b' → (∀ r c, cellOf b r c = cellOf b' r c) → b = b'.
Proof.
  intros Hs Hc. apply list_eq. intros i.
  assert (length <$> b !! i = length <$> b' !! i) as Hl.
  { rewrite <- !list_lookup_fmap. unfold shape in Hs. by rewrite Hs. }
  destruct (b !! i) as [row|] eqn:Hi, (b' !! i) as [row'|] eqn:Hi';
    try done.
  f_equal. apply list_eq. intros j.
  specialize (Hc (Z.of_nat i) (Z.of_nat j)).
  by rewrite !cellOf_nat, Hi, Hi' in Hc.
Qed.

Lemma snapshot_update (st : Store) (rows : list (list nat)) (r c : Z)
    (l : nat) (f : Cell → Cell) :
  NoDup (mjoin rows) → refAt rows r c = Some l →
  snapshot (update st l f) rows
  = putCell (snapshot st rows) r c (f (obj st l)).
Proof.
  intros Hnd Hl. apply board_ext.
  { by rewrite shape_putCell, !shape_snapshot. }
  intros r' c'.
  rewrite cellOf_putCell by (rewrite cellOf_snapshot, Hl; simpl; eauto).
  rewrite !cellOf_snapshot. case_decide as Heq.
  - destruct Heq as [-> ->]. rewrite Hl. simpl.
    by rewrite decide_True.
  - destruct (refAt rows r' c') as [l'|] eqn:Hl'; [|done]. simpl.
    rewrite decide_False; [done|]. intros ->.
    destruct (refAt_inj rows r' c' r c l Hnd Hl' Hl). tauto.
Qed.

Section Rel.
Variables (n0 : nat) (stA : Store) (refs0 : list (list nat)).
Hypothesis Hnd : NoDup (mjoin refs0).
Hypothesis Hfresh : ∀ l, l ∈ mjoin refs0 → (n0 ≤ l)%nat.

(** [hb] is the board [refs0] over a store that agrees with [stA] on
    the objects older than [n0], and it shows the cell values [pb]. *)
Definition Rel (hb : HBoard) (pb : Board) : Prop :=
  refs hb = refs0 ∧ next (store hb) = next stA ∧
  (∀ l, (l < n0)%nat → obj (store hb) l = obj stA l) ∧
  snapshot (store hb) refs0 = pb.

Lemma Rel_read hb pb r c :
  Rel hb pb → readCell hb r c = readCell pb r c.
Proof.
  intros (Hrefs & _ & _ & <-). simpl.
  unfold H_readCell, Board_readCell.
  rewrite Hrefs, index_snapshot.
  destruct (index refs0 r) as [row|]; simpl; [|done].
  by rewrite index_fmap.
Qed.

Lemma Rel_write hb pb r c f :
  Rel hb pb → orel Rel (writeCell hb r c f) (writeCell pb r c f).
Proof.
  intros (Hrefs & Hnext & Hold & <-). simpl.
  unfold H_writeCell, Board_writeCell.
  rewrite Hrefs, index_snapshot.
  destruct (index refs0 r) as [row|] eqn:Hr; simpl; [|done].
  rewrite index_fmap.
  destruct (index row c) as [l|] eqn:Hl; simpl; [|done].
  assert (refAt refs0 r c = Some l) as Hat
    by (unfold refAt; by rewrite Hr).
  split; [done|]. split; [done|]. split.
  - intros l' Hl'. simpl. rewrite decide_False; [by apply Hold|].
    intros ->. apply refAt_elem_of, Hfresh in Hat. lia.
  - simpl. rewrite (snapshot_update _ _ r c) by done.
    unfold putCell. rewrite index_snapshot, Hr. done.
Qed.

Lemma Rel_length hb pb : Rel hb pb → boardLength hb = boardLength pb.
Proof.
  intros (Hrefs & _ & _ & <-). simpl. unfold snapshot.
  by rewrite Hrefs, length_fmap.
Qed.

Lemma Rel_first hb pb : Rel hb pb → firstRowLength hb = firstRowLength pb.
Proof.
  intros (Hrefs & _ & _ & <-). simpl.
  rewrite Hrefs, index_snapshot.
  destruct (index refs0 0) as [row|]; simpl; [|done].
  by rewrite length_fmap.
Qed.

Lemma plantMines_Rel rnd hb pb rows cols mines safeR safeC :
  Rel hb pb →
  orel Rel (plantMines rnd hb rows cols mines safeR safeC)
           (plantMines rnd pb rows cols mines safeR safeC).
Proof.
  apply plantMines_rel; auto using Rel_read, Rel_write.
Qed.

Lemma floodReveal_Rel hb pb r c :
  Rel hb pb → orel Rel (floodReveal hb r c) (floodReveal pb r c).
Proof.
  apply floodReveal_rel;
    auto using Rel_read, Rel_write, Rel_length, Rel_first.
Qed.
End Rel.

End HeapFacts.

(** * The heap handlers refine the value handlers and never write to an
      existing object *)

#[local] Existing Instance Heap.HBoard_ops.

(** How the session [hs'] returned by a handler relates to the session
    [hs] it was called on and to the value-level result [s']: all its
    references are allocated, it shows [s'], no object that existed before
    the call has changed, and its grid is either the prior grid itself or
    made of objects allocated during the call. *)
Definition refinesFrom (hs hs' : Heap.HSession) (s' : Session) : Prop :=
  Heap.wellFormed hs' ∧
  Heap.view hs' = s' ∧
  HeapFacts.untouched (Heap.h_store hs) (Heap.h_store hs') ∧
  (Heap.h_board hs' = Heap.h_board hs ∨
   ∀ l, l ∈ mjoin (Heap.h_board hs') →
        (Heap.next (Heap.h_store hs) ≤ l)%nat).

Lemma mapBoard_ext (g g' : Cell → Cell) (b : Board) :
  (∀ x, g x = g' x) → mapBoard g b = mapBoard g' b.
Proof.
  intros Hg. unfold mapBoard. apply list_fmap_ext. intros _ row _.
  apply list_fmap_ext. intros _ x _. apply Hg.
Qed.

Lemma mapBoard_id (b : Board) : mapBoard (λ x, x) b = b.
Proof.
  unfold mapBoard. rewrite <- (list_fmap_id b) at 2.
  apply list_fmap_ext. intros _ row _. apply list_fmap_id.
Qed.

Section AfterClone.
Variables (hs : Heap.HSession) (st0 : Heap.Store)
          (next0 : list (list nat)).
Hypothesis Hwf : Heap.wellFormed hs.
Hypothesis Hclone :
  Heap.cloneBoard (Heap.h_store hs) (Heap.h_board hs) = (st0, next0).

Let n0 : nat := Heap.next (Heap.h_store hs).
Let prev : Board := Heap.snapshot (Heap.h_store hs) (Heap.h_board hs).

Lemma clone_facts :
  HeapFacts.untouched (Heap.h_store hs) st0 ∧
  Heap.snapshot st0 next0 = prev ∧
  NoDup (mjoin next0) ∧
  (∀ l, l ∈ mjoin next0 → (n0 ≤ l < Heap.next st0)%nat).
Proof.
  destruct (HeapFacts.mapRows_spec Heap.copyCell (Heap.h_board hs)
              (Heap.h_store hs) st0 next0 Hclone Hwf)
    as (Hu & Hsnap & Hrefs & Htot).
  destruct Htot as [Hnd Hfresh]; [by eexists|].
  split; [done|]. split_and!; try done.
  - rewrite Hsnap. unfold prev.
    rewrite (mapBoard_ext _ (λ x, x)); [apply mapBoard_id|].
    by intros [].
  - intros l Hl. split; [by apply Hfresh | by apply Hrefs].
Qed.

Lemma clone_Rel :
  HeapFacts.Rel n0 st0 next0 (Heap.mkHBoard st0 next0) prev.
Proof.
  destruct clone_facts as (_ & Hsnap & _). by split_and!.
Qed.

(** Returning the prior grid. *)
Lemma refines_prev (hb : Heap.HBoard) (pb : Board) d p st rc sec :
  HeapFacts.Rel n0 st0 next0 hb pb →
  refinesFrom hs
    (Heap.mkHSession (Heap.store hb) d (Heap.h_board hs) p st rc sec)
    (mkSession d prev p st rc sec).
Proof.
  intros (Hrefs & Hnext & Hold & Hsnap).
  destruct clone_facts as ([Hn Ho] & _).
  assert (∀ l, (l < n0)%nat →
            Heap.obj (Heap.store hb) l = Heap.obj (Heap.h_store hs) l)
    as Hsame by (intros l Hl; rewrite Hold by done; by apply Ho).
  split_and!; simpl.
  - intros l Hl%Hwf. unfold Heap.wellFormed. simpl. lia.
  - unfold Heap.view. simpl. f_equal. unfold prev, Heap.snapshot.
    apply list_fmap_ext. intros _ row Hrow%list_elem_of_lookup_2.
    apply list_fmap_ext. intros _ l Hl%list_elem_of_lookup_2.
    apply Hsame, Hwf. apply list_elem_of_join. eauto.
  - split; [lia|done].
  - by left.
Qed.

(** Returning the mutated clone. *)
Lemma refines_next (hb : Heap.HBoard) (pb : Board) d p st rc sec :
  HeapFacts.Rel n0 st0 next0 hb pb →
  refinesFrom hs
    (Heap.mkHSession (Heap.store hb) d (Heap.refs hb) p st rc sec)
    (mkSession d pb p st rc sec).
Proof.
  intros (Hrefs & Hnext & Hold & Hsnap).
  destruct clone_facts as ([Hn Ho] & _ & _ & Hfresh).
  split_and!; simpl.
  - intros l. unfold Heap.wellFormed. simpl. rewrite Hrefs, Hnext.
    intros Hl%Hfresh. lia.
  - unfold Heap.view. simpl. by rewrite Hrefs, Hsnap.
  - split; [lia|]. intros l Hl. rewrite Hold by done. by apply Ho.
  - right. rewrite Hrefs. intros l Hl%Hfresh. lia.
Qed.

(** Returning [next.map(row => row.map(...))] of the mutated clone. *)
Lemma refines_map (g : Cell → option Cell) (hb : Heap.HBoard) (pb : Board)
    (st2 : Heap.Store) (next2 : list (list nat)) d p st rc sec :
  HeapFacts.Rel n0 st0 next0 hb pb →
  Heap.mapRows g (Heap.store hb) (Heap.refs hb) = (st2, next2) →
  refinesFrom hs
    (Heap.mkHSession st2 d next2 p st rc sec)
    (mkSession d (mapBoard (HeapFacts.mapped g) pb) p st rc sec).
Proof.
  intros (Hrefs & Hnext & Hold & Hsnap) Hmap.
  destruct clone_facts as ([Hn Ho] & _ & _ & Hfresh).
  destruct (HeapFacts.mapRows_spec g _ _ _ _ Hmap)
    as ([Hn2 Ho2] & Hsnap2 & Hrefs2 & _).
  { rewrite Hrefs, Hnext. intros l Hl%Hfresh. lia. }
  split_and!; simpl.
  - intros l Hl. by apply Hrefs2.
  - unfold Heap.view. simpl. by rewrite Hsnap2, Hrefs, Hsnap.
  - split; [lia|]. intros l Hl.
    rewrite Ho2 by lia. rewrite Hold by done. by apply Ho.
  - right. intros l Hl. destruct (Hrefs2 l Hl) as [_ [Hin|?]]; [|lia].
    rewrite Hrefs in Hin. apply Hfresh in Hin. lia.
Qed.
End AfterClone.

Lemma revealAllMines_mapped (b : Board) :
  revealAllMines b = mapBoard (HeapFacts.mapped Heap.revealMine) b.
Proof.
  apply (mapBoard_ext (λ cel, if isMine cel then setRevealed true cel
                              else cel)).
  intros x. unfold HeapFacts.mapped, Heap.revealMine. by destruct (isMine x).
Qed.

Lemma flagAllMines_mapped (b : Board) :
  flagAllMines b = mapBoard (HeapFacts.mapped Heap.flagMine) b.
Proof.
  apply (mapBoard_ext (λ cel, if isMine cel then setFlagged true cel
                              else cel)).
  intros x. unfold HeapFacts.mapped, Heap.flagMine. by destruct (isMine x).
Qed.

(** [Heap.handleReveal] does to the values shown what [handleReveal] does to
    a board value, and fails alike. *)
Theorem handleReveal_refines (rnd : list (Z * Z)) (hs : Heap.HSession)
    (r c : Z) :
  Heap.wellFormed hs →
  orel (refinesFrom hs) (Heap.handleReveal rnd hs r c)
       (handleReveal rnd (Heap.view hs) r c).
Proof.
  intros Hwf. unfold Heap.handleReveal, handleReveal.
  cbn [Heap.view board status minesPlanted difficulty revealedCount seconds].
  destruct (terminal (Heap.h_status hs)).
  { simpl. split_and!; [done | done | apply HeapFacts.untouched_refl | by left]. }
  rewrite cloneBoard_id.
  destruct (Heap.cloneBoard (Heap.h_store hs) (Heap.h_board hs))
    as [st0 next0] eqn:Hclone.
  pose proof (clone_Rel hs st0 next0 Hwf Hclone) as HR.
  destruct (clone_facts hs st0 next0 Hwf Hclone) as (_ & _ & Hnd & Hfresh).
  set (n0 := Heap.next (Heap.h_store hs)) in *.
  assert (∀ l, l ∈ mjoin next0 → (n0 ≤ l)%nat) as Hfresh'
    by (intros l Hl%Hfresh; lia).
  set (R := HeapFacts.Rel n0 st0 next0) in *.
  pose proof (HeapFacts.Rel_read n0 st0 next0) as Hread.
  pose proof (HeapFacts.Rel_write n0 st0 next0 Hnd Hfresh') as Hwrite.
  eapply (orel_bind
    (λ t1 t2, R t1.1.1.1 t2.1.1.1 ∧ t1.1.1.2 = t2.1.1.2 ∧
              t1.1.2 = t2.1.2 ∧ t1.2 = t2.2)).
  { destruct (negb (Heap.h_minesPlanted hs)); [|by simpl].
    eapply orel_bind; [by apply HeapFacts.plantMines_Rel|].
    intros hb pb HRb. by simpl. }
  intros [[[hb p1] s1] sec1] [[[pb p2] s2] sec2] (HRb & Hp & Hs & Hsec).
  simpl in HRb, Hp, Hs, Hsec. subst p2 s2 sec2.
  rewrite (cellAt_rel R Hread hb pb) by done.
  destruct (cellAt pb r c) as [cell| |]; cbn [mbind outcome_bind]; try done.
  destruct (isRevealed cell || isFlagged cell).
  { by apply (refines_prev hs st0 next0 Hwf Hclone hb pb). }
  destruct (isMine cell).
  { destruct (Heap.mapRows Heap.revealMine (Heap.store hb) (Heap.refs hb))
      as [st2 next2] eqn:Hmap.
    rewrite revealAllMines_mapped.
    by apply (refines_map hs st0 next0 Hwf Hclone Heap.revealMine hb). }
  eapply (orel_bind R).
  { destruct (decide (count cell = 0));
      [by apply HeapFacts.floodReveal_Rel | by apply Hwrite]. }
  intros hb' pb' HRb'.
  assert (Heap.snapshot (Heap.store hb') (Heap.refs hb') = pb') as ->.
  { destruct HRb' as (-> & _ & _ & <-). done. }
  destruct (decide (countRevealedSafe pb' = _)).
  - destruct (Heap.mapRows Heap.flagMine (Heap.store hb') (Heap.refs hb'))
      as [st3 next3] eqn:Hmap.
    rewrite flagAllMines_mapped.
    by apply (refines_map hs st0 next0 Hwf Hclone Heap.flagMine hb').
  - by apply (refines_next hs st0 next0 Hwf Hclone).
Qed.

(** [Heap.handleFlag] against [handleFlag]. *)
Theorem handleFlag_refines (hs : Heap.HSession) (r c : Z) :
  Heap.wellFormed hs →
  orel (refinesFrom hs) (Heap.handleFlag hs r c)
       (handleFlag (Heap.view hs) r c).
Proof.
  intros Hwf. unfold Heap.handleFlag, handleFlag, minesOf.
  cbn [Heap.view board status minesPlanted difficulty revealedCount seconds].
  destruct (terminal (Heap.h_status hs)).
  { simpl. split_and!; [done | done | apply HeapFacts.untouched_refl | by left]. }
  rewrite cloneBoard_id.
  destruct (Heap.cloneBoard (Heap.h_store hs) (Heap.h_board hs))
    as [st0 next0] eqn:Hclone.
  pose proof (clone_Rel hs st0 next0 Hwf Hclone) as HR.
  destruct (clone_facts hs st0 next0 Hwf Hclone) as (_ & _ & Hnd & Hfresh).
  set (n0 := Heap.next (Heap.h_store hs)) in *.
  assert (∀ l, l ∈ mjoin next0 → (n0 ≤ l)%nat) as Hfresh'
    by (intros l Hl%Hfresh; lia).
  set (R := HeapFacts.Rel n0 st0 next0) in *.
  pose proof (HeapFacts.Rel_read n0 st0 next0) as Hread.
  pose proof (HeapFacts.Rel_write n0 st0 next0 Hnd Hfresh') as Hwrite.
  rewrite (cellAt_rel R Hread _ _ r c HR).
  destruct (cellAt _ r c) as [cell| |]; cbn [mbind outcome_bind]; try done.
  pose proof (refines_prev hs st0 next0 Hwf Hclone _ _
                (Heap.h_difficulty hs) (Heap.h_minesPlanted hs)
                (Heap.h_status hs) (Heap.h_revealedCount hs)
                (Heap.h_seconds hs) HR) as Hprev.
  destruct (isRevealed cell); [exact Hprev|].
  destruct (negb (isFlagged cell) && _); [exact Hprev|].
  eapply (orel_bind R); [by apply Hwrite|].
  intros hb' pb' HRb'. by apply (refines_next hs st0 next0 Hwf Hclone).
Qed.

Lemma makeRow_spec (n : nat) :
  ∀ st st' row, Heap.makeRow st n = (st', row) →
  HeapFacts.untouched st st' ∧
  (∀ l, l ∈ row → (Heap.next st ≤ l < Heap.next st')%nat) ∧
  Heap.obj st' <$> row = replicate n emptyCell.
Proof.
  induction n as [|n IH]; intros st st' row Hrun; simpl in Hrun.
  { injection Hrun as <- <-. split; [apply HeapFacts.untouched_refl|].
    split; [by intros ? ?%elem_of_nil | done]. }
  destruct (Heap.makeRow _ n) as [st2 out] eqn:Htail.
  injection Hrun as <- <-.
  destruct (IH _ _ _ Htail) as (Hu & Hrefs & Hsnap).
  pose proof (HeapFacts.untouched_alloc st emptyCell) as Hu1.
  pose proof Hu as [Hn Ho]. simpl in Hn, Ho.
  split; [by eapply HeapFacts.untouched_trans|]. split.
  - intros l [->|Hl]%elem_of_cons; [lia|].
    specialize (Hrefs l Hl). simpl in Hrefs. lia.
  - simpl. f_equal; [|done]. rewrite Ho by lia. by rewrite decide_True.
Qed.

Lemma makeRows_spec (m n : nat) :
  ∀ st st' rows, Heap.makeRows st n m = (st', rows) →
  HeapFacts.untouched st st' ∧
  (∀ l, l ∈ mjoin rows → (Heap.next st ≤ l < Heap.next st')%nat) ∧
  Heap.snapshot st' rows = replicate n (replicate m emptyCell).
Proof.
  induction n as [|n IH]; intros st st' rows Hrun; simpl in Hrun.
  { injection Hrun as <- <-. split; [apply HeapFacts.untouched_refl|].
    split; [by intros ? ?%elem_of_nil | done]. }
  destruct (Heap.makeRow st m) as [st1 row] eqn:Hhead.
  destruct (Heap.makeRows st1 n m) as [st2 out] eqn:Htail.
  injection Hrun as <- <-.
  destruct (makeRow_spec m _ _ _ Hhead) as (Hu1 & Hrefs1 & Hsnap1).
  destruct (IH _ _ _ Htail) as (Hu & Hrefs & Hsnap).
  pose proof Hu1 as [Hn1 _]. pose proof Hu as [Hn Ho].
  split; [by eapply HeapFacts.untouched_trans|]. split.
  - intros l [Hl|Hl]%elem_of_app.
    + specialize (Hrefs1 l Hl). lia.
    + specialize (Hrefs l Hl). lia.
  - unfold Heap.snapshot in *. simpl. f_equal; [|done].
    rewrite <- Hsnap1. apply list_fmap_ext.
    intros _ l Hl%list_elem_of_lookup_2. apply Ho. by apply Hrefs1.
Qed.

(** A fresh heap session is well formed and shows the fresh session. *)
Lemma freshSession_refines (st : Heap.Store) (d : Difficulty) :
  Heap.wellFormed (Heap.freshSession st d) ∧
  Heap.view (Heap.freshSession st d) = freshSession d.
Proof.
  unfold Heap.freshSession.
  destruct (Heap.makeRows _ _ _) as [st' rows] eqn:Hrun.
  destruct (makeRows_spec _ _ _ _ _ Hrun) as (_ & Hrefs & Hsnap).
  split.
  - intros l Hl. by apply Hrefs.
  - unfold Heap.view, freshSession, makeEmptyBoard. simpl. by rewrite Hsnap.
Qed.

(** ** C9 *)

(** C9 (copy-on-write).  For every call of [handleReveal] or [handleFlag]
    on a well-formed heap session that returns a session: no cell object
    that existed before the call has been modified, so the prior grid shows
    the same cell values after the call as before; and the grid of the
    returned session is either the prior grid itself (same references) or a
    grid all of whose cell objects were allocated during the call. *)
Theorem copy_on_write (rnd : list (Z * Z)) (hs hs' : Heap.HSession)
    (r c : Z) :
  Heap.wellFormed hs →
  Heap.handleReveal rnd hs r c = Ok hs' ∨ Heap.handleFlag hs r c = Ok hs' →
  (∀ l, (l < Heap.next (Heap.h_store hs))%nat →
        Heap.obj (Heap.h_store hs') l = Heap.obj (Heap.h_store hs) l) ∧
  Heap.snapshot (Heap.h_store hs') (Heap.h_board hs)
    = Heap.snapshot (Heap.h_store hs) (Heap.h_board hs) ∧
  (Heap.h_board hs' = Heap.h_board hs ∨
   ∀ l, l ∈ mjoin (Heap.h_board hs') →
        (Heap.next (Heap.h_store hs) ≤ l < Heap.next (Heap.h_store hs'))%nat) ∧
  Heap.wellFormed hs'.
Proof.
  intros Hwf Hrun.
  assert (∃ s', refinesFrom hs hs' s') as (s' & Hwf' & _ & [Hn Ho] & Hboard).
  { destruct Hrun as [Hrun|Hrun].
    - pose proof (handleReveal_refines rnd hs r c Hwf) as Href.
      rewrite Hrun in Href.
      destruct (handleReveal rnd (Heap.view hs) r c); [eauto|done..].
    - pose proof (handleFlag_refines hs r c Hwf) as Href.
      rewrite Hrun in Href.
      destruct (handleFlag (Heap.view hs) r c); [eauto|done..]. }
  split; [done|]. split_and!; [| |done].
  - unfold Heap.snapshot. apply list_fmap_ext.
    intros _ row Hrow%list_elem_of_lookup_2. apply list_fmap_ext.
    intros _ l Hl%list_elem_of_lookup_2. apply Ho, Hwf.
    apply list_elem_of_join. eauto.
  - destruct Hboard as [?|Hfresh]; [by left|]. right.
    intros l Hl. split; [by apply Hfresh | by apply Hwf'].
Qed.

Definition heap_fresh : Heap.HSession :=
  Heap.freshSession (Heap.mkStore 0 (λ _, emptyCell)) Beginner.

Definition heap_flagged : Heap.HSession :=
  orElse (Heap.handleFlag heap_fresh 0 0) heap_fresh.

Lemma copy_on_write_witness :
  Heap.snapshot (Heap.h_store heap_flagged) (Heap.h_board heap_fresh)
    = Heap.snapshot (Heap.h_store heap_fresh) (Heap.h_board heap_fresh) ∧
  Heap.h_board heap_flagged ≠ Heap.h_board heap_fresh.
Proof.
  destruct (copy_on_write [] heap_fresh heap_flagged 0 0)
    as (_ & Hsame & _ & _).
  - apply freshSession_refines.
  - right. vm_compute. reflexivity.
  - split; [exact Hsame|]. vm_compute. discriminate.
Defined.

(** * Further properties of the helpers *)

(** ** Neighbours and the empty board *)

Lemma elem_of_neighbors (r c : Z) (k : Z * Z) :
  k ∈ neighbors r c ↔ Z.max (Z.abs (k.1 - r)) (Z.abs (k.2 - c)) = 1.
Proof.
  destruct k as [kr kc]. unfold neighbors.
  rewrite !elem_of_cons, elem_of_nil. simpl. split.
  - intros H. repeat (destruct H as [[= -> ->]|H]; [lia|]). done.
  - intros H.
    assert (kr = r - 1 ∨ kr = r ∨ kr = r + 1) as Hr by lia.
    assert (kc = c - 1 ∨ kc = c ∨ kc = c + 1) as Hc by lia.
    destruct Hr as [-> | [-> | ->]], Hc as [-> | [-> | ->]]; try lia; auto 12.
Qed.

(** X1 (the eight neighbours).  For coordinates [r] and [c] within
    [Number.MAX_SAFE_INTEGER] of zero, where the additions are exact,
    [neighbors r c] lists exactly the cells at Chebyshev distance 1 from
    [(r, c)]; hence a cell is not its own neighbour, adjacency is symmetric
    (for a cell [k] whose coordinates are in that range too), and the list
    holds eight pairwise distinct cells. *)
Theorem neighbors_adjacent (r c : Z) (k : Z * Z) :
  - 9007199254740991 ≤ r ≤ 9007199254740991 →
  - 9007199254740991 ≤ c ≤ 9007199254740991 →
  (k ∈ neighbors r c ↔ Z.max (Z.abs (k.1 - r)) (Z.abs (k.2 - c)) = 1) ∧
  ((r, c) ∉ neighbors r c) ∧
  (- 9007199254740991 ≤ k.1 ≤ 9007199254740991 →
   - 9007199254740991 ≤ k.2 ≤ 9007199254740991 →
   k ∈ neighbors r c ↔ (r, c) ∈ neighbors k.1 k.2) ∧
  NoDup (neighbors r c) ∧ length (neighbors r c) = 8%nat.
Proof.
  intros _ _.
  split; [apply elem_of_neighbors|]. split; [|split; [|split; [|done]]].
  - rewrite elem_of_neighbors. simpl. lia.
  - intros _ _. rewrite !elem_of_neighbors. simpl. lia.
  - assert (neighbors r c = (λ d : Z * Z, (r + d.1, c + d.2)) <$>
      [(-1,-1); (-1,0); (-1,1); (0,-1); (0,1); (1,-1); (1,0); (1,1)]) as ->.
    { unfold neighbors. simpl. repeat f_equal; lia. }
    apply NoDup_fmap_2.
    + intros [a1 a2] [b1 b2] [= ? ?]. f_equal; lia.
    + apply (bool_decide_unpack _). vm_compute. exact I.
Qed.

Lemma neighbors_adjacent_witness :
  (3, 5) ∈ neighbors 4 4 ∧ (4, 4) ∈ neighbors 3 5 ∧
  ((4, 4) ∉ neighbors 4 4) ∧
  NoDup (neighbors 4 4).
Proof.
  destruct (neighbors_adjacent 4 4 (3, 5)) as (Hk & Hself & Hsym & Hnd & _);
    [lia|lia|].
  assert ((3, 5) ∈ neighbors 4 4) as Hin by (apply Hk; reflexivity).
  split; [exact Hin|]. split; [|split; [exact Hself | exact Hnd]].
  apply Hsym; [simpl; lia|simpl; lia|exact Hin].
Defined.


(** ** Mine planting *)

Lemma isMineAt_true (b : Board) (r c : Z) :
  isMineAt b r c = true ↔ ∃ x, cellOf b r c = Some x ∧ isMine x = true.
Proof.
  unfold isMineAt. destruct (cellOf b r c) as [x|]; split.
  - eauto.
  - by intros (? & [= <-] & ?).
  - done.
  - by intros (? & ? & _).
Qed.

(** The cells the planting loop turns into mines: as many as asked for,
    pairwise distinct, each of them drawn, in bounds, outside the forbidden
    set and not a mine before. *)
Lemma plantLoop_new (rows cols : Z) (rnd : list (Z * Z)) (forb : KeySet)
    (mines : Z) :
  ∀ (planted : Z) (b b' : Board),
  hasDims rows cols b →
  plantLoop rnd forb mines planted b = Ok b' →
  planted ≤ mines →
  ∃ l : list (Z * Z),
    NoDup l ∧ Z.of_nat (length l) = mines - planted ∧
    (∀ k, k ∈ l → k ∈ rnd ∧ (k ∉ forb) ∧ inBounds k.1 k.2 rows cols = true ∧
                  isMineAt b k.1 k.2 = false) ∧
    (∀ r c, isMineAt b' r c = true ↔ isMineAt b r c = true ∨ (r, c) ∈ l).
Proof.
  induction rnd as [|[r c] rnd IH]; intros planted b b' Hd Hrun Hle;
    simpl in Hrun; case_decide as Hlt.
  - done.
  - injection Hrun as <-. exists []. split; [constructor|].
    split; [simpl; lia|]. split; [by intros k ?%elem_of_nil|].
    intros r c. rewrite elem_of_nil. tauto.
  - assert (∀ l : list (Z * Z),
      (∀ k, k ∈ l → k ∈ rnd ∧ (k ∉ forb) ∧ inBounds k.1 k.2 rows cols = true ∧
                    isMineAt b k.1 k.2 = false) →
      ∀ k, k ∈ l → k ∈ (r, c) :: rnd ∧ (k ∉ forb) ∧
                   inBounds k.1 k.2 rows cols = true ∧
                   isMineAt b k.1 k.2 = false) as Hweak.
    { intros l Hl k Hk. destruct (Hl k Hk) as (? & ? & ? & ?).
      split_and!; try done. by right. }
    destruct (has (r, c) forb) eqn:Hforb.
    { destruct (IH planted b b' Hd Hrun Hle) as (l & ? & ? & Hl & ?).
      exists l. split_and!; try done. by apply Hweak. }
    apply bind_Ok in Hrun as (cell & Hcell & Hrun).
    apply cellAt_Ok in Hcell.
    destruct (isMine cell) eqn:Hmine.
    { destruct (IH planted b b' Hd Hrun Hle) as (l & ? & ? & Hl & ?).
      exists l. split_and!; try done. by apply Hweak. }
    apply bind_Ok in Hrun as (b1 & Hw & Hrun).
    apply writeCell_Ok in Hw as (cell' & Hcell' & ->).
    assert (cell' = cell) as -> by congruence.
    assert (∀ r' c', isMineAt (putCell b r c (setMine true cell)) r' c'
              = if decide (r' = r ∧ c' = c) then true else isMineAt b r' c')
      as Hput by (intros; apply isMineAt_putCell; eauto).
    destruct (IH (planted + 1) (putCell b r c (setMine true cell)) b')
      as (l & Hnd & Hlen & Hl & Hb'); try done.
    { unfold hasDims. by rewrite shape_putCell. }
    { lia. }
    exists ((r, c) :: l). split_and!.
    + apply NoDup_cons. split; [|done]. intros Hin.
      destruct (Hl _ Hin) as (_ & _ & _ & Hm). simpl in Hm.
      rewrite Hput, decide_True in Hm by done. done.
    + simpl. lia.
    + intros k [->|Hk]%elem_of_cons.
      * split_and!; [by left| by apply has_false| |].
        -- simpl. apply (hasDims_cellOf _ _ b); eauto.
        -- unfold isMineAt. simpl. by rewrite Hcell.
      * destruct (Hl k Hk) as (? & ? & ? & Hm).
        split_and!; try done; [by right|].
        rewrite Hput in Hm. by case_decide.
    + intros r' c'. rewrite Hb', Hput, elem_of_cons.
      case_decide as Heq.
      * destruct Heq as [-> ->]. split; auto.
      * split; [intros [?|?]; auto|].
        intros [?|[[= -> ->]|?]]; auto; tauto.
  - injection Hrun as <-. exists []. split; [constructor|].
    split; [simpl; lia|]. split; [by intros k ?%elem_of_nil|].
    intros r' c'. rewrite elem_of_nil. tauto.
Qed.

Lemma plantLoop_nothing (rnd : list (Z * Z)) (forb : KeySet) (mines planted : Z)
    (b : Board) :
  mines ≤ planted → plantLoop rnd forb mines planted b = Ok b.
Proof.
  intros Hle.
  destruct rnd as [|[??] ?]; simpl; by rewrite decide_False by lia.
Qed.

(** The counts pass changes neither the mines nor the flags nor what is
    revealed. *)
Lemma countPass_frame (rows cols : Z) (b b' : Board) :
  hasDims rows cols b → countPass rows cols b = Ok b' →
  shape b' = shape b ∧
  (∀ r c, isMineAt b' r c = isMineAt b r c) ∧
  (∀ r c x, cellOf b r c = Some x →
     ∃ x', cellOf b' r c = Some x' ∧ isMine x' = isMine x ∧
           isRevealed x' = isRevealed x ∧ isFlagged x' = isFlagged x).
Proof.
  intros Hd Hrun.
  destruct (countPass_spec rows cols b Hd) as (b2 & Hrun2 & Hs & Hc).
  assert (b2 = b') as -> by congruence.
  assert (∀ r c x, cellOf b r c = Some x →
     ∃ x', cellOf b' r c = Some x' ∧ isMine x' = isMine x ∧
           isRevealed x' = isRevealed x ∧ isFlagged x' = isFlagged x)
    as Hcells.
  { intros r c x Hx. rewrite (Hc r c x Hx). eexists. split; [done|].
    unfold counted. by destruct (isMine x) eqn:?. }
  split; [done|]. split; [|done].
  intros r c. unfold isMineAt.
  destruct (cellOf b r c) as [x|] eqn:Hx.
  - by destruct (Hcells r c x Hx) as (x' & -> & -> & _).
  - destruct (cellOf b' r c) as [x'|] eqn:Hx'; [|done].
    destruct (shape_cellOf b b' r c Hs) as [x Hx0]; [eauto|congruence].
Qed.

(** X3 (what planting changes).  On any rectangular board, when
    [plantMines] returns: the shape is kept, no cell changes its
    [isRevealed] or [isFlagged], and the new mines are [max 0 mines]
    pairwise distinct cells, each of them one of the random draws, inside
    the grid, neither the clicked cell nor one of its neighbours, and not a
    mine before; no other cell becomes or ceases to be a mine. *)
Theorem plantMines_plants_drawn_cells (rnd : list (Z * Z)) (b b' : Board)
    (rows cols mines safeR safeC : Z) :
  hasDims rows cols b →
  plantMines rnd b rows cols mines safeR safeC = Ok b' →
  shape b' = shape b ∧
  (∀ r c x, cellOf b r c = Some x →
     ∃ x', cellOf b' r c = Some x' ∧
           isRevealed x' = isRevealed x ∧ isFlagged x' = isFlagged x) ∧
  ∃ l : list (Z * Z),
    NoDup l ∧ Z.of_nat (length l) = Z.max 0 mines ∧
    (∀ k, k ∈ l → k ∈ rnd ∧ inBounds k.1 k.2 rows cols = true ∧
                  k ≠ (safeR, safeC) ∧ (k ∉ neighbors safeR safeC) ∧
                  isMineAt b k.1 k.2 = false) ∧
    (∀ r c, isMineAt b' r c = true ↔ isMineAt b r c = true ∨ (r, c) ∈ l).
Proof.
  intros Hd Hrun. unfold plantMines in Hrun.
  apply bind_Ok in Hrun as (b1 & Hloop & Hcount).
  assert (∃ m, 0 ≤ m ∧ m = Z.max 0 mines ∧
            plantLoop rnd (forbiddenSet rows cols safeR safeC) m 0 b = Ok b1)
    as (m & Hm & Hmax & Hloop').
  { destruct (decide (0 ≤ mines)).
    - exists mines. split_and!; [done|lia|done].
    - exists 0. split_and!; [done|lia|].
      rewrite plantLoop_nothing in Hloop by lia.
      rewrite plantLoop_nothing by lia. done. }
  pose proof (plantLoop_spec _ _ _ _ _ _ Hloop' Hm) as (Hs1 & _ & Hc1).
  assert (hasDims rows cols b1) as Hd1 by (unfold hasDims; by rewrite Hs1).
  destruct (countPass_frame rows cols b1 b' Hd1 Hcount) as (Hs2 & Hm2 & Hc2).
  destruct (plantLoop_new rows cols _ _ _ _ _ _ Hd Hloop' Hm)
    as (l & Hnd & Hlen & Hl & Hb1).
  split; [congruence|]. split.
  - intros r c x Hx. destruct (Hc1 r c x Hx) as (x1 & Hx1 & Hor).
    destruct (Hc2 r c x1 Hx1) as (x2 & Hx2 & _ & Hr2 & Hf2).
    exists x2. split; [done|].
    destruct Hor as [->|[_ ->]]; simpl in *; split; congruence.
  - exists l. split; [done|]. split; [lia|]. split.
    + intros k Hk. destruct (Hl k Hk) as (? & Hforb & Hin & ?).
      split_and!; try done.
      * intros ->. apply Hforb, elem_of_forbiddenSet. by left.
      * intros Hnb. apply Hforb, elem_of_forbiddenSet. by right.
    + intros r c. by rewrite Hm2, Hb1.
Qed.

(** The Beginner grid planted from [draws_example] for a click at
    [(4, 4)]. *)
Definition planted_example : Board :=
  orElse (plantMines draws_example (makeEmptyBoard 9 9) 9 9 10 4 4) [].

Lemma plantMines_plants_drawn_cells_witness :
  shape planted_example = shape (makeEmptyBoard 9 9).
Proof.
  destruct (plantMines_plants_drawn_cells draws_example (makeEmptyBoard 9 9)
              planted_example 9 9 10 4 4) as [H _].
  - apply hasDims_makeEmptyBoard.
  - vm_compute. reflexivity.
  - exact H.
Defined.

Lemma add_facts (k : Z * Z) (s : KeySet) :
  NoDup s →
  NoDup (add k s) ∧ (length s ≤ length (add k s) ≤ S (length s))%nat.
Proof.
  intros Hnd. unfold add, has. case_bool_decide as Hin; [split; [done|lia]|].
  rewrite length_app. simpl. split; [|lia].
  apply NoDup_app. split; [done|]. split; [|apply NoDup_singleton].
  by intros k' Hk ->%list_elem_of_singleton.
Qed.

Lemma forbiddenSet_facts (rows cols safeR safeC : Z) :
  NoDup (forbiddenSet rows cols safeR safeC) ∧
  (1 ≤ length (forbiddenSet rows cols safeR safeC) ≤ 9)%nat.
Proof.
  unfold forbiddenSet.
  assert (∀ (l : list (Z * Z)) (s : KeySet), NoDup s →
    NoDup (foldl (λ forbidden '(nr, nc),
             if inBounds nr nc rows cols then add (nr, nc) forbidden
             else forbidden) s l) ∧
    (length s ≤ length (foldl (λ forbidden '(nr, nc),
             if inBounds nr nc rows cols then add (nr, nc) forbidden
             else forbidden) s l) ≤ length s + length l)%nat) as H.
  { induction l as [|[nr nc] l IH]; intros s Hnd; simpl; [split; [done|lia]|].
    destruct (inBounds nr nc rows cols).
    - destruct (add_facts (nr, nc) s Hnd) as [Hnd' Hlen'].
      destruct (IH _ Hnd'). split; [done|lia].
    - destruct (IH s Hnd). split; [done|lia]. }
  destruct (H (neighbors safeR safeC) [(safeR, safeC)]) as [Hnd Hlen];
    [apply NoDup_singleton|].
  split; [done|].
  change (length [(safeR, safeC)]) with 1%nat in Hlen.
  change (length (neighbors safeR safeC)) with 8%nat in Hlen. lia.
Qed.

(** X4 (room for the mines).  For a click inside the grid and at least one
    mine, [plantMines] can only return when the mines fit outside the
    forbidden set: [mines + |forbidden| ≤ rows * cols].  With more mines
    than that the [while] loop never ends, whatever is drawn. *)
Theorem plantMines_capacity (rnd : list (Z * Z)) (b b' : Board)
    (rows cols mines safeR safeC : Z) :
  hasDims rows cols b →
  inBounds safeR safeC rows cols = true →
  0 < mines →
  plantMines rnd b rows cols mines safeR safeC = Ok b' →
  mines + Z.of_nat (length (forbiddenSet rows cols safeR safeC))
    ≤ rows * cols.
Proof.
  intros Hd Hsafe Hmines Hrun. unfold plantMines in Hrun.
  apply bind_Ok in Hrun as (b1 & Hloop & _).
  destruct (plantLoop_new rows cols _ _ _ _ _ _ Hd Hloop ltac:(lia))
    as (l & Hnd & Hlen & Hl & _).
  destruct (forbiddenSet_facts rows cols safeR safeC) as [Hndf _].
  pose proof (inBounds_card rows cols
                (l ++ forbiddenSet rows cols safeR safeC)) as Hcard.
  rewrite length_app in Hcard.
  assert (length l + length (forbiddenSet rows cols safeR safeC)
          ≤ Z.to_nat (rows * cols))%nat; [|lia].
  apply Hcard.
  - apply NoDup_app. split; [done|]. split; [|done].
    intros k Hk. by destruct (Hl k Hk) as (_ & ? & _).
  - intros k [Hk|Hk]%elem_of_app.
    + by destruct (Hl k Hk) as (_ & _ & ? & _).
    + apply elem_of_forbiddenSet in Hk as [->|[_ ?]]; done.
Qed.

Lemma plantMines_capacity_witness :
  10 + Z.of_nat (length (forbiddenSet 9 9 4 4)) ≤ 9 * 9.
Proof.
  apply (plantMines_capacity draws_example (makeEmptyBoard 9 9)
           planted_example 9 9 10 4 4).
  - apply hasDims_makeEmptyBoard.
  - reflexivity.
  - lia.
  - vm_compute. reflexivity.
Defined.

(** Every cell of the grid, row by row. *)
Definition allCells (rows cols : Z) : list (Z * Z) :=
  cprod (seqZ 0 rows) (seqZ 0 cols).

Lemma elem_of_allCells (rows cols : Z) (k : Z * Z) :
  k ∈ allCells rows cols ↔ inBounds k.1 k.2 rows cols = true.
Proof.
  unfold allCells. rewrite list_elem_of_cprod, !elem_of_seqZ, inBounds_true.
  lia.
Qed.

Lemma NoDup_allCells (rows cols : Z) : NoDup (allCells rows cols).
Proof.
  unfold allCells, cprod, list_cprod. apply NoDup_bind.
  - intros x1 x2 y _ _ (? & -> & _)%list_elem_of_fmap
      (? & [= -> _] & _)%list_elem_of_fmap. done.
  - intros x _. apply NoDup_fmap_2; [|apply NoDup_seqZ].
    by intros ?? [= ->].
  - apply NoDup_seqZ.
Qed.

Lemma length_allCells (rows cols : Z) :
  0 ≤ rows → 0 ≤ cols → Z.of_nat (length (allCells rows cols)) = rows * cols.
Proof.
  intros Hr Hc. unfold allCells.
  rewrite list_cprod_list_prod, length_prod, !length_seqZ. lia.
Qed.

Lemma filter_all {A : Type} (P : A → Prop) `{!∀ x, Decision (P x)}
    (l : list A) :
  (∀ x, x ∈ l → P x) → filter P l = l.
Proof.
  induction l as [|a l IH]; intros HP; [done|].
  rewrite filter_cons_True by (apply HP; by left).
  f_equal. apply IH. intros x Hx. apply HP. by right.
Qed.

Lemma length_filter_notin {A : Type} `{!EqDecision A} (s l : list A) :
  NoDup l → (length l ≤ length (filter (λ k, k ∉ s) l) + length s)%nat.
Proof.
  intros Hnd. induction s as [|a s IH]; simpl.
  - rewrite filter_all; [lia|]. intros k _. apply not_elem_of_nil.
  - rewrite (list_filter_iff (λ k, k ∉ a :: s) (λ k, k ≠ a ∧ k ∉ s))
      by (intros k; apply not_elem_of_cons).
    rewrite <- list_filter_filter.
    pose proof (length_filter_ne a (filter (λ k, k ∉ s) l)
                  (NoDup_filter _ _ Hnd)).
    lia.
Qed.

(** Whatever has been drawn so far, the draws can be continued so that
    planting finishes. *)
Lemma enoughDraws_allCells (rows cols mines safeR safeC : Z)
    (rnd0 : list (Z * Z)) :
  0 ≤ rows → 0 ≤ cols → mines + 9 ≤ rows * cols →
  Forall (λ k, inBounds k.1 k.2 rows cols = true) rnd0 →
  enoughDraws rows cols mines safeR safeC (rnd0 ++ allCells rows cols).
Proof.
  intros Hr Hc Hcap Hin. split.
  - apply Forall_app. split; [done|]. apply Forall_forall.
    intros k. apply elem_of_allCells.
  - exists (filter (λ k, k ∉ forbiddenSet rows cols safeR safeC)
                   (allCells rows cols)).
    split; [apply NoDup_filter, NoDup_allCells|]. split.
    + pose proof (length_filter_notin
                    (forbiddenSet rows cols safeR safeC)
                    (allCells rows cols) (NoDup_allCells rows cols)).
      pose proof (length_allCells rows cols Hr Hc).
      destruct (forbiddenSet_facts rows cols safeR safeC) as [_ ?]. lia.
    + intros k [? ?]%list_elem_of_filter. split; [|done].
      apply elem_of_app. by right.
Qed.

(** X5 (the first click can complete).  In a reachable session in phase
    [ready], at every difficulty, for a click inside the grid: whatever has
    been drawn so far (inside the grid), the draws can be continued, by the
    cells of the grid in row order, so that the planting loop ends and
    [handleReveal] returns; the session returned has left the phase
    [ready]. *)
Theorem first_click_can_finish (rnd0 : list (Z * Z)) (s : Session)
    (r c : Z) :
  reachable s → status s = ready →
  inBounds r c (rowsOf s) (colsOf s) = true →
  Forall (λ k, inBounds k.1 k.2 (rowsOf s) (colsOf s) = true) rnd0 →
  ∃ s', handleReveal (rnd0 ++ allCells (rowsOf s) (colsOf s)) s r c = Ok s' ∧
        status s' ≠ ready.
Proof.
  intros Hreach Hst Hin Hrnd.
  pose proof (reachable_inv _ Hreach) as Hinv.
  destruct (handleReveal_total (rnd0 ++ allCells (rowsOf s) (colsOf s))
              s r c Hinv Hin) as [s' Hrun].
  { intros _. apply enoughDraws_allCells; try done;
      unfold rowsOf, colsOf, minesOf; destruct (difficulty s); simpl; lia. }
  exists s'. split; [done|].
  assert (reachable s') as Hinv'%reachable_inv.
  { eapply reachable_step; [done|]. by eapply step_reveal. }
  intros Hst'. apply (inv_planted _ Hinv') in Hst'.
  rewrite handleReveal_unfold, Hst in Hrun.
  rewrite (proj2 (inv_planted _ Hinv) Hst) in Hrun.
  cbn [terminal negb] in Hrun.
  apply bind_Ok in Hrun as ([[[nb p1] st1] sec1] & Hplant & Hrun).
  apply bind_Ok in Hplant as (nb0 & _ & [= <- <- <- <-]).
  cbn [fst snd] in Hrun.
  destruct (cellOf nb0 r c) as [x|]; [|done].
  destruct (isRevealed x || isFlagged x); [injection Hrun as <-; done|].
  destruct (isMine x); [injection Hrun as <-; done|].
  apply bind_Ok in Hrun as (nb' & _ & Hrun).
  case_decide; injection Hrun as <-; done.
Qed.

Lemma first_click_can_finish_witness :
  ∃ s', handleReveal ([] ++ allCells (rowsOf (freshSession Beginner))
                                     (colsOf (freshSession Beginner)))
          (freshSession Beginner) 4 4 = Ok s' ∧
        status s' ≠ ready.
Proof.
  apply (first_click_can_finish [] (freshSession Beginner) 4 4
           reachable_init); try reflexivity.
  constructor.
Defined.

(** ** Cascading reveal *)

Lemma floodReveal_out_of_bounds (rows cols : Z) (b : Board) (r c : Z) :
  hasDims rows cols b → inBounds r c rows cols = false →
  floodReveal b r c = TypeError.
Proof.
  intros Hd Hout. unfold floodReveal.
  cbn [firstRowLength boardLength Board_ops].
  destruct (index b 0) as [row|] eqn:Hrow; [|done].
  cbn [deref mbind outcome_bind]. rewrite floodLoop_unfold.
  destruct (cellOf b r c) as [x|] eqn:Hx; [|done].
  assert (inBounds r c rows cols = true); [|congruence].
  apply (hasDims_cellOf _ _ b); eauto.
Qed.

(** X6 (where the cascade may start).  On a rectangular board
    [floodReveal] returns a board of the same shape for every start cell
    inside the grid, and raises a [TypeError] for every start cell outside
    of it (which includes every start cell when the board has no rows or no
    columns). *)
Theorem floodReveal_start_in_bounds (rows cols : Z) (b : Board) (r c : Z) :
  hasDims rows cols b →
  (inBounds r c rows cols = true →
   ∃ b', floodReveal b r c = Ok b' ∧ shape b' = shape b) ∧
  (inBounds r c rows cols = false → floodReveal b r c = TypeError).
Proof.
  intros Hd. split.
  - intros Hin.
    destruct (floodReveal_spec rows cols b r c Hd Hin) as (b' & ? & ? & _).
    eauto.
  - by apply floodReveal_out_of_bounds.
Qed.

Lemma floodReveal_start_in_bounds_witness :
  floodReveal cascade_example 2 0 = TypeError.
Proof.
  destruct (floodReveal_start_in_bounds 2 3 cascade_example 2 0) as [_ H];
    [reflexivity|].
  apply H. reflexivity.
Defined.

(** X7 (cascade from a numbered cell).  Started on a cell whose count is
    not 0, [floodReveal] reveals that cell and nothing else. *)
Theorem floodReveal_numbered_start (b : Board) (r c : Z) (x : Cell) :
  cellOf b r c = Some x → count x ≠ 0 →
  floodReveal b r c = Ok (putCell b r c (setRevealed true x)).
Proof.
  intros Hx Hc. unfold floodReveal.
  cbn [firstRowLength boardLength Board_ops].
  destruct (index b 0) as [row|] eqn:Hrow.
  - cbn [deref mbind outcome_bind]. rewrite floodLoop_unfold, Hx.
    rewrite decide_False by done.
    by destruct (Z.to_nat _).
  - exfalso. apply cellOf_Some_nat in Hx as (i & j & row & _ & _ & Hi & _).
    unfold index in Hrow. simpl in Hrow.
    destruct b; [by rewrite lookup_nil in Hi | done].
Qed.

Lemma floodReveal_numbered_start_witness :
  floodReveal cascade_example 0 2 =
    Ok (putCell cascade_example 0 2
          (setRevealed true (mkCell false false false 1))).
Proof.
  apply (floodReveal_numbered_start cascade_example 0 2
           (mkCell false false false 1)); [reflexivity|discriminate].
Defined.

(** Once the cascade from [start] has run, nothing is left for a second
    cascade from [start] to reach. *)
Lemma cascade_after (b b' : Board) (start : Z * Z) :
  is_Some (cellOf b start.1 start.2) →
  floodFinal b start b' →
  ∀ k, cascade true b' start k → k = start.
Proof.
  intros [x0 Hx0] [Hs Hcells].
  induction 1 as [|k k' x x' Hk IH Hx Hz Hk' Hx' (Hf & Hm & Hr)]; [done|].
  subst k. exfalso. specialize (Hr eq_refl).
  assert (count x0 = 0) as Hz0.
  { destruct (Hcells start x0 Hx0) as (_ & _ & [?|[_ ?]]).
    - by assert (x = x0) as -> by congruence.
    - by assert (x = setRevealed true x0) as -> by congruence. }
  destruct (shape_cellOf b b' k'.1 k'.2 Hs) as [x0' Hx0']; [eauto|].
  destruct (Hcells k' x0' Hx0') as (Hin & _ & [?|[_ ?]]).
  - assert (x' = x0') as -> by congruence.
    rewrite Hin in Hx'.
    + injection Hx' as Heq. by rewrite <- Heq in Hr.
    + apply (cascade_step true b start start k' x0 x0'); try done.
      constructor.
  - by assert (x' = setRevealed true x0') as -> by congruence.
Qed.

(** X8 (the cascade is idempotent).  On a rectangular board, running
    [floodReveal] a second time from the same start cell returns the board
    the first run returned. *)
Theorem floodReveal_idempotent (rows cols : Z) (b b' : Board) (r c : Z) :
  hasDims rows cols b →
  floodReveal b r c = Ok b' →
  floodReveal b' r c = Ok b'.
Proof.
  intros Hd Hrun.
  assert (inBounds r c rows cols = true) as Hin.
  { destruct (inBounds r c rows cols) eqn:Hin; [done|].
    rewrite (floodReveal_out_of_bounds rows cols b r c Hd Hin) in Hrun.
    done. }
  destruct (floodReveal_spec rows cols b r c Hd Hin)
    as (b2 & Hrun2 & Hs & Hcells).
  assert (b2 = b') as -> by congruence.
  assert (hasDims rows cols b') as Hd' by (unfold hasDims; by rewrite Hs).
  destruct (floodReveal_spec rows cols b' r c Hd' Hin)
    as (b3 & Hrun3 & Hs3 & Hcells3).
  rewrite Hrun3. f_equal.
  destruct (proj2 (hasDims_cellOf _ _ b r c Hd) Hin) as [x0 Hx0].
  apply HeapFacts.board_ext; [done|]. intros r' c'.
  destruct (cellOf b' r' c') as [y'|] eqn:Hy'.
  - destruct (Hcells3 (r', c') y' Hy') as (Hin3 & Hout3 & _).
    destruct (decide ((r', c') = (r, c))) as [[= -> ->]|Hne].
    + simpl in *. rewrite Hin3 by constructor.
      destruct (Hcells (r, c) x0 Hx0) as (Hin0 & _).
      simpl in Hin0. rewrite Hin0 in Hy' by constructor.
      by injection Hy' as <-.
    + apply Hout3. intros Hcas.
      apply (cascade_after b b' (r, c)) in Hcas; [done|eauto|done].
  - destruct (cellOf b3 r' c') as [y3|] eqn:Hy3; [|done].
    destruct (shape_cellOf b' b3 r' c' Hs3); [eauto|congruence].
Qed.

Definition cascade_example_flooded : Board :=
  orElse (floodReveal cascade_example 0 0) [].

Lemma floodReveal_idempotent_witness :
  floodReveal cascade_example_flooded 0 0 = Ok cascade_example_flooded.
Proof.
  apply (floodReveal_idempotent 2 3 cascade_example cascade_example_flooded
           0 0); reflexivity.
Defined.

(** * Further properties of the sessions *)

(** ** More that holds of every reachable session *)

(** [b'] has the shape of [b], the same mines and the same counts, and
    every cell revealed in [b] is revealed in [b']. *)
Definition sameMines (b b' : Board) : Prop :=
  shape b' = shape b ∧
  ∀ r c y, cellOf b r c = Some y →
    ∃ y', cellOf b' r c = Some y' ∧ isMine y' = isMine y ∧
          count y' = count y ∧ (isRevealed y = true → isRevealed y' = true).

Lemma sameMines_refl (b : Board) : sameMines b b.
Proof. split; eauto. Qed.

Lemma sameMines_trans (b1 b2 b3 : Board) :
  sameMines b1 b2 → sameMines b2 b3 → sameMines b1 b3.
Proof.
  intros [Hs1 Hc1] [Hs2 Hc2]. split; [congruence|].
  intros r c y Hy. destruct (Hc1 r c y Hy) as (y2 & Hy2 & ? & ? & ?).
  destruct (Hc2 r c y2 Hy2) as (y3 & Hy3 & ? & ? & ?).
  exists y3. split_and!; [done|congruence..|auto].
Qed.

Lemma sameMines_back (b b' : Board) (r c : Z) (y' : Cell) :
  sameMines b b' → cellOf b' r c = Some y' →
  ∃ y, cellOf b r c = Some y ∧ isMine y' = isMine y ∧ count y' = count y.
Proof.
  intros [Hs Hc] Hy'.
  destruct (shape_cellOf b b' r c Hs) as [y Hy]; [eauto|].
  destruct (Hc r c y Hy) as (y2 & Hy2 & ? & ? & _).
  exists y. split_and!; congruence.
Qed.

Lemma sameMines_isMineAt (b b' : Board) :
  sameMines b b' → ∀ r c, isMineAt b' r c = isMineAt b r c.
Proof.
  intros Hsame r c. unfold isMineAt.
  destruct (cellOf b' r c) as [y'|] eqn:Hy'.
  - destruct (sameMines_back b b' r c y' Hsame Hy') as (y & -> & ? & _). done.
  - destruct (cellOf b r c) as [y|] eqn:Hy; [|done].
    destruct Hsame as [_ Hc]. destruct (Hc r c y Hy) as (? & ? & _). congruence.
Qed.

Lemma sameMines_countMines (b b' : Board) :
  sameMines b b' → countMines b' = countMines b.
Proof.
  intros Hsame. unfold countMines. f_equal.
  apply board_count_ext; [apply Hsame|].
  intros r c y' y Hy' Hy. destruct Hsame as [_ Hc].
  destruct (Hc r c y Hy) as (y2 & Hy2 & Hm & _).
  assert (y2 = y') as -> by congruence. by rewrite Hm.
Qed.

Lemma sameMines_revealsOnly (b b' : Board) : revealsOnly b b' → sameMines b b'.
Proof.
  intros [Hs Hc]. split; [done|]. intros r c y Hy.
  destruct (Hc r c y Hy) as [?|(? & _)]; eauto 10.
Qed.

Lemma sameMines_mapBoard (g : Cell → Cell) (b : Board) :
  (∀ x, isMine (g x) = isMine x ∧ count (g x) = count x ∧
        (isRevealed x = true → isRevealed (g x) = true)) →
  sameMines b (mapBoard g b).
Proof.
  intros Hg. split; [apply shape_fmap|]. intros r c y Hy.
  exists (g y). rewrite cellOf_fmap, Hy. split; [done|]. apply Hg.
Qed.

Lemma sameMines_putCell (b : Board) (r c : Z) (x y : Cell) :
  cellOf b r c = Some x → isMine y = isMine x → count y = count x →
  isRevealed y = isRevealed x →
  sameMines b (putCell b r c y).
Proof.
  intros Hx Hm Hc Hr. split; [apply shape_putCell|]. intros r' c' z Hz.
  rewrite cellOf_putCell by eauto. case_decide as Heq; [|eauto 10].
  destruct Heq as [-> ->]. assert (z = x) as -> by congruence.
  exists y. split_and!; congruence.
Qed.

Lemma sameMines_revealAllMines (b : Board) : sameMines b (revealAllMines b).
Proof.
  apply (sameMines_mapBoard
           (λ cel, if isMine cel then setRevealed true cel else cel)).
  intros y. by destruct (isMine y) eqn:?.
Qed.

Lemma sameMines_flagAllMines (b : Board) : sameMines b (flagAllMines b).
Proof.
  apply (sameMines_mapBoard
           (λ cel, if isMine cel then setFlagged true cel else cel)).
  intros y. by destruct (isMine y) eqn:?.
Qed.

(** Every count is the number of adjacent mines (0 on a mine). *)
Definition countsOk (rows cols : Z) (b : Board) : Prop :=
  ∀ r c x, cellOf b r c = Some x →
    count x = if isMine x then 0 else mineNeighbors rows cols b r c.

Lemma countsOk_sameMines (rows cols : Z) (b b' : Board) :
  sameMines b b' → countsOk rows cols b → countsOk rows cols b'.
Proof.
  intros Hsame Hok r c y' Hy'.
  destruct (sameMines_back b b' r c y' Hsame Hy') as (y & Hy & -> & ->).
  rewrite (mineNeighbors_ext rows cols b b') by (by apply sameMines_isMineAt).
  by apply Hok.
Qed.

Lemma mineNeighbors_none (rows cols : Z) (b : Board) (r c : Z) :
  (∀ r c x, cellOf b r c = Some x → isMine x = false) →
  mineNeighbors rows cols b r c = 0.
Proof.
  intros Hnone. unfold mineNeighbors. rewrite length_filter_none; [done|].
  intros [nr nc] _. simpl. unfold isMineAt.
  destruct (cellOf b nr nc) as [x|] eqn:Hx.
  - rewrite (Hnone nr nc x Hx), andb_false_r. tauto.
  - rewrite andb_false_r. tauto.
Qed.

Lemma mineNeighbors_range (rows cols : Z) (b : Board) (r c : Z) :
  0 ≤ mineNeighbors rows cols b r c ≤ 8.
Proof.
  unfold mineNeighbors.
  pose proof (length_filter
    (λ k : Z * Z, inBounds k.1 k.2 rows cols && isMineAt b k.1 k.2)
    (neighbors r c)) as Hle.
  simpl in Hle. lia.
Qed.

(** What holds of every reachable session besides [sessionInv]. *)
Record sessionInv2 (s : Session) : Prop := {
  shown_count : revealedCount s = countRevealedSafe (board s);
  timer_range : 0 ≤ seconds s ≤ 999;
  timer_ready : status s = ready → seconds s = 0;
  counts_ok : countsOk (rowsOf s) (colsOf s) (board s);
  mines_all_or_none :
    countMines (board s) = minesOf s ∨ countMines (board s) = 0;
}.

Lemma sessionInv2_fresh (d : Difficulty) : sessionInv2 (freshSession d).
Proof.
  assert (∀ r c x,
    cellOf (makeEmptyBoard (cfgRows (DIFFICULTIES d))
                           (cfgCols (DIFFICULTIES d))) r c = Some x →
    x = emptyCell) as Hempty by (intros; by eapply cellOf_makeEmptyBoard).
  split; simpl.
  - rewrite countRevealedSafe_none; [done|]. by intros r c x ->%Hempty.
  - lia.
  - done.
  - intros r c x Hx. pose proof (Hempty r c x Hx) as ->. simpl.
    rewrite mineNeighbors_none; [done|]. by intros r' c' y ->%Hempty.
  - right. apply countMines_none. by intros r c x ->%Hempty.
Qed.

Lemma countRevealedSafe_flag (b : Board) (r c : Z) (x : Cell) (v : bool) :
  cellOf b r c = Some x →
  countRevealedSafe (putCell b r c (setFlagged v x)) = countRevealedSafe b.
Proof.
  intros Hx. apply countRevealedSafe_ext; [apply shape_putCell|].
  intros r' c' y y' Hy. rewrite cellOf_putCell by eauto.
  case_decide as Heq; [|congruence]. destruct Heq as [-> ->].
  intros [= <-]. assert (y = x) as -> by congruence. done.
Qed.

Lemma sessionInv2_reveal (rnd : list (Z * Z)) (s s' : Session) (r c : Z) :
  sessionInv s → sessionInv2 s → revealCase rnd s r c s' → sessionInv2 s'.
Proof.
  intros Hinv Hinv2 Hcase.
  pose proof (config_positive (difficulty s)) as (HR & HC & HM & HT).
  destruct Hcase as [Hterm|nb x Hst Hplant Hx Hf|x Hst Hx Hrf
                    |x Hst Hx Hr Hf Hm|nb secs x nb' Hfrom Hx Hr Hf Hm Hrun];
    try done.
  - (* first click on a flagged cell *)
    destruct Hinv2. split; simpl_session; try done; lia.
  - (* a mine *)
    assert (sameMines (board s) (revealAllMines (board s))) as Hsame.
    { apply (sameMines_mapBoard
               (λ cel, if isMine cel then setRevealed true cel else cel)).
      intros y. by destruct (isMine y) eqn:?. }
    destruct Hinv2. split; simpl_session; try done.
    + by rewrite countRevealedSafe_revealAllMines.
    + by eapply countsOk_sameMines.
    + by rewrite (sameMines_countMines _ _ Hsame).
  - (* a safe cell *)
    assert (hasDims (rowsOf s) (colsOf s) nb ∧
            countsOk (rowsOf s) (colsOf s) nb ∧
            (countMines nb = minesOf s ∨ countMines nb = 0) ∧
            0 ≤ secs ≤ 999) as (Hd & Hok & Hmines & Hsecs).
    { destruct Hfrom as [(Hst & -> & Hplant)|(Hst & -> & ->)].
      - assert (∀ r c y, cellOf (board s) r c = Some y → isMine y = false)
          as Hnone.
        { intros r' c' y Hy. by apply (inv_ready _ Hinv Hst r' c' y). }
        destruct (plantMines_spec rnd (board s) nb (rowsOf s) (colsOf s)
                    (minesOf s) r c (inv_dims _ Hinv))
          as (Hs & Hcnt & Hcells); try done.
        { unfold minesOf. lia. }
        split; [unfold hasDims; rewrite Hs; apply Hinv|].
        split; [|split; [by left | lia]].
        intros r' c' y' Hy'.
        destruct (shape_cellOf (board s) nb r' c' Hs) as [y Hy]; [eauto|].
        destruct (Hcells r' c' y Hy) as (y2 & Hy2 & _ & _ & _ & Hc2).
        assert (y2 = y') as -> by congruence. rewrite Hc2.
        destruct (isMine y'); [|done].
        rewrite (counts_ok _ Hinv2 r' c' y Hy), (Hnone r' c' y Hy).
        by apply mineNeighbors_none.
      - split; [apply Hinv|]. split; [apply Hinv2|].
        split; [apply Hinv2 | apply Hinv2]. }
    pose proof (reveal_step_revealsOnly _ _ nb nb' r c x Hd Hx Hf Hm Hrun)
      as Hsame%sameMines_revealsOnly.
    assert (sameMines nb (flagAllMines nb')) as Hsame'.
    { eapply sameMines_trans; [done|].
      apply (sameMines_mapBoard
               (λ cel, if isMine cel then setFlagged true cel else cel)).
      intros y. by destruct (isMine y) eqn:?. }
    destruct (decide (countRevealedSafe nb' = totalSafe s)); split;
      unfold rowsOf, colsOf, minesOf in *; simpl_session; try done.
    + by rewrite countRevealedSafe_flagAllMines.
    + by eapply countsOk_sameMines.
    + by rewrite (sameMines_countMines _ _ Hsame').
    + by eapply countsOk_sameMines.
    + by rewrite (sameMines_countMines _ _ Hsame).
Qed.

Lemma sessionInv2_flag (s s' : Session) (r c : Z) :
  sessionInv2 s → handleFlag s r c = Ok s' → sessionInv2 s'.
Proof.
  intros Hinv2. rewrite handleFlag_unfold.
  destruct (terminal (status s)) eqn:Hterm; [by intros [= <-]|].
  destruct (cellOf (board s) r c) as [x|] eqn:Hx; [|done].
  destruct (isRevealed x) eqn:Hr; [by intros [= <-]|].
  destruct (negb (isFlagged x) && _) eqn:Hbudget; [by intros [= <-]|].
  intros [= <-].
  assert (sameMines (board s)
            (putCell (board s) r c (setFlagged (negb (isFlagged x)) x)))
    as Hsame by (by eapply sameMines_putCell).
  destruct Hinv2.
  split; unfold rowsOf, colsOf, minesOf in *; simpl_session; try done.
  - by rewrite countRevealedSafe_flag.
  - by eapply countsOk_sameMines.
  - by rewrite (sameMines_countMines _ _ Hsame).
Qed.

Lemma sessionInv2_step (s s' : Session) :
  sessionInv s → sessionInv2 s → step s s' → sessionInv2 s'.
Proof.
  intros Hinv Hinv2 Hstep. revert Hinv Hinv2.
  destruct Hstep as [rnd r c s1 s2 Hrun|r c s1 s2 Hrun|s1|d s1|s1 Hst];
    intros Hinv Hinv2.
  - apply (sessionInv2_reveal rnd s1 s2 r c Hinv Hinv2).
    by apply handleReveal_cases.
  - by eapply sessionInv2_flag.
  - apply sessionInv2_fresh.
  - unfold setDifficulty. case_decide as Heq; [|apply sessionInv2_fresh].
    destruct Hinv2.
    split; unfold rowsOf, colsOf, minesOf in *; simpl_session;
      rewrite ?Heq; done.
  - destruct Hinv2. unfold tick.
    split; unfold rowsOf, colsOf, minesOf in *; simpl_session;
      try done; [lia | congruence].
Qed.

Lemma reachable_inv2 (s : Session) : reachable s → sessionInv2 s.
Proof.
  induction 1 as [|s s' Hreach IH Hstep]; [apply sessionInv2_fresh|].
  eapply sessionInv2_step; [by apply reachable_inv | done | done].
Qed.

(** ** The grid, the mines and the counts *)

(** X9 (the grid of a session).  In every reachable session the grid has
    the rows and columns of the selected difficulty, and [minesPlanted] is
    [false] exactly in phase [ready]; in phase [ready] the counter of
    revealed cells and the timer are 0 and every cell is unrevealed, bears
    no mine and has count 0 (it may be flagged). *)
Theorem ready_state_blank (s : Session) :
  reachable s →
  length (board s) = Z.to_nat (rowsOf s) ∧
  (∀ row, row ∈ board s → length row = Z.to_nat (colsOf s)) ∧
  (minesPlanted s = false ↔ status s = ready) ∧
  (status s = ready →
   revealedCount s = 0 ∧ seconds s = 0 ∧
   ∀ r c x, cellOf (board s) r c = Some x →
            isMine x = false ∧ isRevealed x = false ∧ count x = 0).
Proof.
  intros Hreach.
  pose proof (reachable_inv _ Hreach) as Hinv.
  pose proof (reachable_inv2 _ Hreach) as Hinv2.
  pose proof (inv_dims _ Hinv) as Hd. unfold hasDims, shape in Hd.
  split_and!.
  - apply (f_equal length) in Hd.
    by rewrite length_fmap, length_replicate in Hd.
  - intros row [i Hi]%list_elem_of_lookup.
    assert ((length <$> board s) !! i = Some (length row)) as Hl
      by (by rewrite list_lookup_fmap, Hi).
    rewrite Hd in Hl. by apply lookup_replicate in Hl as [-> _].
  - apply Hinv.
  - intros Hst.
    assert (∀ r c x, cellOf (board s) r c = Some x →
              isMine x = false ∧ isRevealed x = false) as Hblank
      by (intros r c x Hx; by apply (inv_ready _ Hinv Hst r c x)).
    split_and!.
    + rewrite (shown_count _ Hinv2). apply countRevealedSafe_none.
      intros r c x Hx. by destruct (Hblank r c x Hx).
    + by apply Hinv2.
    + intros r c x Hx. destruct (Hblank r c x Hx) as [Hm Hr].
      split_and!; try done.
      rewrite (counts_ok _ Hinv2 r c x Hx), Hm.
      apply mineNeighbors_none. intros r' c' y Hy.
      by destruct (Hblank r' c' y Hy).
Qed.

Lemma ready_state_blank_witness :
  length (board (freshSession Beginner))
  = Z.to_nat (rowsOf (freshSession Beginner)).
Proof.
  destruct (ready_state_blank (freshSession Beginner) reachable_init)
    as [H _].
  exact H.
Defined.

(** X10 (the number of mines).  In every reachable session the grid holds
    either exactly [mines] mines or none at all, and none in phase
    [ready]. *)
Theorem mine_total (s : Session) :
  reachable s →
  (status s = ready → countMines (board s) = 0) ∧
  (countMines (board s) = minesOf s ∨ countMines (board s) = 0).
Proof.
  intros Hreach.
  pose proof (reachable_inv _ Hreach) as Hinv.
  pose proof (reachable_inv2 _ Hreach) as Hinv2.
  split; [|apply Hinv2].
  intros Hst. apply countMines_none. intros r c x Hx.
  by destruct (inv_ready _ Hinv Hst r c x Hx).
Qed.

Lemma mine_total_witness :
  countMines (board session_playing) = minesOf session_playing ∨
  countMines (board session_playing) = 0.
Proof.
  destruct (mine_total session_playing session_playing_reachable) as [_ H].
  exact H.
Defined.

(** X11 (the counts are right).  In every reachable session the [count]
    of a cell that is not a mine is the number of mines among its in-bounds
    neighbours in the current grid, the [count] of a mine is 0, and every
    [count] lies between 0 and 8. *)
Theorem counts_are_adjacent_mines (s : Session) (r c : Z) (x : Cell) :
  reachable s →
  cellOf (board s) r c = Some x →
  count x = (if isMine x then 0
             else mineNeighbors (rowsOf s) (colsOf s) (board s) r c) ∧
  0 ≤ count x ≤ 8.
Proof.
  intros Hinv2%reachable_inv2 Hx.
  pose proof (counts_ok _ Hinv2 r c x Hx) as Hc.
  split; [done|]. rewrite Hc. destruct (isMine x); [lia|].
  apply mineNeighbors_range.
Qed.

Lemma counts_are_adjacent_mines_witness :
  count (mkCell false false false 3) =
    (if isMine (mkCell false false false 3) then 0
     else mineNeighbors (rowsOf session_playing) (colsOf session_playing)
            (board session_playing) 0 0).
Proof.
  destruct (counts_are_adjacent_mines session_playing 0 0
              (mkCell false false false 3) session_playing_reachable)
    as [H _]; [vm_compute; reflexivity|].
  exact H.
Defined.

(** X12 (mines stay where they are).  Once the mines are planted, a call
    of [handleReveal] or [handleFlag] on a reachable session keeps the shape
    of the grid, the [isMine] and the [count] of every cell, and every
    revealed cell stays revealed. *)
Theorem mines_never_move (rnd : list (Z * Z)) (s s' : Session) (r c : Z) :
  reachable s → minesPlanted s = true →
  handleReveal rnd s r c = Ok s' ∨ handleFlag s r c = Ok s' →
  shape (board s') = shape (board s) ∧
  ∀ r' c' y, cellOf (board s) r' c' = Some y →
    ∃ y', cellOf (board s') r' c' = Some y' ∧
          isMine y' = isMine y ∧ count y' = count y ∧
          (isRevealed y = true → isRevealed y' = true).
Proof.
  intros Hinv%reachable_inv Hp Hrun.
  assert (status s ≠ ready) as Hst.
  { intros Hst%(inv_planted _ Hinv). congruence. }
  change (sameMines (board s) (board s')).
  destruct Hrun as [Hrun|Hrun].
  - pose proof (handleReveal_cases rnd s s' r c Hinv Hrun) as Hcase.
    destruct Hcase as [Hterm|nb x Hst' Hplant Hx Hf|x Hst' Hx Hrf
                      |x Hst' Hx Hr Hf Hm|nb secs x nb' Hfrom Hx Hr Hf Hm Hrun'];
      simpl_session; try done; try apply sameMines_refl.
    + apply sameMines_revealAllMines.
    + destruct Hfrom as [(Hst' & _)|(Hst' & _ & ->)]; [done|].
      pose proof (reveal_step_revealsOnly _ _ (board s) nb' r c x
                    (inv_dims _ Hinv) Hx Hf Hm Hrun')
        as Hsame%sameMines_revealsOnly.
      destruct (decide (countRevealedSafe nb' = totalSafe s)); simpl_session;
        [|done].
      eapply sameMines_trans; [done | apply sameMines_flagAllMines].
  - rewrite handleFlag_unfold in Hrun.
    destruct (terminal (status s)); [injection Hrun as <-; apply sameMines_refl|].
    destruct (cellOf (board s) r c) as [x|] eqn:Hx; [|done].
    destruct (isRevealed x); [injection Hrun as <-; apply sameMines_refl|].
    destruct (negb (isFlagged x) && _);
      [injection Hrun as <-; apply sameMines_refl|].
    injection Hrun as <-. simpl_session. by eapply sameMines_putCell.
Qed.

Lemma mines_never_move_witness :
  shape (board session_flagged) = shape (board session_playing).
Proof.
  destruct (mines_never_move [] session_playing session_flagged 0 1
              session_playing_reachable) as [H _].
  - vm_compute. reflexivity.
  - right. vm_compute. reflexivity.
  - exact H.
Defined.

(** ** Reveals *)

(** What the first click of a game finds after planting: no mine on the
    clicked cell or next to it. *)
Lemma planted_safe_zone (rnd : list (Z * Z)) (s : Session) (r c : Z)
    (nb : Board) :
  sessionInv s → sessionInv2 s → status s = ready →
  plantMines rnd (board s) (rowsOf s) (colsOf s) (minesOf s) r c = Ok nb →
  hasDims (rowsOf s) (colsOf s) nb ∧
  countMines nb = minesOf s ∧
  (∀ r' c' y', cellOf nb r' c' = Some y' →
     isRevealed y' = false ∧
     ∃ y, cellOf (board s) r' c' = Some y ∧ isFlagged y' = isFlagged y) ∧
  (∀ k y', k = (r, c) ∨ k ∈ neighbors r c →
     cellOf nb k.1 k.2 = Some y' → isMine y' = false) ∧
  (∀ y', cellOf nb r c = Some y' → count y' = 0).
Proof.
  intros Hinv Hinv2 Hst Hplant.
  pose proof (config_positive (difficulty s)) as (_ & _ & HM & _).
  assert (∀ r c y, cellOf (board s) r c = Some y → isMine y = false)
    as Hnone.
  { intros r' c' y Hy. by apply (inv_ready _ Hinv Hst r' c' y). }
  destruct (plantMines_spec rnd (board s) nb (rowsOf s) (colsOf s)
              (minesOf s) r c (inv_dims _ Hinv))
    as (Hs & Hcnt & Hcells); try done.
  { unfold minesOf. lia. }
  assert (hasDims (rowsOf s) (colsOf s) nb) as Hd
    by (unfold hasDims; rewrite Hs; apply Hinv).
  assert (∀ k y', k = (r, c) ∨ k ∈ neighbors r c →
            cellOf nb k.1 k.2 = Some y' → isMine y' = false) as Hzone.
  { intros k y' Hk Hy'.
    destruct (shape_cellOf (board s) nb k.1 k.2 Hs) as [y Hy]; [eauto|].
    destruct (Hcells k.1 k.2 y Hy) as (y2 & Hy2 & _ & _ & Hforb & _).
    assert (y2 = y') as -> by congruence.
    destruct (isMine y') eqn:Hm; [|done]. exfalso. apply Hforb; [done|].
    apply elem_of_forbiddenSet. destruct k as [kr kc].
    destruct Hk as [?|?]; [by left|right]. split; [done|]. simpl.
    apply (hasDims_cellOf _ _ nb); eauto. }
  split; [done|]. split; [done|]. split; [|split; [done|]].
  - intros r' c' y' Hy'.
    destruct (shape_cellOf (board s) nb r' c' Hs) as [y Hy]; [eauto|].
    destruct (Hcells r' c' y Hy) as (y2 & Hy2 & Hr2 & Hf2 & _).
    assert (y2 = y') as -> by congruence.
    destruct (inv_ready _ Hinv Hst r' c' y Hy) as [_ Hyr].
    split; [congruence|]. eauto.
  - intros y' Hy'.
    destruct (shape_cellOf (board s) nb r c Hs) as [y Hy]; [eauto|].
    destruct (Hcells r c y Hy) as (y2 & Hy2 & _ & _ & _ & Hc2).
    assert (y2 = y') as -> by congruence.
    rewrite Hc2, (Hzone (r, c) y') by auto.
    unfold mineNeighbors. rewrite length_filter_none; [done|].
    intros k Hk Hp. apply andb_prop_elim in Hp as [Hin Hmine].
    apply Is_true_eq_true in Hin, Hmine. unfold isMineAt in Hmine.
    destruct (cellOf nb k.1 k.2) as [yk|] eqn:Hyk; [|done].
    rewrite (Hzone k yk) in Hmine by auto. done.
Qed.

(** X13 (the first click is safe).  In a reachable session in phase
    [ready], a click on an unflagged cell returns as soon as the draws
    suffice, and whenever it returns: the phase is [playing] or [won], never
    [lost]; the grid holds exactly [mines] mines; the clicked cell is
    revealed, is no mine and has count 0; and each of its neighbours in the
    grid is no mine and is revealed, unless it is flagged. *)
Theorem first_click_safe (rnd : list (Z * Z)) (s : Session) (r c : Z)
    (x : Cell) :
  reachable s → status s = ready →
  cellOf (board s) r c = Some x → isFlagged x = false →
  (enoughDraws (rowsOf s) (colsOf s) (minesOf s) r c rnd →
   ∃ s', handleReveal rnd s r c = Ok s') ∧
  (∀ s', handleReveal rnd s r c = Ok s' →
     (status s' = playing ∨ status s' = won) ∧
     countMines (board s') = minesOf s' ∧
     cellOf (board s') r c = Some (mkCell false true false 0) ∧
     ∀ k y, k ∈ neighbors r c → cellOf (board s') k.1 k.2 = Some y →
            isMine y = false ∧ (isRevealed y = true ∨ isFlagged y = true)).
Proof.
  intros Hreach Hst Hx Hf.
  pose proof (reachable_inv _ Hreach) as Hinv.
  pose proof (reachable_inv2 _ Hreach) as Hinv2.
  split.
  { intros Hdraws. apply handleReveal_total; auto.
    apply (hasDims_cellOf _ _ (board s)); [apply Hinv | eauto]. }
  intros s' Hrun.
  pose proof (handleReveal_cases rnd s s' r c Hinv Hrun) as Hcase.
  destruct Hcase as [Hterm|nb x0 _ Hplant Hx0 Hf0|x0 Hst' Hx0 Hrf
                    |x0 Hst' Hx0 Hr0 Hf0 Hm0
                    |nb secs x0 nb' Hfrom Hx0 Hr0 Hf0 Hm0 Hrun'];
    try congruence.
  { by rewrite Hst in Hterm. }
  { exfalso.
    destruct (planted_safe_zone rnd s r c nb Hinv Hinv2 Hst Hplant)
      as (_ & _ & Hkeep & _).
    destruct (Hkeep r c x0 Hx0) as (_ & y & Hy & Hfy). congruence. }
  destruct Hfrom as [(_ & -> & Hplant)|(Hst' & _)]; [|congruence].
  destruct (planted_safe_zone rnd s r c nb Hinv Hinv2 Hst Hplant)
    as (Hd & Hcnt & Hkeep & Hzone & Hzero).
  rewrite decide_True in Hrun' by (by apply Hzero).
  destruct (floodReveal_spec _ _ nb r c Hd) as (b2 & Hrun2 & Hs & Hcells).
  { apply (hasDims_cellOf _ _ nb); eauto. }
  assert (b2 = nb') as -> by congruence.
  assert (x0 = mkCell false false false 0) as ->.
  { pose proof (Hzero _ Hx0) as Hz.
    destruct x0 as [m rv fl n]. simpl in *. congruence. }
  assert (∀ r' c' y, cellOf nb' r' c' = Some y → isMine y = false →
            cellOf (flagAllMines nb') r' c' = Some y) as Hflag.
  { intros r' c' y Hy Hm. unfold flagAllMines.
    change (fmap (λ row : list Cell, fmap ?g row) nb') with (mapBoard g nb').
    rewrite cellOf_fmap, Hy. simpl. by rewrite Hm. }
  assert (sameMines nb nb') as Hsame.
  { apply sameMines_revealsOnly.
    by apply (reveal_step_revealsOnly _ _ nb nb' r c _ Hd Hx0). }
  assert (cellOf nb' r c = Some (mkCell false true false 0)) as Hclicked.
  { destruct (Hcells (r, c) _ Hx0) as (Hin & _). apply Hin. constructor. }
  assert (∀ k y, k ∈ neighbors r c → cellOf nb' k.1 k.2 = Some y →
            isMine y = false ∧ (isRevealed y = true ∨ isFlagged y = true))
    as Hnbrs.
  { intros k y Hk Hy.
    destruct (shape_cellOf nb nb' k.1 k.2 Hs) as [yk Hyk]; [eauto|].
    pose proof (Hzone k yk (or_intror Hk) Hyk) as Hmk.
    destruct (Hkeep _ _ _ Hyk) as (Hrk & _).
    destruct (Hcells k yk Hyk) as (Hin & _ & Hor).
    destruct (isFlagged yk) eqn:Hfk.
    - destruct Hor as [?|[_ ?]].
      + assert (y = yk) as -> by congruence. auto.
      + assert (y = setRevealed true yk) as -> by congruence. auto.
    - rewrite Hin in Hy.
      + injection Hy as <-. auto.
      + apply (cascade_step true nb (r, c) (r, c) k
                 (mkCell false false false 0) yk); try done.
        constructor. }
  pose proof (sameMines_countMines _ _ Hsame) as Hcnt'.
  destruct (decide (countRevealedSafe nb' = totalSafe s)) as [Hwin|Hwin];
    unfold minesOf in *; simpl_session.
  - assert (sameMines nb' (flagAllMines nb')) as Hsame'.
    { apply (sameMines_mapBoard
               (λ cel, if isMine cel then setFlagged true cel else cel)).
      intros y. by destruct (isMine y) eqn:?. }
    split; [by right|].
    split; [rewrite (sameMines_countMines _ _ Hsame'); congruence|].
    split; [by apply Hflag|].
    intros k y Hk Hy.
    destruct (sameMines_back _ _ _ _ _ Hsame' Hy) as (y0 & Hy0 & Hm0' & _).
    destruct (Hnbrs k y0 Hk Hy0) as [Hmy0 Hor].
    rewrite (Hflag _ _ _ Hy0 Hmy0) in Hy. injection Hy as <-. auto.
  - split; [by left|]. split; [congruence|]. split; [done|]. done.
Qed.

Lemma first_click_safe_witness :
  status session_playing = playing ∨ status session_playing = won.
Proof.
  destruct (first_click_safe draws_corner (freshSession Beginner) 4 4
              emptyCell reachable_init eq_refl eq_refl eq_refl) as [_ H].
  destruct (H session_playing) as [Hst _]; [vm_compute; reflexivity|].
  exact Hst.
Defined.

(** X14 (revealing a numbered cell).  In a reachable session in phase
    [playing], a click on an unrevealed, unflagged cell that is no mine and
    whose count is not 0 returns; it reveals that cell, changes the
    [isRevealed] of no other cell, and raises [revealedCount] by exactly
    one. *)
Theorem reveal_numbered_cell (rnd : list (Z * Z)) (s : Session) (r c : Z)
    (x : Cell) :
  reachable s → status s = playing →
  cellOf (board s) r c = Some x →
  isRevealed x = false → isFlagged x = false → isMine x = false →
  count x ≠ 0 →
  ∃ s', handleReveal rnd s r c = Ok s' ∧
        revealedCount s' = revealedCount s + 1 ∧
        cellOf (board s') r c = Some (setRevealed true x) ∧
        (∀ r' c' y y', (r', c') ≠ (r, c) →
           cellOf (board s) r' c' = Some y →
           cellOf (board s') r' c' = Some y' →
           isRevealed y' = isRevealed y).
Proof.
  intros Hreach Hst Hx Hr Hf Hm Hc.
  pose proof (reachable_inv _ Hreach) as Hinv.
  pose proof (reachable_inv2 _ Hreach) as Hinv2.
  assert (minesPlanted s = true) as Hp.
  { destruct (minesPlanted s) eqn:Hp; [done|].
    apply (inv_planted _ Hinv) in Hp. congruence. }
  rewrite handleReveal_unfold, Hst, Hp.
  cbn [terminal negb mbind outcome_bind fst snd].
  rewrite Hx, Hr, Hf, Hm. cbn [orb]. rewrite decide_False by done.
  rewrite writeCell_cellOf, Hx. cbn [mbind outcome_bind].
  set (nb' := putCell (board s) r c (setRevealed true x)).
  assert (countRevealedSafe nb' = revealedCount s + 1) as Hcnt.
  { rewrite (shown_count _ Hinv2). unfold countRevealedSafe, nb'.
    pose proof (board_count_putCell
                  (λ cel : Cell, isRevealed cel && negb (isMine cel))
                  (board s) r c x (setRevealed true x) Hx) as Hput.
    cbv beta in Hput.
    rewrite decide_False in Hput by (rewrite Hr; simpl; tauto).
    rewrite decide_True in Hput by (simpl; by rewrite Hm).
    lia. }
  assert (cellOf nb' r c = Some (setRevealed true x)) as Hnew
    by (apply cellOf_putCell_same; eauto).
  assert (∀ r' c', (r', c') ≠ (r, c) →
            cellOf nb' r' c' = cellOf (board s) r' c') as Hother
    by (intros; apply cellOf_putCell_ne; eauto).
  assert (∀ r' c' y, cellOf nb' r' c' = Some y →
            ∃ y', cellOf (flagAllMines nb') r' c' = Some y' ∧
                  isRevealed y' = isRevealed y ∧
                  (isMine y = false → y' = y)) as Hflag.
  { intros r' c' y Hy. unfold flagAllMines.
    change (fmap (λ row : list Cell, fmap ?g row) nb') with (mapBoard g nb').
    rewrite cellOf_fmap, Hy. simpl. eexists. split; [done|].
    by destruct (isMine y). }
  destruct (decide (countRevealedSafe nb' = totalSafe s));
    (eexists; split; [done|]); simpl_session; (split; [done|]).
  - split.
    + destruct (Hflag r c _ Hnew) as (y' & -> & _ & Heq). f_equal.
      by apply Heq.
    + intros r' c' y y' Hne Hy Hy'. rewrite <- Hother in Hy by done.
      destruct (Hflag r' c' y Hy) as (y2 & Hy2 & ? & _). congruence.
  - split; [done|]. intros r' c' y y' Hne Hy Hy'.
    rewrite Hother in Hy' by done. congruence.
Qed.

Lemma reveal_numbered_cell_witness :
  ∃ s', handleReveal [] session_playing 0 0 = Ok s' ∧
        revealedCount s' = revealedCount session_playing + 1.
Proof.
  destruct (reveal_numbered_cell [] session_playing 0 0
              (mkCell false false false 3) session_playing_reachable
              ltac:(vm_compute; reflexivity) ltac:(vm_compute; reflexivity)
              eq_refl eq_refl eq_refl ltac:(discriminate))
    as (s' & Hrun & Hcnt & _).
  exists s'. split; [exact Hrun | exact Hcnt].
Defined.

(** X15 (reveals and flags).  Across a call of [handleReveal] on a reachable
    session a flagged cell stays flagged, and it stays unrevealed unless
    the call loses the game and the cell is a mine; a cell that was not
    flagged is flagged afterwards only when the call wins the game and the
    cell is a mine. *)
Theorem flags_survive_reveals (rnd : list (Z * Z)) (s s' : Session)
    (r c r' c' : Z) (y y' : Cell) :
  reachable s →
  handleReveal rnd s r c = Ok s' →
  cellOf (board s) r' c' = Some y →
  cellOf (board s') r' c' = Some y' →
  (isFlagged y = true →
   isFlagged y' = true ∧
   (isRevealed y = false → isRevealed y' = true →
    status s' = lost ∧ isMine y' = true)) ∧
  (isFlagged y = false → isFlagged y' = true →
   status s' = won ∧ isMine y' = true).
Proof.
  intros Hreach Hrun Hy Hy'.
  pose proof (reachable_inv _ Hreach) as Hinv.
  pose proof (reachable_inv2 _ Hreach) as Hinv2.
  pose proof (handleReveal_cases rnd s s' r c Hinv Hrun) as Hcase.
  assert (∀ z z' : Cell, z' = z →
    (isFlagged z = true →
     isFlagged z' = true ∧
     (isRevealed z = false → isRevealed z' = true →
      status s' = lost ∧ isMine z' = true)) ∧
    (isFlagged z = false → isFlagged z' = true →
     status s' = won ∧ isMine z' = true)) as Hsame.
  { intros z z' ->. split; [|congruence]. intros Hf. split; [done|congruence]. }
  destruct Hcase as [Hterm|nb x Hst Hplant Hx Hf|x Hst Hx Hrf
                    |x Hst Hx Hr Hf Hm|nb secs x nb' Hfrom Hx Hr Hf Hm Hrun'];
    simpl_session; try (apply Hsame; congruence).
  - (* a mine *)
    apply cellOf_mapBoard_inv in Hy' as (y0 & Hy0 & ->).
    assert (y0 = y) as -> by congruence. simpl_session.
    destruct (isMine y) eqn:Hmy; simpl; rewrite ?Hmy.
    + split; [|congruence]. intros Hfy. split; [done|]. by intros _ _.
    + split; [|congruence]. intros Hfy. split; [done|congruence].
  - (* a safe cell *)
    assert (hasDims (rowsOf s) (colsOf s) nb ∧
            ∀ y1, cellOf nb r' c' = Some y1 →
                  isFlagged y1 = isFlagged y ∧ isRevealed y1 = isRevealed y)
      as [Hd Hnb].
    { destruct Hfrom as [(Hst & _ & Hplant)|(Hst & _ & ->)].
      - destruct (planted_safe_zone rnd s r c nb Hinv Hinv2 Hst Hplant)
          as (Hd & _ & Hkeep & _).
        split; [done|]. intros y1 Hy1.
        destruct (Hkeep r' c' y1 Hy1) as (Hr1 & y0 & Hy0 & Hf0).
        assert (y0 = y) as -> by congruence.
        destruct (inv_ready _ Hinv Hst r' c' y Hy). split; congruence.
      - split; [apply Hinv|]. intros y1 Hy1.
        by assert (y1 = y) as -> by congruence. }
    pose proof (reveal_step_revealsOnly _ _ nb nb' r c x Hd Hx Hf Hm Hrun')
      as Hro.
    assert (∀ y2, cellOf nb' r' c' = Some y2 →
              isFlagged y2 = isFlagged y ∧
              (isFlagged y = true → isRevealed y2 = isRevealed y)) as Hnb'.
    { intros y2 Hy2.
      destruct (revealsOnly_back nb nb' r' c' y2 Hro Hy2)
        as (y1 & Hy1 & [->|(-> & _ & Hf1)]);
        destruct (Hnb y1 Hy1) as [Hfe Hre]; simpl; [done|].
      split; [done|]. congruence. }
    destruct (decide (countRevealedSafe nb' = totalSafe s)); simpl_session.
    + apply cellOf_mapBoard_inv in Hy' as (y2 & Hy2 & ->).
      destruct (Hnb' y2 Hy2) as [Hfe Hre].
      destruct (isMine y2) eqn:Hm2; simpl; rewrite ?Hm2.
      * split; [|done]. intros Hfy. split; [done|].
        rewrite (Hre Hfy). congruence.
      * split; [|congruence]. intros Hfy. split; [congruence|].
        rewrite (Hre Hfy). congruence.
    + destruct (Hnb' y' Hy') as [Hfe Hre].
      split; [|congruence]. intros Hfy. split; [congruence|].
      rewrite (Hre Hfy). congruence.
Qed.

Lemma flags_survive_reveals_witness :
  isFlagged (mkCell true true true 0) = true ∧
  (isRevealed (mkCell true false true 0) = false →
   isRevealed (mkCell true true true 0) = true →
   status session_lost = lost ∧ isMine (mkCell true true true 0) = true).
Proof.
  destruct (flags_survive_reveals [] session_flagged session_lost 1 0 0 1
              (mkCell true false true 0) (mkCell true true true 0)
              session_flagged_reachable
              ltac:(vm_compute; reflexivity) ltac:(vm_compute; reflexivity)
              ltac:(vm_compute; reflexivity)) as [H _].
  apply H. reflexivity.
Defined.

Lemma length_filter_Forall2_le {A : Type} (P : A → Prop)
    `{!∀ x, Decision (P x)} (l l' : list A) :
  Forall2 (λ x x', P x → P x') l l' →
  (length (filter P l) ≤ length (filter P l'))%nat.
Proof.
  induction 1 as [|x x' l l' Hx _ IH]; [done|].
  rewrite !filter_cons.
  destruct (decide (P x)), (decide (P x')); simpl; try tauto; lia.
Qed.

Lemma countRevealedSafe_mono (b b' : Board) :
  shape b = shape b' →
  (∀ r c y y', cellOf b r c = Some y → cellOf b' r c = Some y' →
               isRevealed y && negb (isMine y) →
               isRevealed y' && negb (isMine y')) →
  countRevealedSafe b ≤ countRevealedSafe b'.
Proof.
  intros Hs Hc. unfold countRevealedSafe. apply inj_le.
  apply length_filter_Forall2_le, Forall2_join.
  by apply board_Forall2.
Qed.

(** The cell clicked is revealed by the reveal step. *)
Lemma reveal_step_clicked (rows cols : Z) (nb nb' : Board) (r c : Z)
    (x : Cell) :
  hasDims rows cols nb → cellOf nb r c = Some x →
  (if decide (count x = 0) then floodReveal nb r c
   else writeCell nb r c (setRevealed true)) = Ok nb' →
  cellOf nb' r c = Some (setRevealed true x).
Proof.
  intros Hd Hx Hrun. case_decide.
  - destruct (floodReveal_spec rows cols nb r c Hd) as (b2 & Hrun2 & _ & Hc).
    { apply (hasDims_cellOf rows cols nb); eauto. }
    assert (b2 = nb') as -> by congruence.
    destruct (Hc (r, c) x Hx) as (Hin & _). apply Hin. constructor.
  - apply writeCell_Ok in Hrun as (x' & Hx' & ->).
    assert (x' = x) as -> by congruence.
    apply cellOf_putCell_same. eauto.
Qed.

Lemma countRevealedSafe_grows (b b' : Board) (r c : Z) (x : Cell) :
  revealsOnly b b' →
  cellOf b r c = Some x → isRevealed x = false → isMine x = false →
  cellOf b' r c = Some (setRevealed true x) →
  countRevealedSafe b < countRevealedSafe b'.
Proof.
  intros [Hs Hc] Hx Hr Hm Hx'.
  pose proof (board_count_putCell
                (λ cel : Cell, isRevealed cel && negb (isMine cel))
                b r c x (setRevealed true x) Hx) as Hput.
  cbv beta in Hput.
  rewrite decide_False in Hput by (rewrite Hr; simpl; tauto).
  rewrite decide_True in Hput by (simpl; by rewrite Hm).
  assert (countRevealedSafe (putCell b r c (setRevealed true x))
          ≤ countRevealedSafe b') as Hle.
  { apply countRevealedSafe_mono; [by rewrite shape_putCell|].
    intros r' c' y y'. rewrite cellOf_putCell by eauto.
    case_decide as Heq.
    - destruct Heq as [-> ->]. intros [= <-] Hy'.
      by assert (y' = setRevealed true x) as -> by congruence.
    - intros Hy Hy'. destruct (Hc r' c' y Hy) as [?|(? & ? & ?)].
      + by assert (y' = y) as -> by congruence.
      + assert (y' = setRevealed true y) as -> by congruence.
        simpl. by intros [_ ?]%andb_prop_elim. }
  unfold countRevealedSafe in *. lia.
Qed.

(** X16 (progress of a game).  Across a call of [handleReveal] on a
    reachable session [revealedCount] never decreases and never exceeds
    [rows * cols]; it grows strictly whenever the call changes the grid
    without losing the game. *)
Theorem reveal_progress (rnd : list (Z * Z)) (s s' : Session) (r c : Z) :
  reachable s →
  handleReveal rnd s r c = Ok s' →
  revealedCount s ≤ revealedCount s' ≤ rowsOf s * colsOf s ∧
  (board s' ≠ board s → status s' ≠ lost →
   revealedCount s < revealedCount s').
Proof.
  intros Hreach Hrun.
  pose proof (reachable_inv _ Hreach) as Hinv.
  pose proof (reachable_inv2 _ Hreach) as Hinv2.
  assert (reachable s') as Hreach'.
  { eapply reachable_step; [done|]. by eapply step_reveal. }
  pose proof (reachable_inv _ Hreach') as Hinv'.
  pose proof (reachable_inv2 _ Hreach') as Hinv2'.
  pose proof (config_positive (difficulty s)) as (HR & HC & _ & _).
  pose proof (handleReveal_cases rnd s s' r c Hinv Hrun) as Hcase.
  assert (difficulty s' = difficulty s) as Hdiff.
  { destruct Hcase; try done.
    by destruct (decide (countRevealedSafe nb' = totalSafe s)). }
  assert (revealedCount s' ≤ rowsOf s * colsOf s) as Hupper.
  { rewrite (shown_count _ Hinv2').
    pose proof (inv_dims _ Hinv') as Hd. unfold rowsOf, colsOf in *.
    rewrite Hdiff in Hd.
    rewrite <- (board_length _ _ (board s') (Z.lt_le_incl _ _ HR)
                  (Z.lt_le_incl _ _ HC) Hd).
    unfold countRevealedSafe. apply inj_le, length_filter. }
  destruct Hcase as [Hterm|nb x Hst Hplant Hx Hf|x Hst Hx Hrf
                    |x Hst Hx Hr Hf Hm|nb secs x nb' Hfrom Hx Hr Hf Hm Hrun'];
    simpl_session; try (split; [lia | done]).
  assert (hasDims (rowsOf s) (colsOf s) nb ∧
          countRevealedSafe nb = revealedCount s) as [Hd Hcnt].
  { destruct Hfrom as [(Hst & _ & Hplant)|(Hst & _ & ->)].
    - destruct (planted_safe_zone rnd s r c nb Hinv Hinv2 Hst Hplant)
        as (Hd & _ & Hkeep & _).
      split; [done|]. rewrite (shown_count _ Hinv2).
      rewrite !countRevealedSafe_none; [done| |].
      + intros r' c' y Hy. by apply (inv_ready _ Hinv Hst r' c' y).
      + intros r' c' y Hy. by destruct (Hkeep r' c' y Hy).
    - split; [apply Hinv | by rewrite (shown_count _ Hinv2)]. }
  pose proof (reveal_step_revealsOnly _ _ nb nb' r c x Hd Hx Hf Hm Hrun')
    as Hro.
  pose proof (reveal_step_clicked _ _ nb nb' r c x Hd Hx Hrun') as Hx'.
  pose proof (countRevealedSafe_grows nb nb' r c x Hro Hx Hr Hm Hx') as Hlt.
  assert (revealedCount s < countRevealedSafe nb') as Hlt' by lia.
  destruct (decide (countRevealedSafe nb' = totalSafe s)); simpl_session;
    (split; [lia | done]).
Qed.

Lemma reveal_progress_witness :
  revealedCount (freshSession Beginner) < revealedCount session_playing.
Proof.
  destruct (reveal_progress draws_corner (freshSession Beginner)
              session_playing 4 4 reachable_init) as [_ H];
    [vm_compute; reflexivity|].
  apply H; vm_compute; discriminate.
Defined.

Lemma handleFlag_status (s s' : Session) (r c : Z) :
  handleFlag s r c = Ok s' → status s' = status s.
Proof.
  rewrite handleFlag_unfold. repeat case_match; by intros [= <-].
Qed.

(** X17 (the phases of a game).  A step of a reachable session keeps the
    phase, or returns to [ready], or leads from [ready] to [playing] or
    [won], or from [playing] to [won] or [lost]: a game that is over stays
    over until it is set up anew.  A phase other than [ready] is entered
    only by a call of [handleReveal] on a cell of the grid, and a step that
    returns to [ready] yields the fresh session of its difficulty. *)
Theorem phase_transitions (s s' : Session) :
  reachable s → step s s' →
  (status s' = status s ∨ status s' = ready ∨
   (status s = ready ∧ (status s' = playing ∨ status s' = won)) ∨
   (status s = playing ∧ (status s' = won ∨ status s' = lost))) ∧
  (status s' ≠ status s → status s' ≠ ready →
   ∃ rnd r c, handleReveal rnd s r c = Ok s' ∧
              inBounds r c (rowsOf s) (colsOf s) = true) ∧
  (status s' = ready → status s ≠ ready →
   s' = freshSession (difficulty s')).
Proof.
  intros Hinv%reachable_inv Hstep. revert Hinv.
  destruct Hstep as [rnd r c s1 s2 Hrun|r c s1 s2 Hrun|s1|d s1|s1 Hst];
    intros Hinv.
  - pose proof (handleReveal_cases rnd s1 s2 r c Hinv Hrun) as Hcase.
    assert (status s2 ≠ status s1 →
            inBounds r c (rowsOf s1) (colsOf s1) = true) as Hin.
    { intros Hne.
      destruct (inBounds r c (rowsOf s1) (colsOf s1)) eqn:Hin; [done|].
      exfalso. rewrite handleReveal_unfold in Hrun.
      destruct (terminal (status s1)); [injection Hrun as <-; done|].
      apply bind_Ok in Hrun as (st & Hst & Hrun).
      assert (hasDims (rowsOf s1) (colsOf s1) st.1.1.1) as Hd.
      { destruct (minesPlanted s1) eqn:Hp; cbn [negb] in Hst.
        - injection Hst as <-. apply Hinv.
        - apply bind_Ok in Hst as (nb & Hplant & [= <-]). cbn [fst].
          eapply plantMines_shape_any; [done| |done].
          by apply (inv_planted _ Hinv). }
      destruct (cellOf st.1.1.1 r c) as [x|] eqn:Hx; [|done].
      assert (inBounds r c (rowsOf s1) (colsOf s1) = true); [|congruence].
      apply (hasDims_cellOf _ _ st.1.1.1); eauto. }
    destruct Hcase as [Hterm|nb x Hst Hplant Hx Hf|x Hst Hx Hrf
                      |x Hst Hx Hr Hf Hm|nb secs x nb' Hfrom Hx Hr Hf Hm Hrun'].
    + split_and!; [by left|done|done].
    + simpl_session. split_and!; [|by eauto 10|done].
      right; right; left. auto.
    + split_and!; [by left|done|done].
    + simpl_session. split_and!; [|by eauto 10|done].
      right; right; right. auto.
    + assert (status s1 = ready ∨ status s1 = playing) as Hor
        by (destruct Hfrom as [(? & _)|(? & _)]; auto).
      destruct (decide (countRevealedSafe nb' = totalSafe s1));
        simpl_session; (split_and!; [|by eauto 10|done]).
      * destruct Hor as [?|?]; [right; right; left|right; right; right]; auto.
      * destruct Hor as [?|?]; [right; right; left; auto | left; done].
  - pose proof (handleFlag_status _ _ _ _ Hrun) as Hst.
    split_and!; [by left|done|congruence].
  - split_and!; [right; by left|done|done].
  - unfold setDifficulty. case_decide; simpl_session.
    + split_and!; [by left|done|done].
    + split_and!; [right; by left|done|done].
  - unfold tick. simpl_session. split_and!; [by left|done|congruence].
Qed.

Lemma phase_transitions_witness :
  status session_lost = status session_flagged ∨ status session_lost = ready ∨
  (status session_flagged = ready ∧
   (status session_lost = playing ∨ status session_lost = won)) ∨
  (status session_flagged = playing ∧
   (status session_lost = won ∨ status session_lost = lost)).
Proof.
  destruct (phase_transitions session_flagged session_lost
              session_flagged_reachable) as [H _].
  - apply (step_reveal [] 1 0). vm_compute. reflexivity.
  - exact H.
Defined.

(** X18 (how a game is lost).  A step of a reachable session reaches the
    phase [lost] only from the phase [playing], and only by a call of
    [handleReveal] on an unrevealed, unflagged mine: no flag toggle, timer
    tick, reset or difficulty change loses a game. *)
Theorem loss_only_by_mine (s s' : Session) :
  reachable s → step s s' →
  status s' = lost → status s ≠ lost →
  status s = playing ∧
  ∃ rnd r c x,
    handleReveal rnd s r c = Ok s' ∧
    cellOf (board s) r c = Some x ∧
    isMine x = true ∧ isRevealed x = false ∧ isFlagged x = false.
Proof.
  intros Hinv%reachable_inv Hstep. revert Hinv.
  destruct Hstep as [rnd r c s1 s2 Hrun|r c s1 s2 Hrun|s1|d s1|s1 Hst];
    intros Hinv Hlost Hnot.
  - pose proof (handleReveal_cases rnd s1 s2 r c Hinv Hrun) as Hcase.
    destruct Hcase as [Hterm|nb x Hst Hplant Hx Hf|x Hst Hx Hrf
                      |x Hst Hx Hr Hf Hm|nb secs x nb' Hfrom Hx Hr Hf Hm Hrun'];
      try done.
    + split; [done|]. exists rnd, r, c, x. done.
    + by destruct (decide (countRevealedSafe nb' = totalSafe s1)).
  - apply handleFlag_status in Hrun. congruence.
  - done.
  - unfold setDifficulty in Hlost. by case_decide.
  - done.
Qed.

Lemma loss_only_by_mine_witness : status session_flagged = playing.
Proof.
  destruct (loss_only_by_mine session_flagged session_lost
              session_flagged_reachable) as [H _].
  - apply (step_reveal [] 1 0). vm_compute. reflexivity.
  - vm_compute. reflexivity.
  - vm_compute. discriminate.
  - exact H.
Defined.

Lemma foldlM_app {S A : Type} (f : S → A → outcome S) (s : S) (l1 l2 : list A) :
  foldlM f s (l1 ++ l2) = s' ← foldlM f s l1; foldlM f s' l2.
Proof.
  revert s. induction l1 as [|x l1 IH]; intros s; simpl; [done|].
  destruct (f s x) as [s1| |]; simpl; [apply IH|done..].
Qed.

(** A reveal of an unrevealed, unflagged cell that is no mine, in a game
    that is under way: it returns, the game goes on or is won, one more
    cell at least is revealed, and the mines stay. *)
Lemma safe_reveal_step (rnd : list (Z * Z)) (s : Session) (r c : Z)
    (x : Cell) :
  sessionInv s → sessionInv2 s → status s = playing →
  cellOf (board s) r c = Some x →
  isRevealed x = false → isFlagged x = false → isMine x = false →
  ∃ s', handleReveal rnd s r c = Ok s' ∧
        (status s' = playing ∨ status s' = won) ∧
        revealedCount s < revealedCount s' ∧
        countMines (board s') = countMines (board s) ∧
        difficulty s' = difficulty s.
Proof.
  intros Hinv Hinv2 Hst Hx Hr Hf Hm.
  assert (minesPlanted s = true) as Hp.
  { destruct (minesPlanted s) eqn:Hp; [done|].
    apply (inv_planted _ Hinv) in Hp. congruence. }
  pose proof (inv_dims _ Hinv) as Hd.
  destruct (reveal_step_total _ _ _ r c x Hd Hx) as [nb' Hrun].
  pose proof (reveal_step_revealsOnly _ _ _ nb' r c x Hd Hx Hf Hm Hrun) as Hro.
  pose proof (reveal_step_clicked _ _ _ nb' r c x Hd Hx Hrun) as Hx'.
  pose proof (countRevealedSafe_grows _ nb' r c x Hro Hx Hr Hm Hx') as Hlt.
  pose proof (sameMines_countMines _ _ (sameMines_revealsOnly _ _ Hro)) as Hcm.
  pose proof (sameMines_countMines _ _ (sameMines_flagAllMines nb')) as Hcm'.
  rewrite <- (shown_count _ Hinv2) in Hlt.
  rewrite handleReveal_unfold, Hst, Hp.
  cbn [terminal negb mbind outcome_bind fst snd].
  rewrite Hx, Hr, Hf, Hm. cbn [orb]. rewrite Hrun. cbn [mbind outcome_bind].
  destruct (decide (countRevealedSafe nb' = totalSafe s));
    (eexists; split; [done|]); simpl_session.
  - split_and!; [by right|done|congruence|done].
  - split_and!; [by left|done|done|done].
Qed.

(** In a game under way that is not won, with its mines in place, some
    cell that is no mine is still unrevealed. *)
Lemma unrevealed_safe_cell (s : Session) :
  sessionInv s → status s = playing →
  countMines (board s) = minesOf s →
  countRevealedSafe (board s) < totalSafe s ∧
  ∃ r c x, cellOf (board s) r c = Some x ∧ isMine x = false ∧
           isRevealed x = false.
Proof.
  intros Hinv Hst Hmines.
  pose proof (config_positive (difficulty s)) as (HR & HC & _ & _).
  pose proof (board_length (rowsOf s) (colsOf s) (board s)
                ltac:(unfold rowsOf; lia) ltac:(unfold colsOf; lia)
                (inv_dims _ Hinv)) as Hlen.
  pose proof (safe_cells_partition (mjoin (board s))) as Hpart.
  assert (countRevealedSafe (board s) ≠ totalSafe s) as Hne.
  { intros Hw%(inv_won _ Hinv). congruence. }
  unfold countRevealedSafe, totalSafe, countMines in *.
  destruct (filter (λ cel : Cell, negb (isRevealed cel) && negb (isMine cel))
                   (mjoin (board s))) as [|x l] eqn:Hfil.
  - simpl in Hpart. lia.
  - split; [simpl in Hpart; lia|].
    assert (x ∈ filter (λ cel : Cell, negb (isRevealed cel) && negb (isMine cel))
                       (mjoin (board s))) as Hin by (rewrite Hfil; by left).
    apply list_elem_of_filter in Hin as [Hp (r & c & Hx)%elem_of_board].
    exists r, c, x. apply andb_prop_elim in Hp as [Hr Hm].
    split; [done|]. by destruct (isRevealed x), (isMine x).
Qed.

(** X19 (a game can be won).  In a reachable session in phase [playing]
    whose grid holds [mines] mines, some finite sequence of flag toggles and
    reveals leads to the phase [won]: as long as the game is not won a cell
    that is no mine is still unrevealed, and revealing it, after taking its
    flag off if it bears one, reveals at least one more cell and does not
    lose the game. *)
Theorem game_is_winnable (s : Session) :
  reachable s → status s = playing →
  countMines (board s) = minesOf s →
  ∃ (evs : list Event) (s' : Session),
    Forall (λ e, ∃ r c, e = EvFlag r c ∨ e = EvReveal [] r c) evs ∧
    foldlM handle s evs = Ok s' ∧ status s' = won.
Proof.
  intros Hreach Hst Hmines.
  remember (Z.to_nat (totalSafe s - revealedCount s)) as n eqn:Hn.
  revert s Hreach Hst Hmines Hn.
  induction (lt_wf n) as [n _ IH]. intros s Hreach Hst Hmines Hn.
  pose proof (reachable_inv _ Hreach) as Hinv.
  pose proof (reachable_inv2 _ Hreach) as Hinv2.
  destruct (unrevealed_safe_cell s Hinv Hst Hmines)
    as (Hlt & r & c & x & Hx & Hm & Hr).
  rewrite <- (shown_count _ Hinv2) in Hlt.
  (* remove a flag from the cell, should it bear one *)
  assert (∃ pre s1 x1,
    Forall (λ e, ∃ r c, e = EvFlag r c ∨ e = EvReveal [] r c) pre ∧
    foldlM handle s pre = Ok s1 ∧ reachable s1 ∧ status s1 = playing ∧
    countMines (board s1) = minesOf s1 ∧
    totalSafe s1 = totalSafe s ∧ revealedCount s1 = revealedCount s ∧
    cellOf (board s1) r c = Some x1 ∧ isMine x1 = false ∧
    isRevealed x1 = false ∧ isFlagged x1 = false)
    as (pre & s1 & x1 & Hpre & Hrun1 & Hreach1 & Hst1 & Hmines1 & Hts1 &
        Hrc1 & Hx1 & Hm1 & Hr1 & Hf1).
  { destruct (isFlagged x) eqn:Hf.
    - pose proof (handleFlag_unfold s r c) as Hflag.
      rewrite Hst, Hx, Hr, Hf in Hflag. cbn [terminal negb andb] in Hflag.
      eexists [EvFlag r c], _, _. split_and!.
      + repeat constructor. eauto.
      + simpl. rewrite Hflag. done.
      + eapply reachable_step; [done|]. by eapply step_flag.
      + done.
      + simpl_session. unfold minesOf in *. simpl_session.
        rewrite <- Hmines. apply sameMines_countMines.
        by eapply sameMines_putCell.
      + done.
      + done.
      + simpl_session. apply cellOf_putCell_same. eauto.
      + done.
      + done.
      + done.
    - exists [], s, x. split_and!; try done. }
  destruct (safe_reveal_step [] s1 r c x1 (reachable_inv _ Hreach1)
              (reachable_inv2 _ Hreach1) Hst1 Hx1 Hr1 Hf1 Hm1)
    as (s2 & Hrun2 & Hst2 & Hlt2 & Hmines2 & Hdiff2).
  assert (reachable s2) as Hreach2.
  { eapply reachable_step; [done|]. by eapply step_reveal. }
  destruct Hst2 as [Hst2|Hst2].
  - destruct (IH (Z.to_nat (totalSafe s2 - revealedCount s2))) with (s := s2)
      as (evs & s' & Hevs & Hrun & Hwon); try done.
    + assert (totalSafe s2 = totalSafe s1) as ->
        by (unfold totalSafe, rowsOf, colsOf, minesOf; by rewrite Hdiff2).
      pose proof (reachable_inv _ Hreach2) as Hinv2'.
      pose proof (reachable_inv2 _ Hreach2) as Hinv22.
      lia.
    + unfold minesOf in *. rewrite Hdiff2. congruence.
    + exists (pre ++ EvReveal [] r c :: evs), s'. split_and!.
      * apply Forall_app. split; [done|]. constructor; [eauto|done].
      * rewrite foldlM_app, Hrun1. simpl. rewrite Hrun2. done.
      * done.
  - exists (pre ++ [EvReveal [] r c]), s2. split_and!.
    + apply Forall_app. split; [done|]. repeat constructor. eauto.
    + rewrite foldlM_app, Hrun1. simpl. by rewrite Hrun2.
    + done.
Qed.

Lemma game_is_winnable_witness :
  ∃ (evs : list Event) (s' : Session),
    Forall (λ e, ∃ r c, e = EvFlag r c ∨ e = EvReveal [] r c) evs ∧
    foldlM handle session_playing evs = Ok s' ∧ status s' = won.
Proof.
  apply (game_is_winnable session_playing session_playing_reachable);
    vm_compute; reflexivity.
Defined.

(** ** The counter of covered tiles *)

(** The cells still covered. *)
Definition countCovered (b : Board) : Z :=
  Z.of_nat (length (filter (λ cel : Cell, negb (isRevealed cel)) (mjoin b))).

(** Every cell is covered, a revealed safe cell or a revealed mine. *)
Lemma cells_partition (l : list Cell) :
  (length (filter (λ cel : Cell, negb (isRevealed cel)) l) +
   length (filter (λ cel : Cell, isRevealed cel && negb (isMine cel)) l) +
   length (filter (λ cel : Cell, isRevealed cel && isMine cel) l)
   = length l)%nat.
Proof.
  induction l as [|[m rv f n] l IH]; [done|].
  rewrite !filter_cons. simpl. destruct m, rv; simpl; lia.
Qed.

Lemma length_filter_ext_in {A : Type} (P Q : A → Prop)
    `{!∀ x, Decision (P x), !∀ x, Decision (Q x)} (l : list A) :
  (∀ x, x ∈ l → (P x ↔ Q x)) → length (filter P l) = length (filter Q l).
Proof.
  induction l as [|a l IH]; intros HPQ; [done|].
  rewrite !filter_cons.
  pose proof (HPQ a (list_elem_of_here _ _)).
  specialize (IH (λ y Hy, HPQ y (list_elem_of_further _ _ _ Hy))).
  destruct (decide (P a)), (decide (Q a)); simpl; try tauto; lia.
Qed.

(** X20 (the counter of covered tiles).  In every reachable session
    [revealedCount] is the number of revealed cells of the grid that are no
    mines.  Hence [coveredLeft] is the number of unrevealed cells as long as
    the game is not lost, equals [mines] once it is won, and after a loss
    still counts the mines that the loss has revealed. *)
Theorem covered_tiles (s : Session) :
  reachable s →
  revealedCount s = countRevealedSafe (board s) ∧
  (status s ≠ lost → coveredLeft s = countCovered (board s)) ∧
  (status s = lost →
   coveredLeft s = countCovered (board s) + countMines (board s)) ∧
  (status s = won → coveredLeft s = minesOf s).
Proof.
  intros Hreach.
  pose proof (reachable_inv _ Hreach) as Hinv.
  pose proof (reachable_inv2 _ Hreach) as Hinv2.
  pose proof (config_positive (difficulty s)) as (HR & HC & _ & _).
  pose proof (board_length (rowsOf s) (colsOf s) (board s)
                ltac:(unfold rowsOf; lia) ltac:(unfold colsOf; lia)
                (inv_dims _ Hinv)) as Hlen.
  pose proof (cells_partition (mjoin (board s))) as Hpart.
  pose proof (shown_count _ Hinv2) as Hcnt.
  unfold coveredLeft, countCovered, countMines. rewrite Hcnt.
  unfold countRevealedSafe in *. split; [done|]. split_and!.
  - intros Hst.
    rewrite (length_filter_none (λ cel : Cell, isRevealed cel && isMine cel))
      in Hpart; [lia|].
    intros x (r & c & Hx)%elem_of_board [Hr Hm]%andb_prop_elim.
    apply Is_true_eq_true in Hr, Hm.
    destruct (inv_clean _ Hinv Hst r c x Hx Hr). congruence.
  - intros Hst.
    rewrite (length_filter_ext_in
               (λ cel : Cell, isRevealed cel && isMine cel)
               (λ cel : Cell, isMine cel)) in Hpart; [lia|].
    intros x (r & c & Hx)%elem_of_board. split.
    + by intros [_ ?]%andb_prop_elim.
    + intros Hm. apply andb_prop_intro. split; [|done].
      apply Is_true_eq_true in Hm. apply Is_true_eq_left.
      by apply (inv_lost _ Hinv Hst r c x Hx).
  - intros Hst. apply (inv_won _ Hinv) in Hst.
    unfold countRevealedSafe, totalSafe in Hst. lia.
Qed.

Lemma covered_tiles_witness :
  revealedCount session_playing = countRevealedSafe (board session_playing).
Proof.
  destruct (covered_tiles session_playing session_playing_reachable)
    as [H _].
  exact H.
Defined.

(** * The presentation *)

(** ** Cells *)

(** [NUM_COLOR] is defined on 1, ..., 8. *)
Lemma NUM_COLOR_defined (n : Z) : 1 ≤ n ≤ 8 → is_Some (NUM_COLOR n).
Proof.
  intros Hn.
  assert (n = 1 ∨ n = 2 ∨ n = 3 ∨ n = 4 ∨ n = 5 ∨ n = 6 ∨ n = 7 ∨ n = 8)
    as Hcases by lia.
  repeat (destruct Hcases as [->|Hcases]; [by eexists|]). subst. by eexists.
Qed.

(** The numeral of a count is neither the bomb nor the flag. *)
Lemma display_small_number (n : Z) :
  1 ≤ n ≤ 8 → pretty n ≠ "💣" ∧ pretty n ≠ "🚩".
Proof.
  intros Hn.
  assert (n = 1 ∨ n = 2 ∨ n = 3 ∨ n = 4 ∨ n = 5 ∨ n = 6 ∨ n = 7 ∨ n = 8)
    as Hcases by lia.
  repeat (destruct Hcases as [->|Hcases]; [by split|]). subst. by split.
Qed.

(** X21 (the numbers shown).  In every reachable session a revealed cell
    that is no mine shows nothing when none of its neighbours in the grid
    is a mine, and otherwise shows the decimal numeral of the number of
    mines among them, in the colour [NUM_COLOR] gives for that number (the
    fallback colour is not used). *)
Theorem display_shows_adjacent_mines (s : Session) (r c : Z) (x : Cell) :
  reachable s →
  cellOf (board s) r c = Some x →
  isRevealed x = true → isMine x = false →
  (mineNeighbors (rowsOf s) (colsOf s) (board s) r c = 0 →
   display x = "") ∧
  (mineNeighbors (rowsOf s) (colsOf s) (board s) r c ≠ 0 →
   display x = pretty (mineNeighbors (rowsOf s) (colsOf s) (board s) r c) ∧
   ∃ col,
     NUM_COLOR (mineNeighbors (rowsOf s) (colsOf s) (board s) r c) = Some col ∧
     cellColor x = Some col).
Proof.
  intros Hinv2%reachable_inv2 Hx Hr Hm.
  pose proof (counts_ok _ Hinv2 r c x Hx) as Hc. rewrite Hm in Hc.
  pose proof (mineNeighbors_range (rowsOf s) (colsOf s) (board s) r c) as Hrg.
  unfold display, cellColor. rewrite Hr, Hm, Hc. cbn [negb]. split.
  - intros ->. done.
  - intros Hne. rewrite decide_False by done. split; [done|].
    destruct (NUM_COLOR_defined
                (mineNeighbors (rowsOf s) (colsOf s) (board s) r c))
      as [col Hcol]; [lia|].
    exists col. by rewrite Hcol.
Qed.

Lemma display_shows_adjacent_mines_witness :
  display (mkCell false true false 3) =
    pretty (mineNeighbors (rowsOf session_playing) (colsOf session_playing)
              (board session_playing) 1 2).
Proof.
  destruct (display_shows_adjacent_mines session_playing 1 2
              (mkCell false true false 3) session_playing_reachable
              ltac:(vm_compute; reflexivity) eq_refl eq_refl) as [_ H].
  destruct H as [H _]; [vm_compute; discriminate|].
  exact H.
Defined.

(** X22 (the bombs shown).  In every reachable session a cell shows the
    bomb exactly when the game is lost and the cell is a mine; in a game
    that is won every mine shows the flag. *)
Theorem bomb_shown_iff_lost (s : Session) (r c : Z) (x : Cell) :
  reachable s →
  cellOf (board s) r c = Some x →
  (display x = "💣" ↔ status s = lost ∧ isMine x = true) ∧
  (status s = won → isMine x = true → display x = "🚩").
Proof.
  intros Hreach Hx.
  pose proof (reachable_inv _ Hreach) as Hinv.
  pose proof (reachable_inv2 _ Hreach) as Hinv2.
  pose proof (counts_ok _ Hinv2 r c x Hx) as Hc.
  pose proof (mineNeighbors_range (rowsOf s) (colsOf s) (board s) r c) as Hrg.
  assert (display x = "💣" ↔ isRevealed x = true ∧ isMine x = true) as Hbomb.
  { unfold display.
    destruct (isRevealed x), (isFlagged x), (isMine x) eqn:Hm; cbn [negb];
      try (split; [done | by intros [? ?]]); try done.
    all: case_decide; [split; [done | by intros [? ?]]|].
    all: split; [|by intros [? ?]].
    all: intros Hp; by apply (display_small_number (count x)) in Hp; [|lia]. }
  split.
  - rewrite Hbomb. split.
    + intros [Hr Hm]. split; [|done].
      destruct (decide (status s = lost)) as [|Hst]; [done|].
      destruct (inv_clean _ Hinv Hst r c x Hx Hr). congruence.
    + intros [Hst Hm]. split; [|done].
      by apply (inv_lost _ Hinv Hst r c x Hx).
  - intros Hst Hm. pose proof (inv_won_flags _ Hinv Hst r c x Hx Hm) as Hf.
    assert (isRevealed x = false) as Hr.
    { destruct (isRevealed x) eqn:Hr; [|done].
      destruct (inv_clean _ Hinv) with (r := r) (c := c) (x := x);
        congruence. }
    unfold display. by rewrite Hr, Hf.
Qed.

Lemma bomb_shown_iff_lost_witness :
  display (mkCell true true true 0) = "💣" ↔
  status session_lost = lost ∧ isMine (mkCell true true true 0) = true.
Proof.
  destruct (bomb_shown_iff_lost session_lost 0 1 (mkCell true true true 0)
              session_lost_reachable) as [H _]; [vm_compute; reflexivity|].
  exact H.
Defined.

(** A game won by its first click. *)
Definition session_won : Session :=
  orElse (handleReveal draws_example (freshSession Beginner) 4 4)
         (freshSession Beginner).

Lemma session_won_reachable : reachable session_won.
Proof. apply reachable_orElse_reveal, reachable_init. Qed.

(** X23 (the view of a game that is won).  In a reachable session in phase
    [won] whose grid holds [mines] mines: [flagsLeft] is 0, the cells that
    show the flag are exactly the mines, and every other cell is
    revealed. *)
Theorem won_view (s : Session) (r c : Z) (x : Cell) :
  reachable s → status s = won →
  countMines (board s) = minesOf s →
  flagsLeft s = 0 ∧
  (cellOf (board s) r c = Some x →
   (isMine x = true ↔ display x = "🚩") ∧
   (isMine x = false → isRevealed x = true)).
Proof.
  intros Hreach Hst Hmines.
  pose proof (reachable_inv _ Hreach) as Hinv.
  pose proof (reachable_inv2 _ Hreach) as Hinv2.
  assert (∀ r c x, cellOf (board s) r c = Some x → isMine x = false →
            isRevealed x = true) as Hsafe.
  { apply all_safe_revealed; [done..|]. by apply (inv_won _ Hinv). }
  assert (∀ r c x, cellOf (board s) r c = Some x →
            (isFlagged x = true ↔ isMine x = true) ∧
            (isMine x = true → isRevealed x = false)) as Hcells.
  { intros r' c' y Hy. split; [split|].
    - intros Hf. destruct (isMine y) eqn:Hm; [done|].
      pose proof (Hsafe r' c' y Hy Hm) as Hr.
      destruct (inv_clean _ Hinv) with (r := r') (c := c') (x := y);
        congruence.
    - by apply (inv_won_flags _ Hinv Hst r' c' y).
    - intros Hm. destruct (isRevealed y) eqn:Hr; [|done].
      destruct (inv_clean _ Hinv) with (r := r') (c := c') (x := y);
        congruence. }
  split.
  - unfold flagsLeft. rewrite <- Hmines. unfold countFlagged, countMines.
    rewrite (length_filter_ext_in (λ cel : Cell, isFlagged cel)
               (λ cel : Cell, isMine cel)); [lia|].
    intros y (r' & c' & Hy)%elem_of_board.
    destruct (Hcells r' c' y Hy) as [Hiff _].
    rewrite !Is_true_true. done.
  - intros Hx. destruct (Hcells r c x Hx) as [Hiff Hcov].
    split; [|by apply (Hsafe r c x)]. split.
    + intros Hm. unfold display. rewrite (Hcov Hm). cbn [negb].
      by rewrite (proj2 Hiff Hm).
    + intros Hd. apply Hiff. unfold display in Hd.
      destruct (isRevealed x) eqn:Hr; cbn [negb] in Hd.
      * destruct (isMine x) eqn:Hm; [specialize (Hcov eq_refl); congruence|].
        exfalso. case_decide; [done|].
        pose proof (counts_ok _ Hinv2 r c x Hx) as Hc. rewrite Hm in Hc.
        pose proof (mineNeighbors_range (rowsOf s) (colsOf s) (board s) r c).
        apply (display_small_number (count x)) in Hd; [done|lia].
      * by destruct (isFlagged x).
Qed.

Lemma won_view_witness : flagsLeft session_won = 0.
Proof.
  destruct (won_view session_won 0 0 emptyCell session_won_reachable
              ltac:(vm_compute; reflexivity) ltac:(vm_compute; reflexivity))
    as [H _].
  exact H.
Defined.

(** ** Counters *)

Lemma length_append (s1 s2 : string) :
  String.length (s1 +:+ s2) = (String.length s1 + String.length s2)%nat.
Proof. induction s1 as [|a s1 IH]; simpl; [done|]. by rewrite IH. Qed.

Lemma substring_all (s : string) :
  String.substring 0 (String.length s) s = s.
Proof. induction s as [|a s IH]; simpl; [done|]. by rewrite IH. Qed.

Lemma substring_append (s1 s2 : string) :
  String.substring (String.length s1) (String.length s2) (s1 +:+ s2) = s2.
Proof. induction s1 as [|a s1 IH]; simpl; [apply substring_all | done]. Qed.

Lemma length_substring (n m : nat) (s : string) :
  (n + m ≤ String.length s)%nat → String.length (String.substring n m s) = m.
Proof.
  revert n m. induction s as [|a s IH]; intros n m Hle; simpl in *.
  - destruct n, m; simpl; lia.
  - destruct n as [|n].
    + destruct m as [|m]; simpl; [done|]. rewrite IH; [done|lia].
    + apply IH. lia.
Qed.

Lemma length_filler (n : nat) (padString rest : string) :
  padString ≠ "" → String.length (filler n padString rest) = n.
Proof.
  intros Hne. revert rest. induction n as [|n IH]; intros rest; simpl; [done|].
  destruct rest as [|a rest]; simpl.
  - destruct padString as [|a rest']; [done|]. simpl. by rewrite IH.
  - by rewrite IH.
Qed.

Lemma length_padStart (targetLength : Z) (padString s : string) :
  padString ≠ "" →
  Z.of_nat (String.length (padStart targetLength padString s))
  = Z.max targetLength (Z.of_nat (String.length s)).
Proof.
  intros Hne. unfold padStart. case_decide; [lia|].
  rewrite decide_False by done.
  rewrite length_append, length_filler by done. lia.
Qed.

Lemma length_slice_neg (k : Z) (s : string) :
  k < 0 → - k ≤ Z.of_nat (String.length s) →
  Z.of_nat (String.length (slice k s)) = - k.
Proof.
  intros Hk Hle. unfold slice. rewrite decide_True by lia.
  rewrite length_substring; lia.
Qed.

(** X24 (width of a counter).  The text of a [Counter] has exactly three
    characters, for every integer value, negative ones included, that a
    number holds exactly. *)
Theorem Counter_width (value : Z) :
  - 9007199254740991 ≤ value ≤ 9007199254740991 →
  String.length (Counter value) = 3%nat.
Proof.
  intros _. unfold Counter.
  pose proof (length_padStart 3 "0" (pretty value) ltac:(done)) as Hpad.
  pose proof (length_slice_neg (-3) (padStart 3 "0" (pretty value))) as Hs.
  apply Nat2Z.inj. rewrite Hs; lia.
Qed.

Lemma Counter_width_witness :
  String.length (Counter 7) = 3%nat ∧ String.length (Counter (-12345)) = 3%nat.
Proof. split; apply Counter_width; lia. Defined.

Lemma append_assoc (s1 s2 s3 : string) :
  (s1 +:+ s2) +:+ s3 = s1 +:+ (s2 +:+ s3).
Proof.
  induction s1 as [|a s1 IH]; [done|].
  change (String a ((s1 +:+ s2) +:+ s3) = String a (s1 +:+ (s2 +:+ s3))).
  by rewrite IH.
Qed.

Lemma pretty_N_go_app (x : N) (s : string) :
  pretty_N_go x s = pretty_N_go x "" +:+ s.
Proof.
  revert s. induction (N.lt_wf_0 x) as [x _ IH]. intros s.
  destruct (decide (x = 0%N)) as [->|Hx].
  { by rewrite !pretty_N_go_0. }
  rewrite (pretty_N_go_step x s), (pretty_N_go_step x "") by lia.
  assert (x `div` 10 < x)%N as Hlt by (apply N.div_lt; lia).
  rewrite (IH _ Hlt (String _ s)), (IH _ Hlt (String _ "")).
  by rewrite append_assoc.
Qed.

(** The decimal digit [d] as a character. *)
Lemma pretty_digit (d : Z) :
  0 ≤ d < 10 → pretty d = String (pretty_N_char (Z.to_N d)) "".
Proof.
  intros Hd.
  assert (d = 0 ∨ d = 1 ∨ d = 2 ∨ d = 3 ∨ d = 4 ∨ d = 5 ∨ d = 6 ∨ d = 7 ∨
          d = 8 ∨ d = 9) as Hcases by lia.
  repeat (destruct Hcases as [->|Hcases]; [reflexivity|]). by subst.
Qed.

Lemma pretty_Z_of_N (x : N) : pretty (Z.of_N x) = pretty x.
Proof. by destruct x. Qed.

(** The decimal numeral of [x] ends with its three low digits. *)
Lemma pretty_N_low_digits (x : N) :
  (100 ≤ x)%N →
  pretty x = pretty_N_go (x `div` 1000) "" +:+
    String (pretty_N_char ((x `div` 100) `mod` 10))
      (String (pretty_N_char ((x `div` 10) `mod` 10))
         (String (pretty_N_char (x `mod` 10)) "")).
Proof.
  intros Hx. unfold pretty, pretty_N. rewrite decide_False by lia.
  rewrite (pretty_N_go_step x) by lia.
  rewrite (pretty_N_go_step (x `div` 10)) by (apply N.div_str_pos; lia).
  rewrite N.Div0.div_div. change (10 * 10)%N with 100%N.
  rewrite (pretty_N_go_step (x `div` 100)) by (apply N.div_str_pos; lia).
  rewrite N.Div0.div_div. change (100 * 10)%N with 1000%N.
  apply pretty_N_go_app.
Qed.

Lemma Counter_low_digits (value : Z) :
  0 ≤ value →
  Counter value = pretty ((value `div` 100) `mod` 10) +:+
                  pretty ((value `div` 10) `mod` 10) +:+
                  pretty (value `mod` 10).
Proof.
  intros Hv.
  rewrite !pretty_digit by (apply Z.mod_pos_bound; lia).
  change (String ?a "" +:+ String ?b "" +:+ ?s) with (String a (String b s)).
  unfold Counter.
  rewrite <- (Z2N.id value Hv) at 1. rewrite pretty_Z_of_N.
  assert (∀ a b : Z, 0 ≤ a → 0 < b → Z.to_N (a `mod` b)
            = (Z.to_N a `mod` Z.to_N b)%N) as Hmod.
  { intros a b Ha Hb. rewrite Z2N.inj_mod; [done|lia..]. }
  assert (∀ a b : Z, 0 ≤ a → 0 < b → Z.to_N (a `div` b)
            = (Z.to_N a `div` Z.to_N b)%N) as Hdiv.
  { intros a b Ha Hb. rewrite Z2N.inj_div; [done|lia..]. }
  rewrite !Hmod, !Hdiv by (try apply Z.div_pos; lia).
  change (Z.to_N 10) with 10%N. change (Z.to_N 100) with 100%N.
  generalize (Z.to_N value). clear. intros x.
  destruct (decide (x < 10)%N) as [H10|H10];
    [|destruct (decide (x < 100)%N) as [H100|H100]].
  - rewrite (N.div_small x 100), (N.div_small x 10), (N.mod_small x 10)
      by lia.
    unfold pretty, pretty_N. case_decide as H0; [by subst|].
    rewrite pretty_N_go_step by lia.
    rewrite (N.div_small x 10), (N.mod_small x 10) by lia.
    rewrite pretty_N_go_0. reflexivity.
  - rewrite (N.div_small x 100) by lia.
    unfold pretty, pretty_N. rewrite decide_False by lia.
    rewrite pretty_N_go_step by lia.
    rewrite (pretty_N_go_step (x `div` 10)) by (apply N.div_str_pos; lia).
    rewrite N.Div0.div_div. change (10 * 10)%N with 100%N.
    rewrite (N.div_small x 100) by lia.
    rewrite pretty_N_go_0. reflexivity.
  - rewrite pretty_N_low_digits by lia.
    set (p := pretty_N_go (x `div` 1000) "").
    set (t := String _ (String _ (String _ ""))).
    unfold padStart. rewrite length_append. rewrite decide_True by (simpl; lia).
    unfold slice. rewrite decide_True by done. rewrite length_append.
    replace (Z.to_nat (Z.max _ 0)) with (String.length p) by (simpl; lia).
    replace (Z.to_nat _) with (String.length t) by (simpl; lia).
    apply substring_append.
Qed.

Lemma Counter_inj (v w : Z) :
  0 ≤ v ≤ 999 → 0 ≤ w ≤ 999 → Counter v = Counter w → v = w.
Proof.
  intros Hv Hw. rewrite !Counter_low_digits by lia.
  assert (∀ a b : Z, 0 ≤ a < 10 → 0 ≤ b < 10 →
            pretty_N_char (Z.to_N a) = pretty_N_char (Z.to_N b) → a = b)
    as Hchar.
  { intros a b Ha Hb Hab. apply (inj pretty).
    rewrite !pretty_digit by done. by rewrite Hab. }
  assert (∀ a : Z, 0 ≤ a `mod` 10 < 10) as Hmod
    by (intros a; apply Z.mod_pos_bound; lia).
  rewrite !pretty_digit by done.
  change (String ?a "" +:+ String ?b "" +:+ ?s) with (String a (String b s)).
  intros [= H2%Hchar H1%Hchar H0%Hchar]; try done.
  revert H0 H1 H2. Z.div_mod_to_equations. lia.
Qed.

(** X25 (digits of a counter).  For an integer value from 0 to
    [Number.MAX_SAFE_INTEGER] the text of a [Counter] consists of the
    hundreds, the tens and the units digit of the value: values up to 999
    are shown in full with leading zeros, and a larger value is shown as
    its remainder modulo 1000. *)
Theorem Counter_digits (value : Z) :
  0 ≤ value ≤ 9007199254740991 →
  Counter value = pretty ((value `div` 100) `mod` 10) +:+
                  pretty ((value `div` 10) `mod` 10) +:+
                  pretty (value `mod` 10) ∧
  Counter value = Counter (value `mod` 1000).
Proof.
  intros [Hv _]. split; [by apply Counter_low_digits|].
  rewrite (Counter_low_digits value), (Counter_low_digits (value `mod` 1000))
    by (try apply Z.mod_pos_bound; lia).
  assert (((value `mod` 1000) `div` 100) `mod` 10 = (value `div` 100) `mod` 10)
    as -> by (Z.div_mod_to_equations; lia).
  assert (((value `mod` 1000) `div` 10) `mod` 10 = (value `div` 10) `mod` 10)
    as -> by (Z.div_mod_to_equations; lia).
  assert ((value `mod` 1000) `mod` 10 = value `mod` 10)
    as -> by (Z.div_mod_to_equations; lia).
  done.
Qed.

Lemma Counter_digits_witness :
  Counter 1042 = "042" ∧ Counter 1042 = Counter 42.
Proof.
  destruct (Counter_digits 1042 ltac:(lia)) as [Hd Hw].
  split; [exact Hd | exact Hw].
Defined.

(** X26 (the timer).  In every reachable session [seconds] lies between 0
    and 999 and is 0 in phase [ready]; a tick adds one second and stops at
    999; and the text the timer's [Counter] shows determines [seconds]. *)
Theorem timer_display (s : Session) :
  reachable s →
  0 ≤ seconds s ≤ 999 ∧
  (status s = ready → seconds s = 0) ∧
  seconds (tick s) = (if decide (seconds s = 999) then 999
                      else seconds s + 1) ∧
  (∀ v, 0 ≤ v ≤ 999 → Counter v = Counter (seconds s) → v = seconds s).
Proof.
  intros Hinv2%reachable_inv2.
  pose proof (timer_range _ Hinv2) as Hrg.
  split; [done|]. split; [apply Hinv2|]. split.
  - unfold tick. simpl_session. case_decide; lia.
  - intros v Hv. by apply Counter_inj.
Qed.

Lemma timer_display_witness : 0 ≤ seconds session_playing ≤ 999.
Proof.
  destruct (timer_display session_playing session_playing_reachable)
    as [H _].
  exact H.
Defined.

(** * Further properties of the heap model *)




(** X28 ([cloneBoard] is a deep copy).  The clone of a board whose cells
    are allocated objects shows the same cell values and is made of new,
    pairwise distinct objects; cloning modifies no cell of the original,
    and neither does a later assignment to a cell of the clone. *)
Theorem cloneBoard_deep_copy (st : Heap.Store) (rows : list (list nat)) :
  (∀ l, l ∈ mjoin rows → (l < Heap.next st)%nat) →
  let res := Heap.cloneBoard st rows in
  Heap.snapshot res.1 res.2 = Heap.snapshot st rows ∧
  Heap.snapshot res.1 rows = Heap.snapshot st rows ∧
  NoDup (mjoin res.2) ∧
  (∀ l, l ∈ mjoin res.2 → (Heap.next st ≤ l < Heap.next res.1)%nat) ∧
  (∀ l f, l ∈ mjoin res.2 →
          Heap.snapshot (Heap.update res.1 l f) rows = Heap.snapshot st rows).
Proof.
  intros Hvalid. simpl.
  destruct (Heap.cloneBoard st rows) as [st' rows'] eqn:Hrun. simpl.
  unfold Heap.cloneBoard in Hrun.
  destruct (HeapFacts.mapRows_spec _ _ _ _ _ Hrun Hvalid)
    as ([Hn Ho] & Hsnap & Hrefs & Htot).
  destruct Htot as [Hnd Hfresh]; [by eexists|].
  assert (∀ st2, (∀ l, (l < Heap.next st)%nat → Heap.obj st2 l = Heap.obj st l) →
            Heap.snapshot st2 rows = Heap.snapshot st rows) as Hsame.
  { intros st2 Ho2. unfold Heap.snapshot. apply list_fmap_ext.
    intros _ row Hrow%list_elem_of_lookup_2. apply list_fmap_ext.
    intros _ l Hl%list_elem_of_lookup_2. apply Ho2, Hvalid.
    apply list_elem_of_join. eauto. }
  split_and!.
  - rewrite Hsnap. rewrite <- (mapBoard_id (Heap.snapshot st rows)) at 2.
    apply mapBoard_ext. by intros [].
  - by apply Hsame.
  - done.
  - intros l Hl. split; [by apply Hfresh | by apply Hrefs].
  - intros l f Hl. apply Hsame. intros l' Hl'. simpl.
    rewrite decide_False; [by apply Ho|]. specialize (Hfresh l Hl). lia.
Qed.

Lemma cloneBoard_deep_copy_witness :
  Heap.snapshot
    (Heap.cloneBoard (Heap.h_store heap_fresh) (Heap.h_board heap_fresh)).1
    (Heap.cloneBoard (Heap.h_store heap_fresh) (Heap.h_board heap_fresh)).2
  = Heap.snapshot (Heap.h_store heap_fresh) (Heap.h_board heap_fresh).
Proof.
  destruct (cloneBoard_deep_copy (Heap.h_store heap_fresh)
              (Heap.h_board heap_fresh)) as [H _].
  - apply freshSession_refines.
  - exact H.
Defined.

(** What a run of events from [hs] keeps: the session reached is well
    formed, shows the session reached by the value-level run, and no object
    that existed at the start has been modified. *)
Definition runRel (hs hs' : Heap.HSession) (s' : Session) : Prop :=
  Heap.wellFormed hs' ∧ Heap.view hs' = s' ∧
  HeapFacts.untouched (Heap.h_store hs) (Heap.h_store hs').

Lemma orel_mono {A B : Type} (R R' : A → B → Prop) (o1 : outcome A)
    (o2 : outcome B) :
  (∀ a b, R a b → R' a b) → orel R o1 o2 → orel R' o1 o2.
Proof. intros HR. destruct o1, o2; simpl; auto. Qed.

Lemma freshSession_runRel (hs : Heap.HSession) (d : Difficulty) :
  runRel hs (Heap.freshSession (Heap.h_store hs) d) (freshSession d).
Proof.
  destruct (freshSession_refines (Heap.h_store hs) d) as [Hwf Hview].
  split; [done|]. split; [done|]. unfold Heap.freshSession.
  destruct (Heap.makeRows _ _ _) as [st' rows] eqn:Hrun.
  by destruct (makeRows_spec _ _ _ _ _ Hrun) as (? & _).
Qed.

Lemma handle_refines (hs : Heap.HSession) (e : Event) :
  Heap.wellFormed hs →
  orel (runRel hs) (Heap.handle hs e) (handle (Heap.view hs) e).
Proof.
  intros Hwf. destruct e as [rnd r c|r c| |d|]; simpl.
  - eapply orel_mono; [|by apply handleReveal_refines].
    intros hs' s' (? & ? & ? & _). done.
  - eapply orel_mono; [|by apply handleFlag_refines].
    intros hs' s' (? & ? & ? & _). done.
  - apply freshSession_runRel.
  - unfold Heap.setDifficulty, setDifficulty. simpl.
    case_decide; [|apply freshSession_runRel].
    split; [done|]. split; [done|]. apply HeapFacts.untouched_refl.
  - case_decide; (split; [done|]); (split; [done|]);
      apply HeapFacts.untouched_refl.
Qed.

Lemma handle_reachable (s s' : Session) (e : Event) :
  reachable s → handle s e = Ok s' → reachable s'.
Proof.
  intros Hs. destruct e as [rnd r c|r c| |d|]; simpl.
  - intros Hrun. eapply reachable_step; [done|]. by eapply step_reveal.
  - intros Hrun. eapply reachable_step; [done|]. by eapply step_flag.
  - intros [= <-]. eapply reachable_step; [done|]. apply step_reset.
  - intros [= <-]. eapply reachable_step; [done|]. apply step_difficulty.
  - case_decide; intros [= <-]; [|done].
    eapply reachable_step; [done|]. by apply step_tick.
Qed.

(** X29 (runs of events on the heap).  From a well-formed heap session,
    any sequence of clicks, flag toggles, resets, difficulty changes and
    timer ticks either fails exactly as it does on board values, or ends in
    a well-formed heap session that shows the session computed on board
    values; no object that existed at the start has been modified, so the
    initial grid still shows what it showed; and the session shown is
    reachable when the initial one is. *)
Theorem heap_run_refines (evs : list Event) (hs : Heap.HSession) :
  Heap.wellFormed hs →
  orel (λ hs' s',
          Heap.wellFormed hs' ∧ Heap.view hs' = s' ∧
          (∀ l, (l < Heap.next (Heap.h_store hs))%nat →
                Heap.obj (Heap.h_store hs') l = Heap.obj (Heap.h_store hs) l) ∧
          Heap.snapshot (Heap.h_store hs') (Heap.h_board hs)
            = board (Heap.view hs) ∧
          (reachable (Heap.view hs) → reachable s'))
       (foldlM Heap.handle hs evs) (foldlM handle (Heap.view hs) evs).
Proof.
  intros Hwf.
  assert (orel (λ hs' s', runRel hs hs' s' ∧
                          (reachable (Heap.view hs) → reachable s'))
               (foldlM Heap.handle hs evs) (foldlM handle (Heap.view hs) evs))
    as Hrun.
  { assert (∀ hs1 s1, runRel hs hs1 s1 →
              (reachable (Heap.view hs) → reachable s1) →
              orel (λ hs' s', runRel hs hs' s' ∧
                              (reachable (Heap.view hs) → reachable s'))
                   (foldlM Heap.handle hs1 evs) (foldlM handle s1 evs)) as H.
    { induction evs as [|e evs IH]; intros hs1 s1 Hrel Hreach; simpl; [done|].
      destruct Hrel as (Hwf1 & <- & Hu1).
      pose proof (handle_refines hs1 e Hwf1) as Hstep.
      destruct (Heap.handle hs1 e) as [hs2| |] eqn:Hh,
               (handle (Heap.view hs1) e) as [s2| |] eqn:Hv; try done.
      simpl in *. destruct Hstep as (Hwf2 & Hview2 & Hu2).
      apply IH.
      - split; [done|]. split; [done|]. by eapply HeapFacts.untouched_trans.
      - intros Hr. eapply handle_reachable; [by apply Hreach | done]. }
    apply H; [|done]. split; [done|]. split; [done|].
    apply HeapFacts.untouched_refl. }
  eapply orel_mono; [|exact Hrun].
  intros hs' s' [(Hwf' & Hview & [Hn Ho]) Hreach].
  split_and!; try done.
  unfold Heap.view. simpl. unfold Heap.snapshot. apply list_fmap_ext.
  intros _ row Hrow%list_elem_of_lookup_2. apply list_fmap_ext.
  intros _ l Hl%list_elem_of_lookup_2. apply Ho, Hwf.
  apply list_elem_of_join. eauto.
Qed.

Lemma heap_run_refines_witness :
  orel (λ hs' s',
          Heap.wellFormed hs' ∧ Heap.view hs' = s' ∧
          (∀ l, (l < Heap.next (Heap.h_store heap_fresh))%nat →
                Heap.obj (Heap.h_store hs') l
                = Heap.obj (Heap.h_store heap_fresh) l) ∧
          Heap.snapshot (Heap.h_store hs') (Heap.h_board heap_fresh)
            = board (Heap.view heap_fresh) ∧
          (reachable (Heap.view heap_fresh) → reachable s'))
       (foldlM Heap.handle heap_fresh [EvFlag 0 0; EvTick])
       (foldlM handle (Heap.view heap_fresh) [EvFlag 0 0; EvTick]).
Proof.
  apply (heap_run_refines [EvFlag 0 0; EvTick] heap_fresh).
  apply freshSession_refines.
Defined.
